(** * clawdbot: the Gmail digest pipelines

    A shallow embedding of [scripts/gmail-digest.py] (the per-message
    pipeline) and [scripts/gmail-digest-all.py] (the all-at-once
    variant), and the properties of the specification checked on it.

    Python values are modelled as follows.
    - A [str] is the list of its code points ([N]); [len], slicing,
      [find], [strip], comparison and [sorted] work on code points as
      they do in CPython.
    - A [set] of strings is a [gset]; a [list] is a [list].
    - A call that leaves the process (the [gog] CLI, an HTTP request,
      the article fetcher) consults an oracle of the environment and is
      recorded in a trace; the oracle sees the trace so far, so the
      outside world may answer the same request differently each time.
    - An uncaught exception is the outcome [Raise]; the [try]/[except]
      blocks of the source are the matches on it. *)

From Stdlib Require Import ZArith NArith List String Ascii Lia Bool.
From stdpp Require Import base decidable countable gmap sets list sorting.

Local Open Scope N_scope.

(* ===================================================================== *)
(** * Part I. Definitions *)
(* ===================================================================== *)

(** ** The Python runtime the scripts rely on *)

Module Py.

(** A string is a sequence of Unicode code points. *)
Abbreviation char := N (only parsing).
Abbreviation str := (list N) (only parsing).

(** [bytes.decode('utf-8', errors='replace')]: every maximal ill-formed
    subsequence becomes one U+FFFD.  The decoder is a state machine over
    the bytes: [pending] is the number of continuation bytes still
    expected, [acc] the bits collected, [lo..hi] the range allowed for
    the next byte. *)
Record utf8_state := Utf8 { pending : nat; acc : N; lo : N; hi : N }.

Definition utf8_idle : utf8_state := Utf8 0 0 128 191.

Definition REPLACEMENT : char := 65533.

Definition utf8_lead (b : N) : list N * utf8_state :=
  if b <? 128 then ([b], utf8_idle)
  else if b <? 194 then ([REPLACEMENT], utf8_idle)
  else if b <? 224 then ([], Utf8 1 (N.land b 31) 128 191)
  else if b =? 224 then ([], Utf8 2 0 160 191)
  else if b =? 237 then ([], Utf8 2 13 128 159)
  else if b <? 240 then ([], Utf8 2 (N.land b 15) 128 191)
  else if b =? 240 then ([], Utf8 3 0 144 191)
  else if b <? 244 then ([], Utf8 3 (N.land b 7) 128 191)
  else if b =? 244 then ([], Utf8 3 4 128 143)
  else ([REPLACEMENT], utf8_idle).

Definition utf8_step (st : utf8_state) (b : N) : list N * utf8_state :=
  match pending st with
  | O => utf8_lead b
  | S n =>
      if (lo st <=? b) && (b <=? hi st) then
        let a := N.lor (N.shiftl (acc st) 6) (N.land b 63) in
        match n with
        | O => ([a], utf8_idle)
        | S _ => ([], Utf8 n a 128 191)
        end
      else
        let (out, st') := utf8_lead b in (REPLACEMENT :: out, st')
  end.

Fixpoint utf8_run (st : utf8_state) (bs : list N) : list N :=
  match bs with
  | [] => match pending st with O => [] | S _ => [REPLACEMENT] end
  | b :: bs' => let (out, st') := utf8_step st b in out ++ utf8_run st' bs'
  end.

Definition utf8_decode (bs : list N) : str := utf8_run utf8_idle bs.

(** String literals of the source: the literal's UTF-8 bytes, decoded. *)
Definition lit (s : string) : str :=
  utf8_decode (map N_of_ascii (list_ascii_of_string s)).
Arguments lit s%_string.

Definition NL : char := 10.

(** Truthiness of a string: [if s:]. *)
Definition truthy (s : str) : bool :=
  match s with [] => false | _ :: _ => true end.

Definition str_eqb (a b : str) : bool := bool_decide (a = b).

(** [c.isspace()], which is also the class [\s] of [re] on [str]. *)
Definition is_space (c : char) : bool :=
  ((9 <=? c) && (c <=? 13)) || ((28 <=? c) && (c <=? 32))
  || (c =? 133) || (c =? 160) || (c =? 5760)
  || ((8192 <=? c) && (c <=? 8202)) || (c =? 8232) || (c =? 8233)
  || (c =? 8239) || (c =? 8287) || (c =? 12288).

Fixpoint drop_while (p : char -> bool) (s : str) : str :=
  match s with
  | [] => []
  | c :: s' => if p c then drop_while p s' else s
  end.

Definition mem_char (cs : str) (c : char) : bool :=
  existsb (N.eqb c) cs.

(** [s.lstrip(cs)], [s.rstrip(cs)], and [s.strip()] (whitespace). *)
Definition lstrip (cs : str) (s : str) : str := drop_while (mem_char cs) s.
Definition rstrip (cs : str) (s : str) : str :=
  rev (drop_while (mem_char cs) (rev s)).
Definition strip (s : str) : str :=
  rev (drop_while is_space (rev (drop_while is_space s))).

(** [s.lower()] on ASCII text.  (On other text it is a function of the
    Unicode tables, which the environment below supplies.) *)
Definition lower_char (c : char) : char :=
  if (65 <=? c) && (c <=? 90) then c + 32 else c.
Definition lower_ascii (s : str) : str := map lower_char s.
Definition isascii (s : str) : bool := forallb (fun c => c <? 128) s.

Fixpoint take_while (p : char -> bool) (s : str) : str :=
  match s with
  | [] => []
  | c :: s' => if p c then c :: take_while p s' else []
  end.

(** [s.split(c, 1)] when [c] occurs in [s]: the text before the first
    [c] and the text after it. *)
Fixpoint split_first (c : char) (s : str) : option (str * str) :=
  match s with
  | [] => None
  | d :: s' =>
      if d =? c then Some ([], s')
      else match split_first c s' with
           | Some (a, b) => Some (d :: a, b)
           | None => None
           end
  end.

Fixpoint startswith (s pre : str) {struct pre} : bool :=
  match pre, s with
  | [], _ => true
  | p :: pre', c :: s' => (c =? p) && startswith s' pre'
  | _ :: _, [] => false
  end.

Definition endswith (s suf : str) : bool := startswith (rev s) (rev suf).

(** [pat in s]. *)
Fixpoint contains (pat s : str) : bool :=
  startswith s pat ||
  match s with
  | [] => false
  | _ :: s' => contains pat s'
  end.

(** [s.find(c)] and [s.rfind(c)] for a one-character [c]: an index, or -1. *)
Fixpoint find_from (i : Z) (c : char) (s : str) : Z :=
  match s with
  | [] => (-1)%Z
  | d :: s' => if d =? c then i else find_from (i + 1)%Z c s'
  end.
Definition find (c : char) (s : str) : Z := find_from 0%Z c s.

Fixpoint rfind_from (i : Z) (best : Z) (c : char) (s : str) : Z :=
  match s with
  | [] => best
  | d :: s' => rfind_from (i + 1)%Z (if d =? c then i else best) c s'
  end.
Definition rfind (c : char) (s : str) : Z := rfind_from 0%Z (-1)%Z c s.

(** [sep.join(l)]. *)
Fixpoint join (sep : str) (l : list str) : str :=
  match l with
  | [] => []
  | [x] => x
  | x :: l' => x ++ sep ++ join sep l'
  end.

(** [a <= b] on strings: lexicographic on code points. *)
Fixpoint str_leb (a b : str) : bool :=
  match a, b with
  | [], _ => true
  | _ :: _, [] => false
  | x :: a', y :: b' => (x <? y) || ((x =? y) && str_leb a' b')
  end.
Definition str_le (a b : str) : Prop := str_leb a b = true.

#[export] Instance str_le_dec (a b : str) : Decision (str_le a b).
Proof. unfold str_le. apply _. Defined.

(** [sorted(l)]. *)
Definition sorted (l : list str) : list str := merge_sort str_le l.

(** [l[-n:]] for a positive [n]. *)
Definition last_n {A} (n : nat) (l : list A) : list A :=
  drop (length l - n) l.

(** [re.sub(r'\n{3,}', '\n\n', s)]: a run of three or more line ends
    becomes two; [run] counts the line ends just passed. *)
Fixpoint collapse_from (run : nat) (s : str) : str :=
  match s with
  | [] => []
  | c :: s' =>
      if c =? NL then
        if (run <? 2)%nat then c :: collapse_from (S run) s'
        else collapse_from run s'
      else c :: collapse_from 0 s'
  end.
Definition collapse_newlines (s : str) : str := collapse_from 0 s.

(** [str(n)] for a natural number: its decimal digits. *)
Fixpoint digits_fuel (fuel : nat) (n : N) (tail : str) : str :=
  match fuel with
  | O => tail
  | S f =>
      let d := 48 + n mod 10 in
      if n <? 10 then d :: tail else digits_fuel f (n / 10) (d :: tail)
  end.
Definition str_of_nat (n : nat) : str :=
  digits_fuel (S n) (N.of_nat n) [].

End Py.
Import Py.

(** ** The seen-id store ([gmail-digest.py], lines 92-105)

    The state file is modelled by its text: [None] when the file does not
    exist.  (Directory creation and the codec of the locale are outside
    the model.) *)

Module SeenStore.

(** Reading a text file translates the line ends [\r\n] and [\r] to
    [\n] (universal newlines). *)
Fixpoint universal_newlines (s : str) : str :=
  match s with
  | [] => []
  | 13 :: s' =>
      10 :: match s' with
            | 10 :: s'' => universal_newlines s''
            | _ => universal_newlines s'
            end
  | c :: s' => c :: universal_newlines s'
  end.

(** [for line in f]: the lines of the text, each with its line end. *)
Fixpoint lines_from (cur : str) (s : str) : list str :=
  match s with
  | [] => match cur with [] => [] | _ => [rev cur] end
  | c :: s' =>
      if c =? NL then rev (c :: cur) :: lines_from [] s'
      else lines_from (c :: cur) s'
  end.
Definition file_lines (content : str) : list str :=
  lines_from [] (universal_newlines content).

(** [load_seen_ids()]. *)
Definition load_seen_ids (state_file : option str) : gset str :=
  match state_file with
  | None => ∅
  | Some content =>
      list_to_set (filter (fun l => truthy l = true) (map strip (file_lines content)))
  end.

(** [save_seen_ids(ids)]: the text written to the state file. *)
Definition save_seen_ids (ids : gset str) : str :=
  let recent := last_n 500 (sorted (elements ids)) in
  join [NL] recent ++ [NL].

(** [seen_ids.add(x)]. *)
Definition add (x : str) (ids : gset str) : gset str := {[x]} ∪ ids.

End SeenStore.

(** ** Exceptions and results *)

Inductive exn :=
| TimeoutExpired      (* subprocess.run: the child outlived its timeout *)
| RequestException    (* requests: connection error or timeout *)
| ValueError          (* urlparse: invalid host; base64: non-ASCII input *)
| BinasciiError       (* base64: incorrect padding *)
| SystemExit          (* sys.exit *)
| NonTermination.     (* a loop that never ends *)

Inductive result (A : Type) :=
| Ok (a : A)
| Raise (e : exn).
Arguments Ok {A} a.
Arguments Raise {A} e.

Definition rbind {A B} (r : result A) (k : A -> result B) : result B :=
  match r with
  | Ok a => k a
  | Raise e => Raise e
  end.

(** ** [base64.urlsafe_b64decode(data).decode('utf-8', errors='replace')] *)

Module Base64.

(** The value of a character of the alphabet, after the URL-safe
    translation of [-] and [_]. *)
Definition value (c : N) : option N :=
  if (65 <=? c) && (c <=? 90) then Some (c - 65)
  else if (97 <=? c) && (c <=? 122) then Some (c - 71)
  else if (48 <=? c) && (c <=? 57) then Some (c + 4)
  else if (c =? 43) || (c =? 45) then Some 62
  else if (c =? 47) || (c =? 95) then Some 63
  else None.

Record state := St {
  quad_pos : nat;       (* position in the current group of four *)
  leftchar : N;         (* bits left over from the previous character *)
  pads : nat;           (* padding characters seen in this group *)
  out : list N;         (* bytes produced, last first *)
  finished : bool }.    (* a complete padding was read: the rest is ignored *)

Definition start : state := St 0 0 0 [] false.

(** One character of [binascii.a2b_base64] outside strict mode. *)
Definition step (s : state) (c : N) : state :=
  if finished s then s
  else if c =? 61 then
    if (2 <=? quad_pos s)%nat then
      if (4 <=? quad_pos s + S (pads s))%nat
      then St (quad_pos s) (leftchar s) (S (pads s)) (out s) true
      else St (quad_pos s) (leftchar s) (S (pads s)) (out s) false
    else s
  else
    match value c with
    | None => s
    | Some v =>
        match quad_pos s with
        | 0%nat => St 1 v 0 (out s) false
        | 1%nat => St 2 (N.land v 15) 0
                    (N.lor (N.shiftl (leftchar s) 2) (N.shiftr v 4) :: out s) false
        | 2%nat => St 3 (N.land v 3) 0
                    (N.lor (N.shiftl (leftchar s) 4) (N.shiftr v 2) :: out s) false
        | _ => St 0 0 0 (N.lor (N.shiftl (leftchar s) 6) v :: out s) false
        end
    end.

Definition a2b_base64 (data : str) : result (list N) :=
  let s := fold_left step data start in
  if finished s then Ok (rev (out s))
  else match quad_pos s with
       | O => Ok (rev (out s))
       | S _ => Raise BinasciiError
       end.

Definition urlsafe_b64decode (data : str) : result (list N) :=
  if forallb (fun c => c <? 128) data then a2b_base64 data
  else Raise ValueError.

(** The [decoded] of the source. *)
Definition decode_text (data : str) : result str :=
  rbind (urlsafe_b64decode data) (fun bs => Ok (utf8_decode bs)).

End Base64.

(** ** The documents the mail CLI prints, and the outside world *)

(** A MIME part of a message: [part.get('mimeType', '')], the headers
    ([name], [value]) of [payload.get('headers', [])],
    [part.get('body', {}).get('data', '')], and [part['parts']] when the
    key is present. *)
#[warnings="-register-all"]
Inductive part := Part {
  mimeType : str;
  headers : list (str * str);
  body_data : str;
  parts : option (list part) }.

(** A message of a thread: its payload and [msg.get('snippet', '')]. *)
Record message := Message { payload : part; snippet : str }.

(** An entry of the search result: [email_meta.get('id', '')]. *)
Record email_meta := Meta { meta_id : str }.

(** What a child process wrote to its standard output, read as JSON. *)
Inductive stdout (A : Type) :=
| NotJson             (* empty, or not a JSON document *)
| Json (doc : A).
Arguments NotJson {A}.
Arguments Json {A} doc.

Inductive gog_reply (A : Type) :=
| GogTimeout
| GogExit (returncode : Z) (out : stdout A).
Arguments GogTimeout {A}.
Arguments GogExit {A} returncode out.

Inductive proc_reply :=
| ProcRaise
| ProcExit (returncode : Z) (output : str).

Inductive get_reply :=
| GetRaise
| GetResp (status : Z) (content_type : str) (text : str).

(** The answer to a POST: an exception of [requests], or a status and the
    JSON document of the body ([None]: [resp.json()] or the access to
    the document raises). *)
Inductive http_reply (A : Type) :=
| HttpRaise
| HttpResp (status : Z) (body : option A).
Arguments HttpRaise {A}.
Arguments HttpResp {A} status body.

(** The calls that leave the process, as the trace records them. *)
Inductive event :=
| RunGog (args : list str)
| RunMediumFetch (url : str)
| HttpGet (url : str)
| PostGemini (prompt : str)
| PostDeepseek (prompt : str)
| PostTelegram (text : str) (html : bool).

#[export] Instance event_eq_dec : EqDecision event.
Proof. solve_decision. Defined.

Record Env := {
  (* the module-level configuration *)
  ACCOUNT : str;
  BOT_TOKEN : str;
  CHAT_ID : str;
  GEMINI_KEY : str;
  DEEPSEEK_KEY : str;
  (* library functions that are not modelled *)
  h2t_handle : str -> str;          (* html2text.HTML2Text.handle *)
  unicode_lower : str -> str;       (* str.lower on text outside ASCII *)
  nfkc_host_ok : str -> bool;       (* urllib's NFKC check of a non-ASCII host *)
  bracketed_host_ok : str -> bool;  (* urllib's check of a host in brackets *)
  (* the outside world: each answer may depend on the calls made so far *)
  gog_thread : list event -> list str -> gog_reply (list message);
  gog_search : list event -> list str -> gog_reply (list email_meta);
  gog_modify : list event -> list str -> gog_reply unit;
  medium_fetch : list event -> str -> proc_reply;
  http_get : list event -> str -> get_reply;
  gemini : list event -> str -> http_reply (list (list str));
  deepseek : list event -> str -> http_reply (list str);
  telegram : list event -> str -> bool -> http_reply unit }.

(** ** The monad of the scripts: a trace of calls, and exceptions *)

Definition M (A : Type) : Type := list event -> result A * list event.

#[export] Instance M_ret : MRet M := fun A a tr => (Ok a, tr).
#[export] Instance M_bind : MBind M := fun A B k m tr =>
  match m tr with
  | (Ok a, tr') => k a tr'
  | (Raise e, tr') => (Raise e, tr')
  end.

Definition lift {A} (r : result A) : M A := fun tr => (r, tr).

Definition call {A} (ev : event) (oracle : list event -> A) : M A :=
  fun tr => (Ok (oracle tr), tr ++ [ev]).

(** [run_gog(args)]: the standard output of the CLI; the return code is
    only logged. *)
Definition run_gog {A} (oracle : list event -> list str -> gog_reply A)
    (args : list str) : M (stdout A) :=
  r ← call (RunGog args) (fun tr => oracle tr args);
  match r with
  | GogTimeout => lift (Raise TimeoutExpired)
  | GogExit _ out => mret out
  end.

(** [resp.raise_for_status()] raises on a 4xx or 5xx status. *)
Definition is_error_status (status : Z) : bool :=
  ((400 <=? status) && (status <? 600))%Z.

(** [s.lower()]. *)
Definition lower (E : Env) (s : str) : str :=
  if isascii s then lower_ascii s else unicode_lower E s.

(** ** [urllib.parse.urlparse] *)

Module Url.

Record ParseResult := Parsed {
  scheme : str; netloc : str; path : str;
  params : str; query : str; fragment : str }.

Definition scheme_char (c : char) : bool :=
  ((97 <=? c) && (c <=? 122)) || ((65 <=? c) && (c <=? 90))
  || ((48 <=? c) && (c <=? 57)) || (c =? 43) || (c =? 45) || (c =? 46).

Definition ascii_alpha (c : char) : bool :=
  ((97 <=? c) && (c <=? 122)) || ((65 <=? c) && (c <=? 90)).

Definition uses_params : list str :=
  [ []; lit "ftp"; lit "hdl"; lit "prospero"; lit "http"; lit "imap";
    lit "https"; lit "shttp"; lit "rtsp"; lit "rtspu"; lit "sip";
    lit "sips"; lit "mms"; lit "sftp"; lit "tel" ].

(** The scheme, when the text before the first [:] is one. *)
Definition split_scheme (url : str) : str * str :=
  match url, split_first 58 url with
  | c :: _, Some (s, rest) =>
      if truthy s && ascii_alpha c && forallb scheme_char s
      then (lower_ascii s, rest) else ([], url)
  | _, _ => ([], url)
  end.

(** The head of [urlsplit]: leading control characters and spaces are
    stripped, and tabs and line ends are removed. *)
Definition remove_unsafe (url : str) : str :=
  filter (fun c => negb ((c =? 9) || (c =? 13) || (c =? 10)) = true)
         (drop_while (fun c => c <=? 32) url).

(** [if c in url: url, tail = url.split(c, 1)], with an empty [tail]
    otherwise. *)
Definition split_off (c : char) (url : str) : str * str :=
  match split_first c url with
  | Some (a, b) => (a, b)
  | None => (url, [])
  end.

(** [_splitnetloc(url, 2)]: the host part ends at the first of [/?#]. *)
Definition netloc_char (c : char) : bool :=
  negb ((c =? 47) || (c =? 63) || (c =? 35)).
Definition splitnetloc (url : str) : str * str :=
  let rest := drop 2 url in
  (take_while netloc_char rest, drop_while netloc_char rest).

Section WithEnv.
Context (E : Env).

Definition check_brackets (host : str) : result unit :=
  let opening := mem_char host 91 in
  let closing := mem_char host 93 in
  if xorb opening closing then Raise ValueError
  else if opening && closing && negb (bracketed_host_ok E host) then Raise ValueError
  else Ok tt.

Definition checknetloc (host : str) : result unit :=
  if negb (truthy host) || isascii host then Ok tt
  else if nfkc_host_ok E host then Ok tt else Raise ValueError.

Definition urlsplit (url : str) : result ParseResult :=
  let '(scheme, url) := split_scheme (remove_unsafe url) in
  rbind (if startswith url (lit "//")
         then let '(host, rest) := splitnetloc url in
              rbind (check_brackets host) (fun _ => Ok (host, rest))
         else Ok ([], url)) (fun '(host, url) =>
  let '(url, fragment) := split_off 35 url in
  let '(url, query) := split_off 63 url in
  rbind (checknetloc host) (fun _ =>
  Ok (Parsed scheme host url [] query fragment))).

(** [_splitparams(url)], for a [url] that contains [;]. *)
Definition splitparams (url : str) : str * str :=
  if mem_char url 47 then
    let r := Z.to_nat (rfind 47 url) in
    match split_first 59 (drop r url) with
    | Some (a, b) => (take r url ++ a, b)
    | None => (url, [])
    end
  else
    match split_first 59 url with
    | Some (a, b) => (a, b)
    | None => (url, [])
    end.

Definition urlparse (url : str) : result ParseResult :=
  rbind (urlsplit url) (fun r =>
  if bool_decide (scheme r ∈ uses_params) && mem_char (path r) 59
  then let '(p, ps) := splitparams (path r) in
       Ok (Parsed (scheme r) (netloc r) p ps (query r) (fragment r))
  else Ok r).

End WithEnv.
End Url.

(** ** The URL extractor and filter (both scripts) *)

Module Urls.

Definition SKIP_DOMAINS : list str :=
  [ lit "list-manage.com"; lit "mailchimp.com"; lit "sendgrid.net";
    lit "manage.kmail-lists.com"; lit "google.com/maps";
    lit "play.google.com"; lit "itunes.apple.com";
    lit "facebook.com"; lit "twitter.com"; lit "instagram.com";
    lit "linkedin.com"; lit "youtube.com";
    lit "doubleclick.net"; lit "googlesyndication.com" ].

Definition SKIP_URL_PATTERNS : list str :=
  [ lit "unsubscribe"; lit "optout"; lit "opt-out"; lit "preference";
    lit "click."; lit "tracking."; lit "trk."; lit "opens.";
    lit "beacon"; lit "pixel"; lit "1x1" ].

Definition MEDIA_EXTENSIONS : list str :=
  [ lit ".png"; lit ".jpg"; lit ".jpeg"; lit ".gif"; lit ".svg";
    lit ".ico"; lit ".css"; lit ".js"; lit ".woff" ].

(** The character class of the pattern: anything but white space and
    the characters [<], [>], the double and the single quote, [)] and
    the closing bracket. *)
Definition url_char (c : char) : bool :=
  negb (is_space c || mem_char [60; 62; 34; 39; 41; 93] c).

(** The pattern ([https?://] and one or more characters of the class)
    matches at the head of [s]. *)
Definition starts_url (s : str) : bool :=
  (startswith s (lit "https://") &&
     match drop 8 s with c :: _ => url_char c | [] => false end)
  || (startswith s (lit "http://") &&
     match drop 7 s with c :: _ => url_char c | [] => false end).

(** [re.findall(pattern, s)]: the matches from left to right, without
    overlap; [skip] characters of the previous match are still to pass.
    A match extends over the longest run of characters of the class (the
    characters of [http://] and [https://] are in the class). *)
Fixpoint findall_from (skip : nat) (s : str) : list str :=
  match s with
  | [] => []
  | _ :: s' =>
      match skip with
      | S k => findall_from k s'
      | O =>
          if starts_url s then
            let m := take_while url_char s in
            m :: findall_from (length m - 1) s'
          else findall_from 0 s'
      end
  end.
Definition findall (body_text : str) : list str := findall_from 0 body_text.

Section WithEnv.
Context (E : Env).

(** [is_tracking_url(url)]. *)
Definition is_tracking_url (url : str) : result bool :=
  let url_lower := lower E url in
  if existsb (fun pat => contains pat url_lower) SKIP_URL_PATTERNS then Ok true
  else
    rbind (Url.urlparse E url_lower) (fun parsed =>
    Ok (existsb (fun sd => contains sd (Url.netloc parsed)) SKIP_DOMAINS)).

(** The body of the loop of [extract_article_urls] up to the
    deduplication: [None] for a [continue], the key otherwise. *)
Definition url_key (url : str) : result (option str) :=
  if (length url <? 20)%nat then Ok None
  else
    rbind (is_tracking_url url) (fun tracking =>
    if tracking then Ok None
    else
      rbind (Url.urlparse E url) (fun p =>
      let path_lower := lower E (Url.path p) in
      if existsb (endswith path_lower) MEDIA_EXTENSIONS then Ok None
      else
        rbind (Url.urlparse E url) (fun parsed =>
        Ok (Some (Url.netloc parsed ++ Url.path parsed))))).

Definition TRAILING : str := lit ".,;:!?)>]".

Fixpoint url_loop (urls : list str) (seen : gset str) (good_urls : list str)
  : result (list str) :=
  match urls with
  | [] => Ok good_urls
  | url :: rest =>
      let url := rstrip TRAILING url in
      rbind (url_key url) (fun k =>
      match k with
      | None => url_loop rest seen good_urls
      | Some key =>
          if bool_decide (key ∈ seen) then url_loop rest seen good_urls
          else url_loop rest ({[key]} ∪ seen) (good_urls ++ [url])
      end)
  end.

(** [extract_article_urls(body_text)], returning [good_urls[:max_urls]]. *)
Definition extract_article_urls_upto (max_urls : nat) (body_text : str)
  : result (list str) :=
  rbind (url_loop (findall body_text) ∅ []) (fun good_urls =>
  Ok (take max_urls good_urls)).

End WithEnv.
End Urls.

(** ** The mail reader (both scripts) *)

Module Mail.

Definition TEXT_PLAIN : str := lit "text/plain".
Definition TEXT_HTML : str := lit "text/html".

(** The two assignments in the loop of [extract_parts]; [st] holds the
    variables [body_text] and [body_html]. *)
Definition assign (mime decoded : str) (st : str * str) : str * str :=
  let '(body_text, body_html) := st in
  if str_eqb mime TEXT_PLAIN && negb (truthy body_text) then (decoded, body_html)
  else if str_eqb mime TEXT_HTML && negb (truthy body_html) then (body_text, decoded)
  else st.

(** One turn of the loop of [extract_parts]: the part, then its parts. *)
Fixpoint extract_part (p : part) (st : str * str) {struct p} : result (str * str) :=
  match p with
  | Part mime _ data sub =>
      rbind (if truthy data
             then rbind (Base64.decode_text data) (fun decoded =>
                  Ok (assign mime decoded st))
             else Ok st) (fun st1 =>
      match sub with
      | None => Ok st1
      | Some ps =>
          (fix loop (ps : list part) (st : str * str) : result (str * str) :=
             match ps with
             | [] => Ok st
             | q :: qs => rbind (extract_part q st) (loop qs)
             end) ps st1
      end)
  end.

(** [extract_parts(parts)]. *)
Fixpoint extract_parts (ps : list part) (st : str * str) : result (str * str) :=
  match ps with
  | [] => Ok st
  | q :: qs => rbind (extract_part q st) (extract_parts qs)
  end.

(** The fields of the dictionary that [get_email_body] returns. *)
Record email_data := Email {
  e_from : str; e_subject : str; e_date : str; e_body : str; e_snippet : str }.

Definition HEADER_NAMES : list str :=
  [lit "from"; lit "to"; lit "subject"; lit "date"].

Section WithEnv.
Context (E : Env).

(** The dictionary [headers]: a later header of the same name overwrites
    an earlier one. *)
Definition collect_headers (hs : list (str * str)) : gmap str str :=
  foldl (fun d h =>
           let name := lower E h.1 in
           if bool_decide (name ∈ HEADER_NAMES) then <[name := h.2]> d else d)
        ∅ hs.

(** The variables [body_text] and [body_html] after the walk. *)
Definition extract_bodies (payload : part) : result (str * str) :=
  match parts payload with
  | Some ps => extract_parts ps ([], [])
  | None =>
      if truthy (body_data payload) then
        rbind (Base64.decode_text (body_data payload)) (fun decoded =>
        if str_eqb (mimeType payload) TEXT_PLAIN then Ok (decoded, [])
        else if str_eqb (mimeType payload) TEXT_HTML then Ok ([], decoded)
        else Ok ([], []))
      else Ok ([], [])
  end.

(** [body_text] before it is cut to the cap: the HTML is converted only
    when there is no plain text. *)
Definition extract_body (payload : part) : result str :=
  rbind (extract_bodies payload) (fun '(body_text, body_html) =>
  Ok (if negb (truthy body_text) && truthy body_html
      then h2t_handle E body_html else body_text)).

(** The part of [get_email_body] after [msg = messages[0]]. *)
Definition read_message (max_body : nat) (msg : message) : result email_data :=
  let headers := collect_headers (headers (payload msg)) in
  rbind (extract_body (payload msg)) (fun body_text =>
  Ok {| e_from := default [] (headers !! lit "from");
        e_subject := default [] (headers !! lit "subject");
        e_date := default [] (headers !! lit "date");
        e_body := take max_body body_text;
        e_snippet := snippet msg |}).

(** [get_email_body(thread_id)], with the arguments of the CLI and the
    cap of the script; [None] is the empty dictionary. *)
Definition get_email_body_with (args : list str) (max_body : nat)
  : M (option email_data) :=
  raw ← run_gog (gog_thread E) args;
  match raw with
  | NotJson => mret None
  | Json messages =>
      match messages with
      | [] => mret None
      | msg :: _ => data ← lift (read_message max_body msg); mret (Some data)
      end
  end.

End WithEnv.
End Mail.

(** ** [scripts/gmail-digest.py]: the per-message pipeline *)

Module Digest.

Import Mail.

Definition MAX_URLS : nat := 3.
Definition MAX_ARTICLE : nat := 3000.
Definition MAX_BODY : nat := 5000.
Definition SEARCH_QUERY : str := lit "is:unread newer_than:10m".

(** Truthiness of a value that is a string or [None]. *)
Definition some_text (o : option str) : bool :=
  match o with Some s => truthy s | None => false end.

(** [build_summary_prompt(email_data, articles)]; an article is the pair
    of its [url] and its [content]. *)
Definition prompt_head (email_data : email_data) : str :=
  join [NL]
    [ lit "请用中文总结以下邮件，要求：";
      lit "1. 一句话概括邮件主旨";
      lit "2. 列出关键信息要点 (3-5条)";
      lit "3. 如果有文章链接内容，提取核心观点";
      lit "4. 如果需要采取行动，明确标注";
      [];
      lit "📧 邮件信息";
      lit "发件人: " ++ e_from email_data;
      lit "主题: " ++ e_subject email_data;
      lit "日期: " ++ e_date email_data;
      [];
      lit "📝 邮件正文:";
      take 3000 (e_body email_data) ].

Fixpoint prompt_articles (i : nat) (articles : list (str * str)) : str :=
  match articles with
  | [] => []
  | a :: rest =>
      [NL; NL] ++ lit "[文章" ++ str_of_nat i ++ lit "] " ++ take 80 a.1
      ++ [NL] ++ take 1500 a.2 ++ prompt_articles (S i) rest
  end.

Definition build_summary_prompt (email_data : email_data)
    (articles : list (str * str)) : str :=
  match articles with
  | [] => prompt_head email_data
  | _ :: _ =>
      prompt_head email_data ++ [NL; NL] ++ lit "📎 链接文章内容:"
      ++ prompt_articles 1 articles
  end.

(** The two texts of a notification. *)
Definition summary_text (email_data : email_data) (summary : str) : str :=
  lit "📧 <b>" ++ e_subject email_data ++ lit "</b>" ++ [NL]
  ++ lit "👤 " ++ e_from email_data ++ [NL; NL] ++ summary.

Definition raw_snippet_text (email_data : email_data) : str :=
  lit "📧 新邮件" ++ [NL] ++ lit "发件人: " ++ e_from email_data ++ [NL]
  ++ lit "主题: " ++ e_subject email_data ++ [NL; NL]
  ++ take 500 (e_snippet email_data).

Section WithEnv.
Context (E : Env).

(** [mark_as_read(thread_id)]. *)
Definition mark_as_read (thread_id : str) : M bool :=
  _ ← run_gog (gog_modify E)
        [ lit "gmail"; lit "thread"; lit "modify"; thread_id;
          lit "--remove"; lit "UNREAD"; lit "--account"; ACCOUNT E;
          lit "--force" ];
  mret true.

(** [search_new_emails()]. *)
Definition search_new_emails : M (list email_meta) :=
  raw ← run_gog (gog_search E)
          [ lit "gmail"; lit "search"; SEARCH_QUERY;
            lit "--account"; ACCOUNT E; lit "--json"; lit "--results-only" ];
  mret (match raw with Json emails => emails | NotJson => [] end).

(** [get_email_body(thread_id)]. *)
Definition get_email_body (thread_id : str) : M (option email_data) :=
  get_email_body_with E
    [ lit "gmail"; lit "thread"; thread_id;
      lit "--account"; ACCOUNT E; lit "--json"; lit "--results-only" ]
    MAX_BODY.

(** [extract_article_urls(body_text)]. *)
Definition extract_article_urls (body_text : str) : result (list str) :=
  Urls.extract_article_urls_upto E MAX_URLS body_text.

(** [fetch_medium_article(url)]. *)
Definition fetch_medium_article (url : str) : M (option str) :=
  r ← call (RunMediumFetch url) (fun tr => medium_fetch E tr url);
  mret (match r with
        | ProcRaise => None
        | ProcExit returncode output =>
            if (returncode =? 0)%Z && (50 <? length (strip output))%nat
            then Some (take MAX_ARTICLE (strip output)) else None
        end).

(** [fetch_article(url)]. *)
Definition fetch_article (url : str) : M (option str) :=
  content ← (if contains (lit "medium.com") url
             then fetch_medium_article url else mret None);
  if some_text content then mret content
  else
    r ← call (HttpGet url) (fun tr => http_get E tr url);
    mret (match r with
          | GetRaise => None
          | GetResp status content_type text =>
              if is_error_status status then None
              else if negb (contains (lit "html") content_type)
                      && negb (contains (lit "text") content_type) then None
              else
                let text := strip (collapse_newlines (h2t_handle E text)) in
                if (length text <? 50)%nat then None
                else Some (take MAX_ARTICLE text)
          end).

(** [call_deepseek(prompt)]: the reply holds, for each choice, its
    [message.content]. *)
Definition call_deepseek (prompt : str) : M (option str) :=
  if negb (truthy (DEEPSEEK_KEY E)) then mret None
  else
    r ← call (PostDeepseek prompt) (fun tr => deepseek E tr prompt);
    mret (match r with
          | HttpRaise => None
          | HttpResp status body =>
              if is_error_status status then None
              else match body with
                   | Some (content :: _) => Some content
                   | _ => None
                   end
          end).

(** [call_gemini(prompt)]: the reply holds, for each candidate, the
    texts of the parts of its content. *)
Definition call_gemini (prompt : str) : M (option str) :=
  if negb (truthy (GEMINI_KEY E)) then mret None
  else
    r ← call (PostGemini prompt) (fun tr => gemini E tr prompt);
    mret (match r with
          | HttpRaise => None
          | HttpResp status body =>
              if is_error_status status then None
              else match body with
                   | Some ((text :: _) :: _) => Some text
                   | _ => None
                   end
          end).

(** [call_ai(prompt)]. *)
Definition call_ai (prompt : str) : M (option str) :=
  result ← call_gemini prompt;
  if some_text result then mret result
  else
    result ← call_deepseek prompt;
    if some_text result then mret result else mret None.

(** [send_tg(text)]. *)
Definition send_tg (text : str) : M bool :=
  if negb (truthy (BOT_TOKEN E)) then mret false
  else
    let text := if (4000 <? length text)%nat
                then take 3997 text ++ lit "..." else text in
    resp ← call (PostTelegram text true) (fun tr => telegram E tr text true);
    match resp with
    | HttpRaise => mret false
    | HttpResp status _ =>
        if (status =? 200)%Z then mret true
        else
          resp2 ← call (PostTelegram text false) (fun tr => telegram E tr text false);
          mret (match resp2 with
                | HttpRaise => false
                | HttpResp status2 _ => (status2 =? 200)%Z
                end)
    end.

(** The loop that fetches the articles in [process_email]. *)
Fixpoint fetch_articles (urls : list str) : M (list (str * str)) :=
  match urls with
  | [] => mret []
  | url :: rest =>
      content ← fetch_article url;
      articles ← fetch_articles rest;
      mret (match content with
            | Some c => if truthy c then (url, c) :: articles else articles
            | None => articles
            end)
  end.

(** [process_email(email_meta, seen_ids)]: the value returned and the
    set [seen_ids] as the call leaves it. *)
Definition process_email (email_meta : email_meta) (seen_ids : gset str)
  : M (bool * gset str) :=
  let msg_id := meta_id email_meta in
  if bool_decide (msg_id ∈ seen_ids) then mret (false, seen_ids)
  else
    email_data ← get_email_body msg_id;
    match email_data with
    | None => mret (false, SeenStore.add msg_id seen_ids)
    | Some email_data =>
        urls ← lift (extract_article_urls (e_body email_data));
        articles ← fetch_articles urls;
        let prompt := build_summary_prompt email_data articles in
        summary ← call_ai prompt;
        let tg_text :=
          match summary with
          | Some s => if truthy s then summary_text email_data s
                      else raw_snippet_text email_data
          | None => raw_snippet_text email_data
          end in
        ok ← send_tg tg_text;
        _ ← (if (ok : bool) then mark_as_read msg_id else mret true);
        mret (true, SeenStore.add msg_id seen_ids)
    end.

(** The loop of [main] over the search result. *)
Fixpoint process_all (emails : list email_meta) (seen_ids : gset str)
    (new_count : nat) : M (nat * gset str) :=
  match emails with
  | [] => mret (new_count, seen_ids)
  | email_meta :: rest =>
      r ← process_email email_meta seen_ids;
      let '(processed, seen_ids) := (r : bool * gset str) in
      process_all rest seen_ids (if processed then S new_count else new_count)
  end.

(** [main()], from the state file before the run to the state file
    after it. *)
Definition main (state_file : option str) : M (option str) :=
  if negb (truthy (BOT_TOKEN E)) then lift (Raise SystemExit)
  else
    let seen_ids := SeenStore.load_seen_ids state_file in
    emails ← search_new_emails;
    r ← process_all emails seen_ids 0;
    mret (Some (SeenStore.save_seen_ids (r : nat * gset str).2)).

End WithEnv.
End Digest.

(** ** [scripts/gmail-digest-all.py]: the all-at-once variant *)

Module DigestAll.

Import Mail.

(** The loop of [send_tg] that cuts a long text into [parts]; [fuel]
    bounds the number of turns, and [None] is a loop that has not ended
    within it. *)
Fixpoint split_loop (fuel : nat) (text : str) : option (list str) :=
  if negb (truthy text) then Some []
  else if (length text <=? 4000)%nat then Some [text]
  else
    match fuel with
    | O => None
    | S fuel' =>
        let cut := rfind NL (take 4000 text) in
        let cut := if (cut <? 2000)%Z then 4000%Z else cut in
        let cut := Z.to_nat cut in
        option_map (cons (take cut text))
                   (split_loop fuel' (lstrip [NL] (drop cut text)))
    end.

Definition split_text (text : str) : option (list str) :=
  split_loop (length text) text.

(** An entry of [all_emails]: the dictionary of the mail reader with the
    keys [id] and [articles] added. *)
Record read_email := Read {
  r_id : str; r_data : email_data; r_articles : list (str * str) }.

Definition QUOTE : char := 34.

Definition prompt_intro (n : nat) : str :=
  lit "你是一个邮件助手。请用中文对以下 " ++ str_of_nat n
  ++ lit " 封未读邮件进行全面汇总。" ++ [NL; NL]
  ++ lit "要求：" ++ [NL]
  ++ lit "1. 先给出一段总体概述（2-3句话）" ++ [NL]
  ++ lit "2. 然后逐封邮件详细解读，每封包括：" ++ [NL]
  ++ lit "   - 发件人和主题" ++ [NL]
  ++ lit "   - 核心内容摘要" ++ [NL]
  ++ lit "   - 如果有文章链接，提取关键观点" ++ [NL]
  ++ lit "   - 是否需要用户采取行动（用 [需要行动] 标注）" ++ [NL]
  ++ lit "3. 最后列出所有" ++ [QUOTE] ++ lit "需要关注" ++ [QUOTE]
  ++ lit "的事项" ++ [NL; NL].

Fixpoint prompt_articles (j : nat) (articles : list (str * str)) : str :=
  match articles with
  | [] => []
  | a :: rest =>
      lit "[文章" ++ str_of_nat j ++ lit "] " ++ take 80 a.1 ++ [NL]
      ++ take 1000 a.2 ++ [NL] ++ prompt_articles (S j) rest
  end.

Definition prompt_email (i n : nat) (em : read_email) : str :=
  [NL] ++ repeat 61 40 ++ [NL]
  ++ lit "邮件 " ++ str_of_nat i ++ lit "/" ++ str_of_nat n ++ [NL]
  ++ lit "发件人: " ++ e_from (r_data em) ++ [NL]
  ++ lit "主题: " ++ e_subject (r_data em) ++ [NL]
  ++ lit "日期: " ++ e_date (r_data em) ++ [NL]
  ++ lit "正文:" ++ [NL] ++ take 2500 (e_body (r_data em)) ++ [NL]
  ++ match r_articles em with
     | [] => []
     | _ :: _ => [NL] ++ lit "链接文章:" ++ [NL] ++ prompt_articles 1 (r_articles em)
     end.

Fixpoint prompt_emails (i n : nat) (ems : list read_email) : str :=
  match ems with
  | [] => []
  | em :: rest => prompt_email i n em ++ prompt_emails (S i) n rest
  end.

(** The prompt of lines 282-302. *)
Definition build_prompt (all_emails : list read_email) : str :=
  prompt_intro (length all_emails)
  ++ prompt_emails 1 (length all_emails) all_emails.

Definition digest_header (n : nat) : str :=
  lit "📬 未读邮件汇总 (" ++ str_of_nat n ++ lit " 封)" ++ [NL]
  ++ repeat 9472 30 ++ [NL; NL].

Section WithEnv.
Context (E : Env).

(** [get_email_body(thread_id)]. *)
Definition get_email_body (thread_id : str) : M (option email_data) :=
  get_email_body_with E
    [ lit "gmail"; lit "thread"; lit "get"; thread_id;
      lit "--account"; ACCOUNT E; lit "--json"; lit "--results-only" ]
    4000.

(** [extract_article_urls(body_text)]. *)
Definition extract_article_urls (body_text : str) : result (list str) :=
  Urls.extract_article_urls_upto E 2 body_text.

(** [fetch_medium_article(url)]. *)
Definition fetch_medium_article (url : str) : M (option str) :=
  r ← call (RunMediumFetch url) (fun tr => medium_fetch E tr url);
  mret (match r with
        | ProcRaise => None
        | ProcExit returncode output =>
            if (returncode =? 0)%Z && (50 <? length (strip output))%nat
            then Some (take 2000 (strip output)) else None
        end).

(** [fetch_article(url)]. *)
Definition fetch_article (url : str) : M (option str) :=
  content ← (if contains (lit "medium.com") url
             then fetch_medium_article url else mret None);
  if Digest.some_text content then mret content
  else
    r ← call (HttpGet url) (fun tr => http_get E tr url);
    mret (match r with
          | GetRaise => None
          | GetResp status content_type text =>
              if is_error_status status then None
              else if negb (contains (lit "html") content_type)
                      && negb (contains (lit "text") content_type) then None
              else
                let text := strip (collapse_newlines (h2t_handle E text)) in
                if (50 <? length text)%nat then Some (take 2000 text) else None
          end).

(** [mark_as_read(thread_id)]. *)
Definition mark_as_read (thread_id : str) : M unit :=
  _ ← run_gog (gog_modify E)
        [ lit "gmail"; lit "thread"; lit "modify"; thread_id;
          lit "--remove"; lit "UNREAD"; lit "--account"; ACCOUNT E;
          lit "--force" ];
  mret tt.

(** [call_gemini(prompt)]: any missing piece of the reply raises inside
    the [try]. *)
Definition call_gemini (prompt : str) : M (option str) :=
  if negb (truthy (GEMINI_KEY E)) then mret None
  else
    r ← call (PostGemini prompt) (fun tr => gemini E tr prompt);
    mret (match r with
          | HttpRaise => None
          | HttpResp status body =>
              if is_error_status status then None
              else match body with
                   | Some ((text :: _) :: _) => Some text
                   | _ => None
                   end
          end).

(** [call_deepseek(prompt)]. *)
Definition call_deepseek (prompt : str) : M (option str) :=
  if negb (truthy (DEEPSEEK_KEY E)) then mret None
  else
    r ← call (PostDeepseek prompt) (fun tr => deepseek E tr prompt);
    mret (match r with
          | HttpRaise => None
          | HttpResp status body =>
              if is_error_status status then None
              else match body with
                   | Some (content :: _) => Some content
                   | _ => None
                   end
          end).

(** [call_ai(prompt)]. *)
Definition call_ai (prompt : str) : M (option str) :=
  result ← call_gemini prompt;
  if Digest.some_text result then mret result
  else call_deepseek prompt.

(** A call of [requests.post] on the send-message endpoint, outside any
    [try]: the status of the response. *)
Definition post_message (text : str) : M Z :=
  resp ← call (PostTelegram text false) (fun tr => telegram E tr text false);
  match resp with
  | HttpRaise => lift (Raise RequestException)
  | HttpResp status _ => mret status
  end.

(** The loop of [send_tg] that posts the parts; the responses are not
    looked at. *)
Fixpoint post_parts (parts : list str) : M unit :=
  match parts with
  | [] => mret tt
  | part :: rest => _ ← post_message part; post_parts rest
  end.

(** [send_tg(text)]. *)
Definition send_tg (text : str) : M bool :=
  if (4000 <? length text)%nat then
    match split_text text with
    | None => lift (Raise NonTermination)
    | Some parts => _ ← post_parts parts; mret true
    end
  else
    status ← post_message text;
    mret (status =? 200)%Z.

(** The loop that fetches the articles of a message. *)
Fixpoint fetch_articles (urls : list str) : M (list (str * str)) :=
  match urls with
  | [] => mret []
  | url :: rest =>
      content ← fetch_article url;
      articles ← fetch_articles rest;
      mret (match content with
            | Some c => if truthy c then (url, c) :: articles else articles
            | None => articles
            end)
  end.

(** The loop of lines 259-277 that reads the messages. *)
Fixpoint read_all (emails : list email_meta) : M (list read_email) :=
  match emails with
  | [] => mret []
  | em :: rest =>
      let tid := meta_id em in
      data ← get_email_body tid;
      match data with
      | None => read_all rest
      | Some data =>
          urls ← lift (extract_article_urls (e_body data));
          articles ← fetch_articles urls;
          others ← read_all rest;
          mret (Read tid data articles :: others)
      end
  end.

(** The loop that marks the messages read. *)
Fixpoint mark_all (all_emails : list read_email) : M unit :=
  match all_emails with
  | [] => mret tt
  | em :: rest => _ ← mark_as_read (r_id em); mark_all rest
  end.

(** Lines 307-322: the delivery of the digest and what follows it. *)
Definition deliver (summary : option str) (all_emails : list read_email) : M unit :=
  if Digest.some_text summary then
    let full_text := digest_header (length all_emails) ++ default [] summary in
    ok ← send_tg full_text;
    if (ok : bool) then mark_all all_emails else mret tt
  else
    _ ← send_tg (lit "❌ AI 摘要生成失败，请稍后重试"); mret tt.

(** The script, from line 245 on. *)
Definition main : M unit :=
  raw ← run_gog (gog_search E)
          [ lit "gmail"; lit "search"; lit "is:unread";
            lit "--account"; ACCOUNT E; lit "--json"; lit "--results-only" ];
  let emails := match raw with Json emails => emails | NotJson => [] end in
  match emails with
  | [] => _ ← send_tg (lit "📭 没有未读邮件"); mret tt
  | _ :: _ =>
      all_emails ← read_all emails;
      summary ← call_ai (build_prompt all_emails);
      deliver summary all_emails
  end.

End WithEnv.
End DigestAll.

(** ** Definitions used in the statements, and concrete inputs *)

(** Thread identifiers as the mail service issues them: sixteen
    hexadecimal digits; [mk_id n] ends in the three digits of [n]. *)
Definition hex_digit (n : N) : char := if n <? 10 then 48 + n else 87 + n.
Definition mk_id (n : nat) : str :=
  let k := N.of_nat n in
  lit "19a0000000000"
  ++ [hex_digit (k / 256); hex_digit ((k / 16) mod 16); hex_digit (k mod 16)].

(** Six hundred identifiers in the order of their discovery, the search
    listing the newest thread first: [mk_id 599] down to [mk_id 0]. *)
Definition discovered : list str := map mk_id (rev (seq 0 600)).

(** The set after [seen_ids.add] of each of them in that order. *)
Definition accumulated : gset str :=
  foldl (fun seen_ids x => SeenStore.add x seen_ids) ∅ discovered.

(** [a < b] on strings, and a list in strictly increasing order. *)
Definition str_ltb (a b : str) : bool := str_leb a b && negb (str_leb b a).
Definition str_lt (a b : str) : Prop := str_ltb a b = true.

Fixpoint increasing (l : list str) : bool :=
  match l with
  | [] => true
  | a :: l' =>
      match l' with [] => true | b :: _ => str_ltb a b end && increasing l'
  end.

(** The rule for the place of a cut in a text longer than the limit: the
    last line end before position 4000 when it is at position 2000 or
    later, and position 4000 when there is no line end in that window. *)
Definition cut_point (text : str) (cut : nat) : Prop :=
  ((2000 <= cut < 4000)%nat /\ text !! cut = Some NL
   /\ Forall (fun c => c <> NL) (take (3999 - cut) (drop (S cut) text)))
  \/ (cut = 4000%nat /\ Forall (fun c => c <> NL) (take 2000 (drop 2000 text))).

(** The chunks of a text: each is cut by the rule, and the line ends at
    the head of what comes after a cut are dropped. *)
Inductive chunked : str -> list str -> Prop :=
| chunked_empty : chunked [] []
| chunked_whole text :
    text <> [] -> (length text <= 4000)%nat -> chunked text [text]
| chunked_cut text cut parts :
    (4000 < length text)%nat ->
    cut_point text cut ->
    chunked (lstrip [NL] (drop cut text)) parts ->
    chunked text (take cut text :: parts).

(** The chunks with the dropped line ends put back between them. *)
Definition reassembled (text : str) (parts : list str) : Prop :=
  exists seps : list str,
    length seps = length parts
    /\ Forall (Forall (fun c => c = NL)) seps
    /\ text = concat (zip_with app parts seps).

(** A world in which the mail CLI prints nothing, no provider is
    configured, every fetch fails and the chat endpoint accepts every
    message. *)
Definition quiet_world : Env := {|
  ACCOUNT := lit "me@example.com";
  BOT_TOKEN := lit "123456:token";
  CHAT_ID := lit "42";
  GEMINI_KEY := [];
  DEEPSEEK_KEY := [];
  h2t_handle := fun s => s;
  unicode_lower := fun s => s;
  nfkc_host_ok := fun _ => true;
  bracketed_host_ok := fun _ => true;
  gog_thread := fun _ _ => GogExit 1 NotJson;
  gog_search := fun _ _ => GogExit 0 NotJson;
  gog_modify := fun _ _ => GogExit 0 NotJson;
  medium_fetch := fun _ _ => ProcRaise;
  http_get := fun _ _ => GetRaise;
  gemini := fun _ _ => HttpRaise;
  deepseek := fun _ _ => HttpRaise;
  telegram := fun _ _ _ => HttpResp 200 None |}.

(** A text of 9000 characters: sixty lines of 149 letters and a line end. *)
Definition text9000 : str := concat (repeat (repeat 97 149 ++ [NL]) 60).

(** What the all-at-once [send_tg] does with a long text: it posts the
    chunks in order, as far as no post raises. *)
Definition posts_chunks (E : Env) (text : str) (tr : list event) : Prop :=
  exists parts,
    DigestAll.split_text text = Some parts
    /\ chunked text parts
    /\ Forall (fun p => (length p <= 4000)%nat) parts
    /\ reassembled text parts
    /\ exists k : nat,
         (k <= length parts)%nat
         /\ (DigestAll.send_tg E text tr).2
            = tr ++ map (fun p => PostTelegram p false) (take k parts)
         /\ (((DigestAll.send_tg E text tr).1 = Ok true /\ k = length parts)
             \/ exists e, (DigestAll.send_tg E text tr).1 = Raise e).

(** What the per-message [send_tg] does with a long text: it posts the
    first 3997 characters and an ellipsis, once or (after a refusal)
    twice. *)
Definition posts_truncated (E : Env) (text : str) (tr : list event) : Prop :=
  let short := take 3997 text ++ lit "..." in
  exists retry : bool,
    (Digest.send_tg E text tr).2
    = tr ++ PostTelegram short true
         :: (if retry then [PostTelegram short false] else []).

(** The candidates of a body: the matches of the pattern, with the
    trailing punctuation stripped. *)
Definition candidates (body_text : str) : list str :=
  map (rstrip Urls.TRAILING) (Urls.findall body_text).

(** The verdict of the filters on a candidate, with the pair
    (network location, path) of an accepted one. *)
Definition accepted_pair (E : Env) (url : str) : result (option (str * str)) :=
  if (length url <? 20)%nat then Ok None
  else
    rbind (Urls.is_tracking_url E url) (fun tracking =>
    if tracking then Ok None
    else
      rbind (Url.urlparse E url) (fun p =>
      if existsb (endswith (lower E (Url.path p))) Urls.MEDIA_EXTENSIONS
      then Ok None
      else Ok (Some (Url.netloc p, Url.path p)))).

(** The results of a list of computations, or the first exception. *)
Fixpoint collect {A} (l : list (result A)) : result (list A) :=
  match l with
  | [] => Ok []
  | r :: l' => rbind r (fun a => rbind (collect l') (fun l'' => Ok (a :: l'')))
  end.

(** Deduplication by pair: an accepted URL is kept when no URL before
    it was accepted with the same pair. *)
Fixpoint first_seen (seen : list (str * str))
    (l : list (str * option (str * str))) : list str :=
  match l with
  | [] => []
  | (_, None) :: rest => first_seen seen rest
  | (url, Some pr) :: rest =>
      if bool_decide (pr ∈ seen) then first_seen seen rest
      else url :: first_seen (pr :: seen) rest
  end.

(** The extractor in the words of the specification: filter, keep the
    first URL of each pair in the order of appearance, cap. *)
Definition extract_by_pair (E : Env) (max_urls : nat) (body_text : str)
  : result (list str) :=
  rbind (collect (map (accepted_pair E) (candidates body_text))) (fun verdicts =>
  Ok (take max_urls (first_seen [] (zip (candidates body_text) verdicts)))).

Definition http_prefixed (url : str) : Prop :=
  exists rest, url = lit "http://" ++ rest \/ url = lit "https://" ++ rest.

(** A path is empty or begins with a slash. *)
Definition rooted (p : str) : Prop := p = [] \/ exists q, p = 47 :: q.

(** The shape of the pair of a URL that has a network location. *)
Definition shaped (pr : str * str) : Prop :=
  Forall (fun c => Url.netloc_char c = true) pr.1 /\ rooted pr.2.

(** The key that the source computes from a pair. *)
Definition key_of (pr : str * str) : str := pr.1 ++ pr.2.

Definition body_with_tracker : str :=
  lit "See https://example.com/article?x=1 and https://click.mailchimp.com/track?u=2 today.".

Definition body_with_two_queries : str :=
  lit "https://example.com/article?x=1 https://example.com/article?y=2".

(** The parts of a tree in pre-order. *)
Fixpoint preorder_part (p : part) : list part :=
  match p with
  | Part _ _ _ sub =>
      p :: match sub with
           | None => []
           | Some ps =>
               (fix go (ps : list part) : list part :=
                  match ps with
                  | [] => []
                  | q :: qs => preorder_part q ++ go qs
                  end) ps
           end
  end.

Fixpoint preorder (ps : list part) : list part :=
  match ps with
  | [] => []
  | q :: qs => preorder_part q ++ preorder qs
  end.

(** The decoded content of the first part of the list that has the
    given type and data that decode to a text that is not empty; the
    empty text when there is none. *)
Fixpoint first_text (mime : str) (l : list part) : str :=
  match l with
  | [] => []
  | p :: l' =>
      if str_eqb (mimeType p) mime && truthy (body_data p) then
        match Base64.decode_text (body_data p) with
        | Ok d => if truthy d then d else first_text mime l'
        | Raise _ => first_text mime l'
        end
      else first_text mime l'
  end.

(** The first part of the list that has the given type, and data. *)
Fixpoint first_with_data (mime : str) (l : list part) : option part :=
  match l with
  | [] => None
  | p :: l' =>
      if str_eqb (mimeType p) mime && truthy (body_data p) then Some p
      else first_with_data mime l'
  end.

(** The data of a part, if any, are valid base64. *)
Definition decodable (p : part) : Prop :=
  truthy (body_data p) = true -> exists d, Base64.decode_text (body_data p) = Ok d.

(** The value of a variable of the walk that held [cur] before it. *)
Definition pick (mime : str) (cur : str) (l : list part) : str :=
  if truthy cur then cur else first_text mime l.

(** What a walk leaves in the two variables. *)
Definition walk_picks (l : list part) (st st' : str * str) : Prop :=
  st' = (pick Mail.TEXT_PLAIN st.1 l, pick Mail.TEXT_HTML st.2 l).

(** Worlds that differ from a given one in one field. *)
Definition with_gog_thread (v : list event -> list str -> gog_reply (list message)) (E : Env) : Env :=
  {| ACCOUNT := ACCOUNT E;
     BOT_TOKEN := BOT_TOKEN E;
     CHAT_ID := CHAT_ID E;
     GEMINI_KEY := GEMINI_KEY E;
     DEEPSEEK_KEY := DEEPSEEK_KEY E;
     h2t_handle := h2t_handle E;
     unicode_lower := unicode_lower E;
     nfkc_host_ok := nfkc_host_ok E;
     bracketed_host_ok := bracketed_host_ok E;
     gog_thread := v;
     gog_search := gog_search E;
     gog_modify := gog_modify E;
     medium_fetch := medium_fetch E;
     http_get := http_get E;
     gemini := gemini E;
     deepseek := deepseek E;
     telegram := telegram E |}.
Definition with_gog_search (v : list event -> list str -> gog_reply (list email_meta)) (E : Env) : Env :=
  {| ACCOUNT := ACCOUNT E;
     BOT_TOKEN := BOT_TOKEN E;
     CHAT_ID := CHAT_ID E;
     GEMINI_KEY := GEMINI_KEY E;
     DEEPSEEK_KEY := DEEPSEEK_KEY E;
     h2t_handle := h2t_handle E;
     unicode_lower := unicode_lower E;
     nfkc_host_ok := nfkc_host_ok E;
     bracketed_host_ok := bracketed_host_ok E;
     gog_thread := gog_thread E;
     gog_search := v;
     gog_modify := gog_modify E;
     medium_fetch := medium_fetch E;
     http_get := http_get E;
     gemini := gemini E;
     deepseek := deepseek E;
     telegram := telegram E |}.
Definition with_telegram (v : list event -> str -> bool -> http_reply unit) (E : Env) : Env :=
  {| ACCOUNT := ACCOUNT E;
     BOT_TOKEN := BOT_TOKEN E;
     CHAT_ID := CHAT_ID E;
     GEMINI_KEY := GEMINI_KEY E;
     DEEPSEEK_KEY := DEEPSEEK_KEY E;
     h2t_handle := h2t_handle E;
     unicode_lower := unicode_lower E;
     nfkc_host_ok := nfkc_host_ok E;
     bracketed_host_ok := bracketed_host_ok E;
     gog_thread := gog_thread E;
     gog_search := gog_search E;
     gog_modify := gog_modify E;
     medium_fetch := medium_fetch E;
     http_get := http_get E;
     gemini := gemini E;
     deepseek := deepseek E;
     telegram := v |}.
Definition with_gemini (v : list event -> str -> http_reply (list (list str))) (E : Env) : Env :=
  {| ACCOUNT := ACCOUNT E;
     BOT_TOKEN := BOT_TOKEN E;
     CHAT_ID := CHAT_ID E;
     GEMINI_KEY := GEMINI_KEY E;
     DEEPSEEK_KEY := DEEPSEEK_KEY E;
     h2t_handle := h2t_handle E;
     unicode_lower := unicode_lower E;
     nfkc_host_ok := nfkc_host_ok E;
     bracketed_host_ok := bracketed_host_ok E;
     gog_thread := gog_thread E;
     gog_search := gog_search E;
     gog_modify := gog_modify E;
     medium_fetch := medium_fetch E;
     http_get := http_get E;
     gemini := v;
     deepseek := deepseek E;
     telegram := telegram E |}.
Definition with_deepseek (v : list event -> str -> http_reply (list str)) (E : Env) : Env :=
  {| ACCOUNT := ACCOUNT E;
     BOT_TOKEN := BOT_TOKEN E;
     CHAT_ID := CHAT_ID E;
     GEMINI_KEY := GEMINI_KEY E;
     DEEPSEEK_KEY := DEEPSEEK_KEY E;
     h2t_handle := h2t_handle E;
     unicode_lower := unicode_lower E;
     nfkc_host_ok := nfkc_host_ok E;
     bracketed_host_ok := bracketed_host_ok E;
     gog_thread := gog_thread E;
     gog_search := gog_search E;
     gog_modify := gog_modify E;
     medium_fetch := medium_fetch E;
     http_get := http_get E;
     gemini := gemini E;
     deepseek := v;
     telegram := telegram E |}.
Definition with_GEMINI_KEY (v : str) (E : Env) : Env :=
  {| ACCOUNT := ACCOUNT E;
     BOT_TOKEN := BOT_TOKEN E;
     CHAT_ID := CHAT_ID E;
     GEMINI_KEY := v;
     DEEPSEEK_KEY := DEEPSEEK_KEY E;
     h2t_handle := h2t_handle E;
     unicode_lower := unicode_lower E;
     nfkc_host_ok := nfkc_host_ok E;
     bracketed_host_ok := bracketed_host_ok E;
     gog_thread := gog_thread E;
     gog_search := gog_search E;
     gog_modify := gog_modify E;
     medium_fetch := medium_fetch E;
     http_get := http_get E;
     gemini := gemini E;
     deepseek := deepseek E;
     telegram := telegram E |}.
Definition with_DEEPSEEK_KEY (v : str) (E : Env) : Env :=
  {| ACCOUNT := ACCOUNT E;
     BOT_TOKEN := BOT_TOKEN E;
     CHAT_ID := CHAT_ID E;
     GEMINI_KEY := GEMINI_KEY E;
     DEEPSEEK_KEY := v;
     h2t_handle := h2t_handle E;
     unicode_lower := unicode_lower E;
     nfkc_host_ok := nfkc_host_ok E;
     bracketed_host_ok := bracketed_host_ok E;
     gog_thread := gog_thread E;
     gog_search := gog_search E;
     gog_modify := gog_modify E;
     medium_fetch := medium_fetch E;
     http_get := http_get E;
     gemini := gemini E;
     deepseek := deepseek E;
     telegram := telegram E |}.
Definition with_BOT_TOKEN (v : str) (E : Env) : Env :=
  {| ACCOUNT := ACCOUNT E;
     BOT_TOKEN := v;
     CHAT_ID := CHAT_ID E;
     GEMINI_KEY := GEMINI_KEY E;
     DEEPSEEK_KEY := DEEPSEEK_KEY E;
     h2t_handle := h2t_handle E;
     unicode_lower := unicode_lower E;
     nfkc_host_ok := nfkc_host_ok E;
     bracketed_host_ok := bracketed_host_ok E;
     gog_thread := gog_thread E;
     gog_search := gog_search E;
     gog_modify := gog_modify E;
     medium_fetch := medium_fetch E;
     http_get := http_get E;
     gemini := gemini E;
     deepseek := deepseek E;
     telegram := telegram E |}.

(** A message with an HTML and a plain alternative nested in a mixed
    container, and a reply to it. *)
Definition plain_hi : part := Part (lit "text/plain") [] (lit "aGk=") None.
Definition html_hi : part := Part (lit "text/html") [] (lit "PGI-aGk8L2I-") None.
Definition nested_payload : part :=
  Part (lit "multipart/mixed")
       [(lit "From", lit "alice@example.com"); (lit "Subject", lit "Hello");
        (lit "Date", lit "Mon, 1 Jan 2024 00:00:00 +0000")]
       []
       (Some [ Part (lit "multipart/alternative") [] [] (Some [html_hi; plain_hi]);
               Part (lit "text/plain") [] (lit "Ynll") None ]).
Definition first_message : message := Message nested_payload (lit "hi").
Definition reply_message : message :=
  Message (Part (lit "text/plain")
                [(lit "From", lit "bob@example.com"); (lit "Subject", lit "Re: Hello")]
                (lit "Ynll") None)
          (lit "bye").

(** A plain part of 5001 characters. *)
Definition long_plain : part :=
  Part (lit "text/plain") [] (concat (repeat (lit "YWFh") 1667)) None.
Definition long_payload : part :=
  Part (lit "multipart/alternative") [] [] (Some [long_plain]).

(** A plain part whose data decode to the empty text, before an HTML
    part. *)
Definition blank_plain : part := Part (lit "text/plain") [] (lit "====") None.
Definition blank_payload : part :=
  Part (lit "multipart/alternative") [] [] (Some [blank_plain; html_hi]).

(** The body of a message that was read. *)
Definition body_of (r : result Mail.email_data) : result str :=
  rbind r (fun data => Ok (Mail.e_body data)).

(** A world whose mail CLI prints a thread of two messages. *)
Definition thread_world : Env :=
  with_gog_thread
    (fun _ _ => GogExit 0 (Json [first_message; reply_message])) quiet_world.

(** The computation only appends calls that satisfy [P] to the trace. *)
Definition emits {A} (P : event -> Prop) (m : M A) : Prop :=
  forall tr, exists new, (m tr).2 = tr ++ new /\ Forall P new.

(** The call that marks a thread read. *)
Definition mark_event (E : Env) (thread_id : str) : event :=
  RunGog [ lit "gmail"; lit "thread"; lit "modify"; thread_id;
           lit "--remove"; lit "UNREAD"; lit "--account"; ACCOUNT E;
           lit "--force" ].

(** The call that reads a thread in the per-message script. *)
Definition read_event (E : Env) (thread_id : str) : event :=
  RunGog [ lit "gmail"; lit "thread"; thread_id;
           lit "--account"; ACCOUNT E; lit "--json"; lit "--results-only" ].

(** A call that is neither a notification nor a change of the mail
    account: a read of a thread, a fetch, or a request to a provider. *)
Definition reading (ev : event) : Prop :=
  match ev with
  | RunGog args => length args = 7%nat
  | PostTelegram _ _ => False
  | _ => True
  end.

Definition is_post (ev : event) : Prop :=
  match ev with PostTelegram _ _ => True | _ => False end.

Definition is_provider_call (ev : event) : Prop :=
  match ev with PostGemini _ | PostDeepseek _ => True | _ => False end.

Definition is_fetch (ev : event) : Prop :=
  match ev with RunMediumFetch _ | HttpGet _ => True | _ => False end.

(** The text of the notification of a message, given the summary. *)
Definition notification (data : Mail.email_data) (summary : option str) : str :=
  match summary with
  | Some s => if truthy s then Digest.summary_text data s
              else Digest.raw_snippet_text data
  | None => Digest.raw_snippet_text data
  end.

(** The end of [process_email], from the call of [send_tg] on. *)
Definition deliver_and_mark (E : Env) (msg_id : str) (seen_ids : gset str)
    (tg_text : str) : M (bool * gset str) :=
  ok ← Digest.send_tg E tg_text;
  _ ← (if (ok : bool) then Digest.mark_as_read E msg_id else mret true);
  mret (true, SeenStore.add msg_id seen_ids).

(** The world of the two-message thread, with a chat endpoint that
    refuses every message. *)
Definition failing_chat_world : Env :=
  with_telegram (fun _ _ _ => HttpResp 500 None) thread_world.

(** What the reader returns for the first message of the thread. *)
Definition first_data : Mail.email_data :=
  Mail.Email (lit "alice@example.com") (lit "Hello")
             (lit "Mon, 1 Jan 2024 00:00:00 +0000") (lit "hi") (lit "hi").

(** The calls of [process_email] on the first message in that world. *)
Definition failed_delivery_trace : list event :=
  [ read_event failing_chat_world (mk_id 1);
    PostTelegram (Digest.raw_snippet_text first_data) true;
    PostTelegram (Digest.raw_snippet_text first_data) false ].

(** The text that the per-message [send_tg] posts. *)
Definition clipped (text : str) : str :=
  if (4000 <? length text)%nat then take 3997 text ++ lit "..." else text.

(** The primary provider gave an error or an empty payload. *)
Definition gemini_gives_nothing (reply : http_reply (list (list str))) : Prop :=
  match reply with
  | HttpRaise => True
  | HttpResp status body =>
      is_error_status status = true
      \/ body = None \/ body = Some []
      \/ (exists rest, body = Some ([] :: rest))
      \/ (exists texts rest, body = Some (([] :: texts) :: rest))
  end.

(** The world of the two-message thread with both providers configured:
    the primary one answers with a server error, the fallback with an
    empty list of choices. *)
Definition fallback_world : Env :=
  with_GEMINI_KEY (lit "g-key")
    (with_gemini (fun _ _ => HttpResp 500 None)
       (with_DEEPSEEK_KEY (lit "d-key")
          (with_deepseek (fun _ _ => HttpResp 200 (Some [])) thread_world))).

(** A world with one unread thread, a primary provider that answers
    with a summary of 9000 characters, and a chat endpoint that refuses
    every message with status 400. *)
Definition rejecting_world : Env :=
  with_gog_search (fun _ _ => GogExit 0 (Json [Meta (mk_id 1)]))
    (with_GEMINI_KEY (lit "g-key")
       (with_gemini (fun _ _ => HttpResp 200 (Some [[text9000]]))
          (with_telegram (fun _ _ _ => HttpResp 400 None) thread_world))).

(** The digest of that run, and the entry of [all_emails]. *)
Definition rejected_digest : str := DigestAll.digest_header 1 ++ text9000.
Definition read_first : DigestAll.read_email :=
  DigestAll.Read (mk_id 1)
    (Mail.Email (lit "alice@example.com") (lit "Hello")
                (lit "Mon, 1 Jan 2024 00:00:00 +0000") (lit "hi") (lit "hi"))
    [].

(** ** Definitions used in the further properties *)

(** An identifier as the mail service issues it: not empty, and free of
    white space. *)
Definition clean_id (x : str) : Prop :=
  x <> [] /\ Forall (fun c => is_space c = false) x.

(** A text with no white space at either end. *)
Definition trimmed (x : str) : Prop :=
  (forall c, head x = Some c -> is_space c = false)
  /\ (forall c, last x = Some c -> is_space c = false).

(** A state file written by hand: padded identifiers, a blank line, and
    the line ends of another system. *)
Definition hand_written_state : str :=
  lit "  19a0000000000001 " ++ [13; 10; 10] ++ lit "19a0000000000002" ++ [13].

(** The search of the per-message script, and that of the all-at-once
    script. *)
Definition search_event (E : Env) : event :=
  RunGog [ lit "gmail"; lit "search"; Digest.SEARCH_QUERY;
           lit "--account"; ACCOUNT E; lit "--json"; lit "--results-only" ].

Definition search_all_event (E : Env) : event :=
  RunGog [ lit "gmail"; lit "search"; lit "is:unread";
           lit "--account"; ACCOUNT E; lit "--json"; lit "--results-only" ].

(** The search found nothing: no JSON document, or an empty list. *)
Definition no_mail (out : stdout (list email_meta)) : Prop :=
  out = NotJson \/ out = Json [].

(** The entries that the search printed, and their identifiers. *)
Definition listed (out : stdout (list email_meta)) : list email_meta :=
  match out with Json emails => emails | NotJson => [] end.

Definition ids_of (emails : list email_meta) : gset str :=
  list_to_set (map meta_id emails).

(** [u] occurs in [s]. *)
Definition occurs_in (u s : str) : Prop := exists a b, s = a ++ u ++ b.

(** The path ends in one of the media extensions. *)
Definition media_path (E : Env) (p : str) : bool :=
  existsb (endswith (lower E p)) Urls.MEDIA_EXTENSIONS.

(** What the extractor promises of a URL that it returns for a body. *)
Definition article_url (E : Env) (body_text url : str) : Prop :=
  (20 <= length url)%nat
  /\ http_prefixed url
  /\ occurs_in url body_text
  /\ Forall (fun c => Urls.url_char c = true) url
  /\ (forall c, last url = Some c -> mem_char Urls.TRAILING c = false)
  /\ Urls.is_tracking_url E url = Ok false
  /\ exists p, Url.urlparse E url = Ok p /\ media_path E (Url.path p) = false.

Definition body_with_media : str :=
  lit "Read https://example.com/article-one, https://example.com/logo.png and (https://example.org/second-article).".

(** The calls that [fetch_article] may make for a URL, given the article
    that it returns: the Medium fetcher first when the URL names Medium,
    and the HTTP request unless that fetcher gave the article. *)
Definition fetch_calls (url : str) (content : option str) (made : list event) : Prop :=
  if contains (lit "medium.com") url
  then (made = [RunMediumFetch url] /\ content <> None)
       \/ made = [RunMediumFetch url; HttpGet url]
  else made = [HttpGet url].

(** The article that [fetch_article] makes of the answer to the HTTP
    request: [keep] is the test on the length of the text, [cap] the
    cut. *)
Definition page_article (E : Env) (keep : nat -> bool) (cap : nat) (r : get_reply)
  : option str :=
  match r with
  | GetRaise => None
  | GetResp status content_type text =>
      if is_error_status status then None
      else if negb (contains (lit "html") content_type)
              && negb (contains (lit "text") content_type) then None
      else
        let text := strip (collapse_newlines (h2t_handle E text)) in
        if keep (length text) then Some (take cap text) else None
  end.

(** A world whose primary provider answers with a summary. *)
Definition answering_world : Env :=
  with_GEMINI_KEY (lit "g-key")
    (with_gemini (fun _ _ => HttpResp 200 (Some [[lit "A summary."]]))
       (with_DEEPSEEK_KEY (lit "d-key") thread_world)).

(** The endpoint answered the last call of the trace, a post of [text],
    with status 200. *)
Definition accepted_last (E : Env) (text : str) (trace : list event) : Prop :=
  exists before html body,
    trace = before ++ [PostTelegram text html]
    /\ telegram E before text html = HttpResp 200 body.

(** The calls that mark the first [k] entries of [all_emails] read. *)
Definition marks (E : Env) (k : nat) (all_emails : list DigestAll.read_email)
  : list event :=
  map (fun em => mark_event E (DigestAll.r_id em)) (take k all_emails).

(** The digest of a summary, as the all-at-once script builds it. *)
Definition full_text (all_emails : list DigestAll.read_email) (summary : str) : str :=
  DigestAll.digest_header (length all_emails) ++ summary.

(** A world whose search lists the thread of [thread_world] twice, and
    whose chat endpoint refuses every message. *)
Definition listing_world : Env :=
  with_gog_search (fun _ _ => GogExit 0 (Json [Meta (mk_id 1); Meta (mk_id 1)]))
    failing_chat_world.

(** A part whose data are not valid base64. *)
Definition undecodable (p : part) : Prop :=
  truthy (body_data p) = true
  /\ exists e, Base64.decode_text (body_data p) = Raise e.

(** A message whose plain text is followed by an attachment with data
    that lack their padding. *)
Definition broken_attachment : part := Part (lit "image/png") [] (lit "aGk") None.
Definition broken_payload : part :=
  Part (lit "multipart/mixed") [] [] (Some [plain_hi; broken_attachment]).
Definition broken_world : Env :=
  with_gog_thread (fun _ _ => GogExit 0 (Json [Message broken_payload (lit "hi")]))
    quiet_world.

(** The value of the last header whose name, in lower case, is [name];
    the empty text when there is none. *)
Definition last_header (E : Env) (name : str) (hs : list (str * str)) : str :=
  default [] (last (map snd (filter (fun h => lower E h.1 = name) hs))).

(** A message that repeats its subject header and has no date. *)
Definition twice_subject : message :=
  Message (Part (lit "text/plain")
             [ (lit "SUBJECT", lit "first"); (lit "From", lit "a@example.com");
               (lit "X-Subject", lit "other"); (lit "subject", lit "second") ]
             (lit "aGk=") None)
          (lit "hi").

(** A world with three unread threads, of which the mail CLI prints only
    the second. *)
Definition second_only_world : Env :=
  with_gog_search
    (fun _ _ => GogExit 0 (Json [Meta (mk_id 1); Meta (mk_id 2); Meta (mk_id 3)]))
    (with_gog_thread
       (fun _ args =>
          if bool_decide (mk_id 2 ∈ args)
          then GogExit 0 (Json [first_message]) else GogExit 1 NotJson)
       quiet_world).

(** The calls of one turn of the per-message pipeline, stage by stage:
    the read of the thread, the fetches, the requests to the providers,
    the posts, and the call that marks the thread read. *)
Record stages := Stages {
  s_read : list event; s_fetched : list event; s_asked : list event;
  s_posts : list event; s_marked : list event }.

Definition stage_calls (s : stages) : list event :=
  s_read s ++ s_fetched s ++ s_asked s ++ s_posts s ++ s_marked s.

Definition stages_of (E : Env) (msg_id : str) (s : stages) : Prop :=
  (s_read s = [] \/ s_read s = [read_event E msg_id])
  /\ Forall is_fetch (s_fetched s) /\ (length (s_fetched s) <= 6)%nat
  /\ Forall is_provider_call (s_asked s) /\ (length (s_asked s) <= 2)%nat
  /\ Forall is_post (s_posts s) /\ (length (s_posts s) <= 2)%nat
  /\ (s_marked s = [] \/ s_marked s = [mark_event E msg_id]).

(** The characters of a URL that [urlsplit] keeps: all but tabs and line
    ends. *)
Definition kept_chars (rest : str) : str :=
  filter (fun c => negb ((c =? 9) || (c =? 13) || (c =? 10)) = true) rest.

(** The set after [seen_ids.add] of each identifier of a list, in the
    order of the list. *)
Definition added_in_order (l : list str) : gset str :=
  foldl (fun seen_ids x => SeenStore.add x seen_ids) ∅ l.

(** The threads that the loop keeps, given what the reader returned for
    each listed thread: those for which it returned data, in the order
    of the list, each with its identifier and its data. *)
Fixpoint kept_reads (emails : list email_meta) (reads : list (option Mail.email_data))
  : list (str * Mail.email_data) :=
  match emails, reads with
  | meta :: emails', Some data :: reads' =>
      (meta_id meta, data) :: kept_reads emails' reads'
  | _ :: emails', None :: reads' => kept_reads emails' reads'
  | _, _ => []
  end.

(** [r] is what the reader of the all-at-once script returned for the
    thread at some point of the run that began with the calls [tr]. *)
Definition read_during (E : Env) (tr : list event) (meta : email_meta)
    (r : option Mail.email_data) : Prop :=
  exists t0 t1, tr `prefix_of` t0
                /\ DigestAll.get_email_body E (meta_id meta) t0 = (Ok r, t1).

Definition with_http_get (v : list event -> str -> get_reply) (E : Env) : Env :=
  {| ACCOUNT := ACCOUNT E;
     BOT_TOKEN := BOT_TOKEN E;
     CHAT_ID := CHAT_ID E;
     GEMINI_KEY := GEMINI_KEY E;
     DEEPSEEK_KEY := DEEPSEEK_KEY E;
     h2t_handle := h2t_handle E;
     unicode_lower := unicode_lower E;
     nfkc_host_ok := nfkc_host_ok E;
     bracketed_host_ok := bracketed_host_ok E;
     gog_thread := gog_thread E;
     gog_search := gog_search E;
     gog_modify := gog_modify E;
     medium_fetch := medium_fetch E;
     http_get := v;
     gemini := gemini E;
     deepseek := deepseek E;
     telegram := telegram E |}.

(** A world in which every page is an HTML document of 2000 letters. *)
Definition pages_world : Env :=
  with_http_get (fun _ _ => GetResp 200 (lit "text/html; charset=utf-8") (repeat 97 2000))
    quiet_world.

(** Three links of 86 characters, and a message whose body holds them
    before 3000 letters. *)
Definition long_link (name : str) : str :=
  lit "https://example.com/a/" ++ repeat 98 60 ++ name.

Definition three_links : list str :=
  [long_link (lit "-one"); long_link (lit "-two"); long_link (lit "-six")].

Definition linked_data : Mail.email_data :=
  Mail.Email (lit "alice@example.com") (lit "Hello")
    (lit "Mon, 1 Jan 2024 00:00:00 +0000")
    (join [32] three_links ++ [NL] ++ repeat 97 3000)
    (lit "hi").

Definition linked_articles : list (str * str) :=
  map (fun url => (url, repeat 97 2000)) three_links.

(* ===================================================================== *)
(** * Part II. Properties *)
(* ===================================================================== *)

(** ** The Python runtime *)

(** The decoder on a few inputs, as CPython answers them. *)
Example b64_examples : Base64.decode_text (lit "aGk=") = Ok (lit "hi")
  /\ Base64.decode_text (lit "====") = Ok []
  /\ Base64.decode_text (lit "aGk") = Raise BinasciiError
  /\ Base64.decode_text (lit "a=G=k=") = Ok (lit "hi")
  /\ Base64.decode_text (lit "aG=k") = Raise BinasciiError
  /\ Base64.decode_text (lit "8J-Tpw") = Raise BinasciiError
  /\ Base64.decode_text (lit "8J-Tpw==") = Ok (lit "📧").
Proof. repeat split; reflexivity. Qed.

Lemma drop_while_app_stop (p : char -> bool) (a : str) (c : char) (b : str) :
  Forall (fun x => p x = true) a -> p c = false ->
  drop_while p (a ++ c :: b) = c :: b.
Proof.
  induction 1 as [|x a Hx _ IH]; intros Hc; simpl.
  - by rewrite Hc.
  - rewrite Hx. by apply IH.
Qed.

Lemma drop_while_all (p : char -> bool) (a : str) :
  Forall (fun x => p x = true) a -> drop_while p a = [].
Proof. induction 1 as [|x a Hx _ IH]; simpl; [done|]. by rewrite Hx. Qed.

Lemma drop_while_head (p : char -> bool) (c : char) (s : str) :
  p c = false -> drop_while p (c :: s) = c :: s.
Proof. intros Hc. simpl. by rewrite Hc. Qed.

Lemma drop_while_suffix (p : char -> bool) (s : str) :
  exists a, s = a ++ drop_while p s /\ Forall (fun x => p x = true) a.
Proof.
  induction s as [|c s [a [Hs Ha]]]; simpl.
  - by exists [].
  - destruct (p c) eqn:Hc.
    + exists (c :: a). split; [simpl; by rewrite <- Hs | by constructor].
    + by exists [].
Qed.

Lemma drop_while_keep (p : char -> bool) (s : str) :
  Forall (fun x => p x = false) s -> drop_while p s = s.
Proof. destruct 1 as [|c s Hc _]; simpl; [done|]. by rewrite Hc. Qed.

(** [strip] leaves a text without white space as it is, and removes the
    line end after it. *)
Lemma strip_line (x : str) :
  Forall (fun c => is_space c = false) x -> strip (x ++ [NL]) = x.
Proof.
  intros Hx. unfold strip.
  destruct (decide (x = [])) as [->|Hne]; [reflexivity|].
  assert (Hhead : drop_while is_space (x ++ [NL]) = x ++ [NL]).
  { destruct Hx as [|c x Hc _]; [done|]. simpl. by rewrite Hc. }
  rewrite Hhead, rev_app_distr. simpl.
  rewrite drop_while_keep; [apply rev_involutive|].
  rewrite Forall_forall in *. intros c Hc. apply Hx.
  apply list_elem_of_In. apply in_rev. by apply list_elem_of_In.
Qed.

Lemma last_n_short {A} (n : nat) (l : list A) :
  (length l <= n)%nat -> last_n n l = l.
Proof.
  intros H. unfold last_n. replace (length l - n)%nat with 0%nat by lia.
  apply drop_0.
Qed.

Lemma sorted_perm (l : list str) : sorted l ≡ₚ l.
Proof. apply merge_sort_Permutation. Qed.

(** The order of [sorted] is a total order, so the sorted list of a set
    does not depend on the order in which its elements are listed. *)
Lemma str_leb_total (a b : str) : str_leb a b = true \/ str_leb b a = true.
Proof.
  revert b. induction a as [|x a IH]; intros [|y b]; simpl; auto.
  destruct (N.lt_trichotomy x y) as [H|[->|H]].
  - left. apply N.ltb_lt in H. by rewrite H.
  - rewrite N.ltb_irrefl, N.eqb_refl. simpl. apply IH.
  - right. apply N.ltb_lt in H. by rewrite H.
Qed.

Lemma str_leb_trans (a b c : str) :
  str_leb a b = true -> str_leb b c = true -> str_leb a c = true.
Proof.
  revert b c. induction a as [|x a IH]; intros [|y b] [|z c]; simpl; try done.
  rewrite !orb_true_iff, !andb_true_iff, !N.ltb_lt, !N.eqb_eq.
  intros [Hxy|[-> Hab]] [Hyz|[-> Hbc]]; eauto.
  left. lia.
Qed.

Lemma str_leb_antisym (a b : str) :
  str_leb a b = true -> str_leb b a = true -> a = b.
Proof.
  revert b. induction a as [|x a IH]; intros [|y b]; simpl; try done.
  rewrite !orb_true_iff, !andb_true_iff, !N.ltb_lt, !N.eqb_eq.
  intros [Hxy|[-> Hab]] [Hyx|[Heq Hba]]; try lia.
  f_equal. by apply IH.
Qed.

#[export] Instance str_le_total : Total str_le.
Proof. intros a b. apply str_leb_total. Qed.
#[export] Instance str_le_trans : Transitive str_le.
Proof. intros a b c. apply str_leb_trans. Qed.
#[export] Instance str_le_antisym : AntiSymm (=) str_le.
Proof. intros a b. apply str_leb_antisym. Qed.

Lemma sorted_of_perm (l1 l2 : list str) : l1 ≡ₚ l2 -> sorted l1 = sorted l2.
Proof.
  intros H. apply (Sorted_unique str_le); try apply Sorted_merge_sort; try apply _.
  by rewrite !sorted_perm.
Qed.

(** ** The seen-id store *)

Lemma foldl_add (l : list str) (X : gset str) :
  foldl (fun seen_ids x => SeenStore.add x seen_ids) X l = list_to_set l ∪ X.
Proof.
  revert X. induction l as [|x l IH]; intros X; simpl.
  - by rewrite (left_id_L ∅ (∪)).
  - rewrite IH. unfold SeenStore.add.
    by rewrite (assoc_L (∪)), (comm_L (∪) (list_to_set l)).
Qed.

(** [sorted(ids)] for the set built by adding the elements of a list. *)
Lemma sorted_of_added (l : list str) :
  NoDup l ->
  sorted (elements (foldl (fun seen_ids x => SeenStore.add x seen_ids) ∅ l))
  = sorted l.
Proof.
  intros Hl. apply sorted_of_perm. rewrite foldl_add.
  rewrite (right_id_L ∅ (∪)). by apply elements_list_to_set.
Qed.

Lemma universal_newlines_id (s : str) :
  Forall (fun c => c <> 13) s -> SeenStore.universal_newlines s = s.
Proof.
  induction 1 as [|c s Hc _ IH]; [done|].
  simpl. destruct c as [|p]; [by rewrite IH|].
  do 4 (destruct p as [p|p|]; try by rewrite IH).
Qed.

Lemma lines_from_line (cur x rest : str) :
  Forall (fun c => c <> NL) x ->
  SeenStore.lines_from cur (x ++ NL :: rest)
  = (rev cur ++ x ++ [NL]) :: SeenStore.lines_from [] rest.
Proof.
  intros Hx. revert cur. induction Hx as [|c x Hc _ IH]; intros cur.
  - reflexivity.
  - simpl. destruct (N.eqb_spec c NL) as [->|_]; [done|].
    rewrite IH. simpl. by rewrite <- app_assoc.
Qed.

Lemma lines_from_lines (l : list str) :
  Forall (fun x => Forall (fun c => c <> NL) x) l ->
  SeenStore.lines_from [] (concat (map (fun x => x ++ [NL]) l))
  = map (fun x => x ++ [NL]) l.
Proof.
  induction 1 as [|x l Hx _ IH]; [done|].
  simpl. rewrite <- app_assoc. simpl.
  rewrite lines_from_line by done. by rewrite IH.
Qed.

Lemma join_lines (l : list str) :
  l <> [] -> join [NL] l ++ [NL] = concat (map (fun x => x ++ [NL]) l).
Proof.
  induction l as [|x l IH]; [done|]. intros _.
  destruct l as [|y l].
  - simpl. by rewrite app_nil_r.
  - change (join [NL] (x :: y :: l)) with (x ++ [NL] ++ join [NL] (y :: l)).
    rewrite <- !app_assoc, IH by done.
    change (concat (map (fun x => x ++ [NL]) (x :: y :: l)))
      with ((x ++ [NL]) ++ concat (map (fun x => x ++ [NL]) (y :: l))).
    by rewrite <- app_assoc.
Qed.

(** The lines of the file that [save_seen_ids] writes. *)
Lemma file_lines_of_join (l : list str) :
  l <> [] ->
  Forall (Forall (fun c => c <> NL /\ c <> 13)) l ->
  SeenStore.file_lines (join [NL] l ++ [NL]) = map (fun x => x ++ [NL]) l.
Proof.
  intros Hne Hl. unfold SeenStore.file_lines. rewrite join_lines by done.
  rewrite universal_newlines_id.
  2:{ apply Forall_concat, Forall_fmap. eapply Forall_impl; [exact Hl|].
      intros x Hx. simpl. apply Forall_app. split; [|by repeat constructor].
      eapply Forall_impl; [exact Hx|]. by intros c [_ Hc]. }
  apply lines_from_lines.
  eapply Forall_impl; [exact Hl|]. intros x Hx.
  eapply Forall_impl; [exact Hx|]. by intros c [Hc _].
Qed.

(** What [load_seen_ids] reads back from lines without white space. *)
Lemma load_of_lines (l : list str) :
  Forall (fun x => x <> [] /\ Forall (fun c => is_space c = false) x) l ->
  SeenStore.load_seen_ids (Some (join [NL] l ++ [NL])) = list_to_set l.
Proof.
  intros Hl. unfold SeenStore.load_seen_ids.
  destruct (decide (l = [])) as [->|Hne]; [reflexivity|].
  rewrite file_lines_of_join; [|done|].
  2:{ eapply Forall_impl; [exact Hl|]. intros x [_ Hx].
      eapply Forall_impl; [exact Hx|]. intros c Hc.
      split; intros ->; discriminate Hc. }
  f_equal. clear Hne. induction Hl as [|x l [Hx1 Hx2] _ IH]; [done|].
  simpl. rewrite strip_line by done.
  destruct x as [|c x]; [done|]. simpl.
  rewrite filter_cons_True by done. by f_equal.
Qed.

(** C9. For a set of at most 500 identifiers, each non-empty and free of
    white space, [load_seen_ids] after [save_seen_ids] on the same state
    file returns the set itself. *)
Theorem load_after_save_identity (ids : gset str) :
  (size ids <= 500)%nat ->
  (forall x, x ∈ ids -> x <> [] /\ Forall (fun c => is_space c = false) x) ->
  SeenStore.load_seen_ids (Some (SeenStore.save_seen_ids ids)) = ids.
Proof.
  intros Hsize Hclean. unfold SeenStore.save_seen_ids.
  rewrite last_n_short.
  2:{ rewrite (Permutation_length (sorted_perm _)). exact Hsize. }
  rewrite load_of_lines.
  - rewrite (list_to_set_perm_L _ _ (sorted_perm _)).
    apply list_to_set_elements_L.
  - apply Forall_forall. intros x Hx. apply Hclean.
    rewrite (sorted_perm _) in Hx. by apply elem_of_elements in Hx.
Qed.

Lemma load_after_save_identity_witness :
  SeenStore.load_seen_ids
    (Some (SeenStore.save_seen_ids {[ mk_id 7; mk_id 3 ]}))
  = {[ mk_id 7; mk_id 3 ]}.
Proof.
  apply load_after_save_identity.
  - vm_compute. lia.
  - intros x Hx.
    apply elem_of_union in Hx as [Hx|Hx]; apply elem_of_singleton in Hx;
      subst x; refine (bool_decide_unpack _ _); vm_compute; exact I.
Defined.

(** Strictly increasing lists have no duplicates and are sorted. *)
#[export] Instance str_lt_trans : Transitive str_lt.
Proof.
  intros a b c. unfold str_lt, str_ltb.
  rewrite !andb_true_iff, !negb_true_iff.
  intros [Hab Hba] [Hbc Hcb]. split; [by eapply str_leb_trans|].
  destruct (str_leb c a) eqn:Hca; [|done].
  by rewrite (str_leb_trans c a b Hca Hab) in Hcb.
Qed.

Lemma increasing_strongly (l : list str) :
  increasing l = true -> StronglySorted str_lt l.
Proof.
  intros H. apply Sorted_StronglySorted; [apply _|].
  induction l as [|a l IH]; [constructor|].
  simpl in H. apply andb_true_iff in H as [Hhd Htl].
  constructor; [by apply IH|]. destruct l; by constructor.
Qed.

Lemma increasing_NoDup (l : list str) : increasing l = true -> NoDup l.
Proof.
  intros H. apply increasing_strongly in H.
  induction H as [|a l _ IH Hall]; constructor; [|done].
  intros Hin. rewrite Forall_forall in Hall. specialize (Hall a Hin).
  unfold str_lt, str_ltb in Hall. by destruct (str_leb a a).
Qed.

Lemma increasing_is_sorted (l : list str) :
  increasing l = true -> sorted l = l.
Proof.
  intros H.
  apply (Sorted_unique str_le);
    [apply Sorted_merge_sort; apply _| |apply sorted_perm].
  induction l as [|a l IH]; [constructor|].
  simpl in H. apply andb_true_iff in H as [Hhd Htl].
  constructor; [by apply IH|]. destruct l; constructor.
  unfold str_ltb in Hhd. by apply andb_true_iff in Hhd as [Hhd _].
Qed.

(** C3, as stated, fails on a run of 600 discoveries, newest thread
    first: [save_seen_ids] writes the 500 identifiers that are greatest
    in the order of [sorted], here the 500 that were inserted first;
    none of the 100 inserted last is written. *)
Theorem save_600_keeps_greatest_not_latest :
  length discovered = 600%nat
  /\ NoDup discovered
  /\ take 500 discovered = map mk_id (rev (seq 100 500))
  /\ drop 500 discovered = map mk_id (rev (seq 0 100))
  /\ SeenStore.file_lines (SeenStore.save_seen_ids accumulated)
     = map (fun n => mk_id n ++ [NL]) (seq 100 500)
  /\ Forall (fun x => x ∉ take 500 discovered) (drop 500 discovered).
Proof.
  assert (Hinc : increasing (map mk_id (seq 0 600)) = true)
    by (vm_compute; reflexivity).
  assert (Hrev : discovered = rev (map mk_id (seq 0 600)))
    by apply map_rev.
  assert (Hnodup : NoDup discovered).
  { rewrite Hrev. apply NoDup_ListNoDup, NoDup_rev, NoDup_ListNoDup.
    by apply increasing_NoDup. }
  split; [reflexivity|]. split; [exact Hnodup|].
  split; [reflexivity|]. split; [reflexivity|]. split.
  - unfold SeenStore.save_seen_ids, accumulated.
    rewrite sorted_of_added by exact Hnodup.
    rewrite (sorted_of_perm discovered (map mk_id (seq 0 600)))
      by (rewrite Hrev; symmetry; apply Permutation_rev).
    rewrite increasing_is_sorted by exact Hinc.
    change (last_n 500 (map mk_id (seq 0 600))) with (map mk_id (seq 100 500)).
    rewrite file_lines_of_join.
    + by rewrite map_map.
    + discriminate.
    + apply Forall_forall. intros x Hx. apply Forall_forall. intros c Hc.
      assert (Hok : forallb (forallb (fun c => negb (c =? NL) && negb (c =? 13)))
                      (map mk_id (seq 100 500)) = true)
        by (vm_compute; reflexivity).
      rewrite forallb_forall in Hok. apply list_elem_of_In in Hx.
      specialize (Hok x Hx). rewrite forallb_forall in Hok.
      apply list_elem_of_In in Hc. specialize (Hok c Hc).
      apply andb_true_iff in Hok as [H1 H2].
      apply negb_true_iff in H1, H2. by split; apply N.eqb_neq.
  - rewrite <- (take_drop 500 discovered) in Hnodup.
    apply NoDup_app in Hnodup as (_ & Hdisj & _).
    apply Forall_forall. intros x Hx Hin. by apply (Hdisj x Hin).
Qed.

(** ** Splitting a long notification *)

Lemma rfind_from_spec (c : char) (s : str) (i best : Z) :
  let r := rfind_from i best c s in
  (r = best /\ Forall (fun d => d <> c) s)
  \/ (exists k : nat, r = (i + Z.of_nat k)%Z /\ s !! k = Some c
      /\ Forall (fun d => d <> c) (drop (S k) s)).
Proof.
  revert i best. induction s as [|d s IH]; intros i best; simpl.
  - left. by split.
  - destruct (N.eqb_spec d c) as [->|Hne].
    + destruct (IH (i + 1)%Z i) as [[Hr Hall]|(k & Hr & Hk & Hall)].
      * right. exists 0%nat. rewrite Hr. split; [lia|]. by split.
      * right. exists (S k). rewrite Hr. split; [lia|]. by split.
    + destruct (IH (i + 1)%Z best) as [[Hr Hall]|(k & Hr & Hk & Hall)].
      * left. split; [done|]. by constructor.
      * right. exists (S k). rewrite Hr. split; [lia|]. by split.
Qed.

Lemma rfind_spec (c : char) (s : str) :
  (rfind c s = (-1)%Z /\ Forall (fun d => d <> c) s)
  \/ (exists k : nat, rfind c s = Z.of_nat k /\ s !! k = Some c
      /\ Forall (fun d => d <> c) (drop (S k) s)).
Proof.
  destruct (rfind_from_spec c s 0 (-1)) as [H|(k & H1 & H2)]; [by left|].
  right. exists k. by rewrite Z.add_0_l in H1.
Qed.

Lemma drop_while_length (p : char -> bool) (s : str) :
  (length (drop_while p s) <= length s)%nat.
Proof. induction s as [|c s IH]; simpl; [lia|]. destruct (p c); simpl; lia. Qed.

(** The cut that [send_tg] computes obeys the rule. *)
Lemma computed_cut_point (text : str) :
  (4000 < length text)%nat ->
  let cut := rfind NL (take 4000 text) in
  cut_point text (Z.to_nat (if (cut <? 2000)%Z then 4000%Z else cut)).
Proof.
  intros Hlen cut.
  destruct (rfind_spec NL (take 4000 text)) as [[Hr Hall]|(k & Hr & Hk & Hall)];
    fold cut in Hr; rewrite Hr.
  - right. split; [reflexivity|].
    rewrite <- (take_drop 2000 (take 4000 text)) in Hall.
    apply Forall_app in Hall as [_ Hall].
    by rewrite take_drop_commute.
  - assert (Hk4 : (k < 4000)%nat).
    { apply lookup_lt_Some in Hk. rewrite length_take in Hk. lia. }
    destruct (Z.ltb_spec (Z.of_nat k) 2000) as [Hlt|Hge].
    + right. split; [reflexivity|].
      rewrite take_drop_commute. change (2000 + 2000)%nat with 4000%nat.
      assert (Heq : drop 2000 (take 4000 text)
                    = drop (2000 - S k) (drop (S k) (take 4000 text))).
      { rewrite drop_drop. f_equal. lia. }
      rewrite Heq. apply Forall_drop. exact Hall.
    + left. rewrite Nat2Z.id. split; [lia|]. split.
      * by rewrite lookup_take_lt in Hk by lia.
      * rewrite take_drop_commute.
        assert (Heq : (S k + (3999 - k))%nat = 4000%nat) by lia.
        rewrite Heq. exact Hall.
Qed.

Lemma split_loop_short (fuel : nat) (text : str) :
  text <> [] -> (length text <= 4000)%nat ->
  DigestAll.split_loop fuel text = Some [text].
Proof.
  intros Hne Hle. destruct text as [|c text]; [done|].
  apply Nat.leb_le in Hle.
  destruct fuel; cbn -[Nat.leb length]; by rewrite Hle.
Qed.

Lemma split_loop_long (fuel : nat) (text : str) :
  (4000 < length text)%nat ->
  DigestAll.split_loop (S fuel) text
  = let cut := rfind NL (take 4000 text) in
    let cut := Z.to_nat (if (cut <? 2000)%Z then 4000%Z else cut) in
    option_map (cons (take cut text))
               (DigestAll.split_loop fuel (lstrip [NL] (drop cut text))).
Proof.
  intros Hgt. destruct text as [|c text]; [simpl in Hgt; lia|].
  apply Nat.leb_gt in Hgt.
  cbn -[Nat.leb length take drop rfind lstrip Z.to_nat Z.ltb]. by rewrite Hgt.
Qed.

(** The loop ends within the fuel that [send_tg] gives it, and its parts
    are the chunks of the text. *)
Lemma split_loop_chunked (fuel : nat) (text : str) :
  (length text <= fuel)%nat ->
  exists parts, DigestAll.split_loop fuel text = Some parts /\ chunked text parts.
Proof.
  revert text. induction fuel as [|fuel IH]; intros text Hfuel.
  - destruct text; [|simpl in Hfuel; lia].
    exists []. split; [reflexivity|constructor].
  - destruct (decide (text = [])) as [->|Hne].
    { exists []. split; [reflexivity|constructor]. }
    destruct (Nat.leb_spec (length text) 4000) as [Hle|Hgt].
    + exists [text]. split; [by apply split_loop_short|by constructor].
    + pose proof (computed_cut_point text Hgt) as Hcut. simpl in Hcut.
      rewrite split_loop_long by done. simpl.
      set (cut := Z.to_nat _) in *.
      assert (Hcut2 : (2000 <= cut <= 4000)%nat).
      { destruct Hcut as [[? _]|[-> _]]; lia. }
      destruct (IH (lstrip [NL] (drop cut text))) as (parts & Hparts & Hch).
      { pose proof (drop_while_length (mem_char [NL]) (drop cut text)) as Hd.
        unfold lstrip. rewrite length_drop in Hd. lia. }
      exists (take cut text :: parts). rewrite Hparts. split; [done|].
      by constructor.
Qed.

Lemma cut_point_bounds (text : str) (cut : nat) :
  cut_point text cut -> (2000 <= cut <= 4000)%nat.
Proof. intros [[? _]|[-> _]]; lia. Qed.

Lemma chunked_lengths (text : str) (parts : list str) :
  chunked text parts ->
  Forall (fun p => (0 < length p <= 4000)%nat) parts.
Proof.
  induction 1 as [|text Hne Hle|text cut parts Hgt Hcut _ IH].
  - constructor.
  - constructor; [|constructor]. split; [|done].
    destruct text; [done|simpl; lia].
  - apply cut_point_bounds in Hcut. constructor; [|done].
    rewrite length_take. lia.
Qed.

Lemma chunked_reassembled (text : str) (parts : list str) :
  chunked text parts -> reassembled text parts.
Proof.
  induction 1 as [|text Hne Hle|text cut parts Hgt Hcut _ (seps & Hlen & Hnl & Heq)].
  - exists []. by repeat split.
  - exists [[]]. repeat split; [by repeat constructor|].
    simpl. by rewrite !app_nil_r.
  - destruct (drop_while_suffix (mem_char [NL]) (drop cut text)) as (gap & Hgap & Hall).
    exists (gap :: seps). split; [simpl; by rewrite Hlen|]. split.
    + constructor; [|done]. eapply Forall_impl; [exact Hall|].
      intros c Hc. simpl in Hc. rewrite orb_false_r in Hc. by apply N.eqb_eq in Hc.
    + simpl. rewrite <- Heq. unfold lstrip. rewrite <- app_assoc, <- Hgap.
      by rewrite take_drop.
Qed.

(** The posts of the parts go out in order; the loop stops at the first
    one that raises. *)
Lemma post_parts_trace (E : Env) (parts : list str) (tr : list event) :
  exists k : nat,
    (k <= length parts)%nat
    /\ (DigestAll.post_parts E parts tr).2
       = tr ++ map (fun p => PostTelegram p false) (take k parts)
    /\ ((DigestAll.post_parts E parts tr).1 = Ok tt -> k = length parts).
Proof.
  revert tr. induction parts as [|p parts IH]; intros tr.
  - exists 0%nat. simpl. rewrite app_nil_r. by repeat split.
  - cbn [DigestAll.post_parts].
    unfold mbind, M_bind, DigestAll.post_message, call, mbind, M_bind, lift, mret, M_ret.
    destruct (telegram E tr p false) as [|status body].
    + exists 1%nat. simpl. split; [lia|]. by split.
    + destruct (IH (tr ++ [PostTelegram p false])) as (k & Hk & Htr & Hok).
      exists (S k). simpl. rewrite Htr, <- app_assoc. repeat split; [lia|].
      intros H. f_equal. by apply Hok.
Qed.

(** C4 (amended). For a payload longer than 4000 characters, the
    all-at-once [send_tg] cuts it into chunks of at most 4000 characters,
    each cut at the last line end before the limit (at the limit when the
    last 2000 characters before it hold no line end), posts the chunks in
    order, and the chunks with the dropped line ends between them are the
    payload; the per-message [send_tg] posts the first 3997 characters
    followed by an ellipsis as a single message. *)
Theorem long_notification_delivery (E : Env) (text : str) (tr : list event) :
  (4000 < length text)%nat ->
  posts_chunks E text tr
  /\ (truthy (BOT_TOKEN E) = true -> posts_truncated E text tr).
Proof.
  intros Hlen. split.
  - destruct (split_loop_chunked (length text) text) as (parts & Hsplit & Hch); [done|].
    exists parts. split; [exact Hsplit|]. split; [exact Hch|]. split.
    { eapply Forall_impl; [apply (chunked_lengths _ _ Hch)|]. simpl. lia. }
    split; [by apply chunked_reassembled|].
    destruct (post_parts_trace E parts tr) as (k & Hk & Htr & Hok).
    exists k. split; [exact Hk|].
    unfold DigestAll.send_tg. apply Nat.ltb_lt in Hlen. rewrite Hlen.
    unfold DigestAll.split_text in Hsplit. unfold DigestAll.split_text.
    rewrite Hsplit. unfold mbind, M_bind, mret, M_ret.
    destruct (DigestAll.post_parts E parts tr) as [[[]|e] tr'] eqn:Hpost;
      simpl in *.
    + split; [exact Htr|]. left. split; [done|]. by apply Hok.
    + split; [exact Htr|]. right. by exists e.
  - intros Htok. unfold posts_truncated, Digest.send_tg.
    rewrite Htok. apply Nat.ltb_lt in Hlen. rewrite Hlen.
    unfold mbind, M_bind, call, mret, M_ret.
    change (negb true) with false. cbv beta iota.
    set (short := take 3997 text ++ lit "...").
    destruct (telegram E tr short true) as [|status body].
    + by exists false.
    + destruct (status =? 200)%Z.
      * by exists false.
      * exists true. simpl. by rewrite <- app_assoc.
Qed.

Lemma long_notification_delivery_witness :
  posts_chunks quiet_world text9000 []
  /\ (truthy (BOT_TOKEN quiet_world) = true -> posts_truncated quiet_world text9000 []).
Proof.
  apply long_notification_delivery.
  apply Nat.ltb_lt. vm_compute. reflexivity.
Defined.

(** C4, as stated, fails for the per-message [send_tg]: of the 9000
    characters it posts one message, the first 3997 and an ellipsis, and
    that message is not the payload less some line ends. *)
Lemma per_message_send_truncates :
  (4000 < length text9000)%nat
  /\ Digest.send_tg quiet_world text9000 []
     = (Ok true, [PostTelegram (take 3997 text9000 ++ lit "...") true])
  /\ ~ reassembled text9000 [take 3997 text9000 ++ lit "..."].
Proof.
  split; [apply Nat.ltb_lt; vm_compute; reflexivity|]. split.
  - vm_compute. reflexivity.
  - set (short := take 3997 text9000 ++ lit "...").
    intros (seps & Hlen & _ & Heq).
    destruct seps as [|s [|? ?]]; try discriminate Hlen.
    cbn [zip_with concat] in Heq. rewrite app_nil_r in Heq.
    apply (f_equal (fun l => l !! 3997%nat)) in Heq.
    rewrite lookup_app_l in Heq.
    2:{ apply Nat.ltb_lt. vm_compute. reflexivity. }
    vm_compute in Heq. discriminate Heq.
Qed.

(** ** The URL extractor *)

Lemma startswith_app (s pre : str) :
  startswith s pre = true -> exists rest, s = pre ++ rest.
Proof.
  revert s. induction pre as [|p pre IH]; intros s H.
  - by exists s.
  - destruct s as [|c s]; [done|]. simpl in H.
    apply andb_true_iff in H as [Hc Hs]. apply N.eqb_eq in Hc as ->.
    destruct (IH s Hs) as [rest ->]. by exists rest.
Qed.

Lemma take_while_app (p : char -> bool) (a b : str) :
  Forall (fun c => p c = true) a ->
  take_while p (a ++ b) = a ++ take_while p b.
Proof. induction 1 as [|c a Hc _ IH]; simpl; [done|]. by rewrite Hc, IH. Qed.

Lemma take_while_Forall (p : char -> bool) (s : str) :
  Forall (fun c => p c = true) (take_while p s).
Proof.
  induction s as [|c s IH]; simpl; [constructor|].
  destruct (p c) eqn:Hc; by constructor.
Qed.

Lemma drop_while_stop (p : char -> bool) (s : str) :
  drop_while p s = [] \/ exists c r, drop_while p s = c :: r /\ p c = false.
Proof.
  induction s as [|c s IH]; simpl; [by left|].
  destruct (p c) eqn:Hc; [done|]. right. by exists c, s.
Qed.

Lemma drop_while_app_keep (p : char -> bool) (a : str) (c : char) (b : str) :
  p c = false -> exists a', drop_while p (a ++ c :: b) = a' ++ c :: b.
Proof.
  intros Hc. induction a as [|x a [a' IH]]; simpl.
  - rewrite Hc. by exists [].
  - destruct (p x); [by exists a'|]. by exists (x :: a).
Qed.

Lemma http_lit : lit "http://" = [104; 116; 116; 112; 58; 47; 47].
Proof. reflexivity. Qed.
Lemma https_lit : lit "https://" = [104; 116; 116; 112; 115; 58; 47; 47].
Proof. reflexivity. Qed.

(** Every match of the pattern begins with [http://] or [https://]. *)
Lemma findall_prefixed (skip : nat) (s : str) :
  Forall http_prefixed (Urls.findall_from skip s).
Proof.
  revert skip. induction s as [|c s IH]; intros skip; [constructor|].
  cbn [Urls.findall_from]. destruct skip as [|k]; [|apply IH].
  destruct (Urls.starts_url (c :: s)) eqn:Hs; [|apply IH].
  constructor; [|apply IH].
  unfold Urls.starts_url in Hs. apply orb_true_iff in Hs as [Hs|Hs];
    apply andb_true_iff in Hs as [Hs _];
    apply startswith_app in Hs as [rest Hrest]; rewrite Hrest;
    rewrite take_while_app.
  - exists (take_while Urls.url_char rest). by right.
  - rewrite https_lit. repeat constructor.
  - exists (take_while Urls.url_char rest). by left.
  - rewrite http_lit. repeat constructor.
Qed.

(** Stripping the trailing punctuation keeps the prefix. *)
Lemma rstrip_prefixed (url : str) :
  http_prefixed url -> http_prefixed (rstrip Urls.TRAILING url).
Proof.
  assert (H : forall pre rest : str,
            mem_char Urls.TRAILING 47 = false ->
            exists rest', rstrip Urls.TRAILING ((pre ++ [47]) ++ rest)
                          = (pre ++ [47]) ++ rest').
  { intros pre rest H47. unfold rstrip. rewrite rev_app_distr, rev_app_distr.
    simpl. destruct (drop_while_app_keep (mem_char Urls.TRAILING) (rev rest)
                       47 (rev pre) H47) as [a' ->].
    exists (rev a'). rewrite rev_app_distr. simpl.
    by rewrite rev_involutive, <- app_assoc. }
  intros [rest [->| ->]].
  - destruct (H (lit "http:/") rest eq_refl) as [rest' Hr].
    exists rest'. left. exact Hr.
  - destruct (H (lit "https:/") rest eq_refl) as [rest' Hr].
    exists rest'. right. exact Hr.
Qed.

Lemma candidates_prefixed (body_text : str) :
  Forall http_prefixed (candidates body_text).
Proof.
  unfold candidates. apply Forall_fmap.
  eapply Forall_impl; [apply findall_prefixed|]. apply rstrip_prefixed.
Qed.

Lemma split_off_nil (c : char) : (Url.split_off c []).1 = [].
Proof. reflexivity. Qed.

Lemma split_off_hit (c : char) (s : str) : (Url.split_off c (c :: s)).1 = [].
Proof. unfold Url.split_off. simpl. by rewrite N.eqb_refl. Qed.

Lemma split_off_head (c d : char) (s : str) :
  d <> c -> exists t, (Url.split_off c (d :: s)).1 = d :: t.
Proof.
  intros Hne. unfold Url.split_off. simpl.
  destruct (N.eqb_spec d c) as [|_]; [done|].
  destruct (split_first c s) as [[a b]|]; simpl; eauto.
Qed.

(** The path that [urlsplit] leaves of what follows the host. *)
Lemma split_path_rooted (rest : str) :
  rest = [] \/ (exists c r, rest = c :: r /\ Url.netloc_char c = false) ->
  rooted (Url.split_off 63 (Url.split_off 35 rest).1).1.
Proof.
  intros [->|(c & r & -> & Hc)]; [by left|].
  unfold Url.netloc_char in Hc. apply negb_false_iff in Hc.
  rewrite !orb_true_iff, !N.eqb_eq in Hc. destruct Hc as [[->| ->]| ->].
  - destruct (split_off_head 35 47 r) as [t ->]; [done|].
    destruct (split_off_head 63 47 t) as [t' ->]; [done|].
    right. by exists t'.
  - destruct (split_off_head 35 63 r) as [t ->]; [done|].
    rewrite split_off_hit. by left.
  - rewrite split_off_hit. by left.
Qed.

Lemma split_first_head (c d : char) (s a b : str) :
  d <> c -> split_first c (d :: s) = Some (a, b) -> exists a', a = d :: a'.
Proof.
  intros Hne. simpl. destruct (N.eqb_spec d c) as [|_]; [done|].
  destruct (split_first c s) as [[a' b']|]; [|done].
  intros [= <- <-]. by exists a'.
Qed.

Lemma splitparams_rooted (p : str) :
  rooted p -> rooted (Url.splitparams p).1.
Proof.
  intros [->|[q ->]]; [by left|].
  unfold Url.splitparams. change (mem_char (47 :: q) 47) with true. cbv iota.
  set (r := Z.to_nat (rfind 47 (47 :: q))).
  destruct (split_first 59 (drop r (47 :: q))) as [[a b]|] eqn:Hsplit;
    [|right; by exists q].
  destruct r as [|r'].
  - rewrite drop_0 in Hsplit.
    apply split_first_head in Hsplit as [a' ->]; [|done].
    right. by exists a'.
  - right. simpl. by eexists.
Qed.

(** [urlsplit] on a URL that begins with [http://] or [https://]. *)
Lemma urlsplit_http (E : Env) (url : str) (r : Url.ParseResult) :
  http_prefixed url -> Url.urlsplit E url = Ok r ->
  (Url.scheme r = lit "http" \/ Url.scheme r = lit "https")
  /\ shaped (Url.netloc r, Url.path r).
Proof.
  intros [rest Hurl].
  assert (Hscheme : exists sch tail,
             Url.split_scheme (Url.remove_unsafe url) = (sch, 47 :: 47 :: tail)
             /\ (sch = lit "http" \/ sch = lit "https")).
  { unfold Url.remove_unsafe.
    destruct Hurl as [->| ->]; [rewrite http_lit|rewrite https_lit];
      cbn [app drop_while N.leb N.compare Pos.compare Pos.compare_cont];
      rewrite !filter_cons_True by done;
      eexists _, _; (split; [reflexivity|]); [by left|by right]. }
  destruct Hscheme as (sch & tail & Hsplit & Hsch).
  unfold Url.urlsplit. rewrite Hsplit.
  change (startswith (47 :: 47 :: tail) (lit "//")) with true. cbv iota.
  unfold Url.splitnetloc. change (drop 2 (47 :: 47 :: tail)) with tail.
  destruct (Url.check_brackets E _) as [[]|e]; [|done]. simpl rbind.
  destruct (Url.split_off 35 _) as [u1 fragment] eqn:H1.
  destruct (Url.split_off 63 u1) as [u2 query] eqn:H2.
  destruct (Url.checknetloc E _) as [[]|e]; [|done]. simpl rbind.
  intros [= <-]. cbn [Url.scheme Url.netloc Url.path]. split; [exact Hsch|].
  split; [apply take_while_Forall|]. cbn [snd].
  replace u2 with (Url.split_off 63 (Url.split_off 35
                     (drop_while Url.netloc_char tail)).1).1
    by (rewrite H1; cbn [fst]; by rewrite H2).
  apply split_path_rooted.
  destruct (drop_while_stop Url.netloc_char tail) as [->|(c & r & -> & Hc)];
    [by left|right; by exists c, r].
Qed.

Lemma urlparse_http (E : Env) (url : str) (r : Url.ParseResult) :
  http_prefixed url -> Url.urlparse E url = Ok r ->
  shaped (Url.netloc r, Url.path r).
Proof.
  intros Hurl. unfold Url.urlparse.
  destruct (Url.urlsplit E url) as [r0|e] eqn:Hsplit; [|done].
  destruct (urlsplit_http E url r0 Hurl Hsplit) as [_ [Hhost Hpath]].
  simpl rbind. destruct (_ && _).
  - destruct (Url.splitparams (Url.path r0)) as [p ps] eqn:Hp.
    intros [= <-]. split; [exact Hhost|]. cbn [snd Url.path].
    replace p with (Url.splitparams (Url.path r0)).1 by (by rewrite Hp).
    by apply splitparams_rooted.
  - intros [= <-]. by split.
Qed.

(** The key of the source determines the pair. *)
Lemma shaped_key_inj (pr1 pr2 : str * str) :
  shaped pr1 -> shaped pr2 -> pr1.1 ++ pr1.2 = pr2.1 ++ pr2.2 -> pr1 = pr2.
Proof.
  destruct pr1 as [n1 p1], pr2 as [n2 p2]. intros [Hn1 Hp1] [Hn2 Hp2].
  simpl in *. revert n2 Hn2.
  induction Hn1 as [|c n1 Hc _ IH]; intros n2 Hn2 Heq.
  - destruct Hn2 as [|d n2 Hd _]; simpl in Heq; [by rewrite Heq|].
    destruct Hp1 as [->|[q ->]]; [done|]. injection Heq as <- _. done.
  - destruct Hn2 as [|d n2 Hd Hn2]; simpl in Heq.
    + destruct Hp2 as [->|[q ->]]; [done|]. injection Heq as -> _. done.
    + injection Heq as -> Heq. specialize (IH n2 Hn2 Heq). by injection IH as -> ->.
Qed.

Lemma url_key_pair (E : Env) (url : str) :
  Urls.url_key E url
  = rbind (accepted_pair E url) (fun o => Ok (option_map key_of o)).
Proof.
  unfold Urls.url_key, accepted_pair.
  destruct (length url <? 20)%nat; [done|].
  destruct (Urls.is_tracking_url E url) as [[|]|e]; try done.
  cbn [rbind]. destruct (Url.urlparse E url) as [p|e]; [|done].
  cbn [rbind].
  by destruct (existsb (endswith (lower E (Url.path p))) Urls.MEDIA_EXTENSIONS).
Qed.

Lemma accepted_pair_shaped (E : Env) (url : str) (pr : str * str) :
  http_prefixed url -> accepted_pair E url = Ok (Some pr) -> shaped pr.
Proof.
  intros Hurl. unfold accepted_pair.
  destruct (length url <? 20)%nat; [done|].
  destruct (Urls.is_tracking_url E url) as [[|]|e]; try done.
  cbn [rbind]. destruct (Url.urlparse E url) as [p|e] eqn:Hp; [|done].
  cbn [rbind].
  destruct (existsb (endswith (lower E (Url.path p))) Urls.MEDIA_EXTENSIONS); [done|].
  intros [= <-]. by eapply urlparse_http.
Qed.

Lemma key_seen (pr : str * str) (seenp : list (str * str)) :
  shaped pr -> Forall shaped seenp ->
  key_of pr ∈ (list_to_set (map key_of seenp) : gset str) <-> pr ∈ seenp.
Proof.
  intros Hpr Hseen. rewrite elem_of_list_to_set. split.
  - intros Hin. apply list_elem_of_fmap in Hin as (pr' & Heq & Hin).
    rewrite Forall_forall in Hseen.
    by rewrite (shaped_key_inj pr pr' Hpr (Hseen _ Hin) Heq).
  - intros Hin. apply list_elem_of_fmap. by exists pr.
Qed.

(** The loop of the source computes the deduplication by pair. *)
Lemma url_loop_by_pair (E : Env) (urls : list str)
    (seenp : list (str * str)) (good : list str) :
  Forall http_prefixed (map (rstrip Urls.TRAILING) urls) ->
  Forall shaped seenp ->
  Urls.url_loop E urls (list_to_set (map key_of seenp)) good
  = rbind (collect (map (accepted_pair E) (map (rstrip Urls.TRAILING) urls)))
      (fun verdicts =>
       Ok (good ++ first_seen seenp
                     (zip (map (rstrip Urls.TRAILING) urls) verdicts))).
Proof.
  revert seenp good. induction urls as [|url urls IH]; intros seenp good Hurls Hseen.
  - simpl. by rewrite app_nil_r.
  - apply Forall_cons in Hurls as [Hurl Hurls].
    cbn [Urls.url_loop map collect]. rewrite url_key_pair.
    destruct (accepted_pair E (rstrip Urls.TRAILING url)) as [[pr|]|e] eqn:Hacc;
      cbn [rbind option_map].
    + pose proof (accepted_pair_shaped E _ pr Hurl Hacc) as Hpr.
      destruct (decide (pr ∈ seenp)) as [Hin|Hnin].
      * rewrite bool_decide_eq_true_2 by (by apply key_seen).
        rewrite IH by done.
        destruct (collect _) as [vs|e]; [|done]. cbn [rbind zip zip_with first_seen].
        by rewrite bool_decide_eq_true_2.
      * rewrite bool_decide_eq_false_2 by (by rewrite key_seen).
        change ({[key_of pr]} ∪ list_to_set (map key_of seenp))
          with (list_to_set (C := gset str) (map key_of (pr :: seenp))).
        rewrite IH by (try constructor; done).
        destruct (collect _) as [vs|e]; [|done]. cbn [rbind zip zip_with first_seen].
        rewrite bool_decide_eq_false_2 by done. by rewrite <- app_assoc.
    + rewrite IH by done. by destruct (collect _).
    + done.
Qed.

Lemma extract_is_by_pair (E : Env) (max_urls : nat) (body_text : str) :
  Urls.extract_article_urls_upto E max_urls body_text
  = extract_by_pair E max_urls body_text.
Proof.
  unfold Urls.extract_article_urls_upto, extract_by_pair.
  pose proof (url_loop_by_pair E (Urls.findall body_text) [] []
                (candidates_prefixed body_text) (Forall_nil_2 _)) as H.
  cbn [map list_to_set foldr app] in H. fold (candidates body_text) in H.
  change (list_to_set []) with (∅ : gset str) in H. rewrite H.
  by destruct (collect _).
Qed.

Lemma first_seen_known (seen : list (str * str)) (pr : str * str)
    (l2 l3 : list (str * option (str * str))) (u2 : str) :
  pr ∈ seen ->
  first_seen seen (l2 ++ (u2, Some pr) :: l3) = first_seen seen (l2 ++ l3).
Proof.
  revert seen. induction l2 as [|[u [q|]] l2 IH]; intros seen Hin; simpl.
  - by rewrite bool_decide_eq_true_2.
  - destruct (bool_decide (q ∈ seen)); [by apply IH|].
    f_equal. apply IH. by right.
  - by apply IH.
Qed.

(** Of two accepted URLs with the same pair, the later one contributes
    nothing to the result. *)
Lemma first_seen_later_dropped (seen : list (str * str)) (pr : str * str)
    (l1 l2 l3 : list (str * option (str * str))) (u1 u2 : str) :
  first_seen seen (l1 ++ (u1, Some pr) :: l2 ++ (u2, Some pr) :: l3)
  = first_seen seen (l1 ++ (u1, Some pr) :: l2 ++ l3).
Proof.
  revert seen. induction l1 as [|[u [q|]] l1 IH]; intros seen; simpl.
  - destruct (bool_decide (pr ∈ seen)) eqn:Hin.
    + apply first_seen_known. by apply bool_decide_eq_true in Hin.
    + f_equal. apply first_seen_known. by left.
  - destruct (bool_decide (q ∈ seen)); [apply IH|]. f_equal. apply IH.
  - apply IH.
Qed.

(** C5. On a body with [https://example.com/article?x=1] and
    [https://click.mailchimp.com/track?u=2] only the first URL is
    returned; [extract_article_urls] keeps, of the URLs that pass the
    filters, the first with each pair (network location, path), in the
    order of appearance, and returns the first 3 (per message) or 2
    (all at once) of them; so of two such URLs that differ in the query
    only, the first alone is returned. *)
Theorem extract_article_urls_dedup (E : Env) :
  Digest.extract_article_urls E body_with_tracker
    = Ok [lit "https://example.com/article?x=1"]
  /\ DigestAll.extract_article_urls E body_with_tracker
    = Ok [lit "https://example.com/article?x=1"]
  /\ Digest.extract_article_urls E body_with_two_queries
    = Ok [lit "https://example.com/article?x=1"]
  /\ DigestAll.extract_article_urls E body_with_two_queries
    = Ok [lit "https://example.com/article?x=1"]
  /\ (forall body_text,
        Digest.extract_article_urls E body_text = extract_by_pair E 3 body_text)
  /\ (forall body_text,
        DigestAll.extract_article_urls E body_text = extract_by_pair E 2 body_text)
  /\ (forall seen pr l1 l2 l3 u1 u2,
        first_seen seen (l1 ++ (u1, Some pr) :: l2 ++ (u2, Some pr) :: l3)
        = first_seen seen (l1 ++ (u1, Some pr) :: l2 ++ l3)).
Proof.
  split; [vm_compute; reflexivity|]. split; [vm_compute; reflexivity|].
  split; [vm_compute; reflexivity|]. split; [vm_compute; reflexivity|].
  split; [intros body_text; apply extract_is_by_pair|].
  split; [intros body_text; apply extract_is_by_pair|].
  intros. apply first_seen_later_dropped.
Qed.

(** ** The mail reader *)

Lemma part_nested_ind (P : part -> Prop) :
  (forall mime hs data, P (Part mime hs data None)) ->
  (forall mime hs data ps, Forall P ps -> P (Part mime hs data (Some ps))) ->
  forall p, P p.
Proof.
  intros Hleaf Hnode. fix IH 1. intros [mime hs data [ps|]]; [|apply Hleaf].
  apply Hnode. induction ps as [|q qs IHps]; [constructor|].
  constructor; [apply IH|exact IHps].
Qed.

Lemma preorder_part_node mime hs data ps :
  preorder_part (Part mime hs data (Some ps))
  = Part mime hs data (Some ps) :: preorder ps.
Proof.
  simpl. apply (f_equal (cons _)).
  induction ps as [|q qs IH]; [done|]. simpl. by rewrite IH.
Qed.

Lemma extract_part_node mime hs data ps st :
  Mail.extract_part (Part mime hs data (Some ps)) st
  = rbind (if truthy data
           then rbind (Base64.decode_text data) (fun decoded =>
                Ok (Mail.assign mime decoded st))
           else Ok st) (Mail.extract_parts ps).
Proof.
  simpl. destruct (if truthy data then _ else _) as [st1|e]; [|done].
  simpl. revert st1. induction ps as [|q qs IH]; intros st1; [done|].
  simpl. destruct (Mail.extract_part q st1); [apply IH|done].
Qed.

Lemma pick_app (mime cur : str) (l1 l2 : list part) :
  pick mime cur (l1 ++ l2) = pick mime (pick mime cur l1) l2.
Proof.
  unfold pick. destruct (truthy cur) eqn:Hcur; [by rewrite Hcur|].
  induction l1 as [|p l1 IH]; simpl; [done|].
  destruct (_ && _); [|exact IH].
  destruct (Base64.decode_text (body_data p)) as [d|e]; [|exact IH].
  destruct (truthy d) eqn:Hd; [by rewrite Hd|exact IH].
Qed.

Lemma plain_not_html (mime : str) :
  str_eqb mime Mail.TEXT_PLAIN = true -> str_eqb mime Mail.TEXT_HTML = false.
Proof.
  unfold str_eqb. intros H. apply bool_decide_eq_true in H. by subst mime.
Qed.

(** One part: the assignments of the loop are the picks. *)
Lemma assign_pick (p : part) (decoded bt bh : str) :
  (truthy (body_data p) = true -> Base64.decode_text (body_data p) = Ok decoded) ->
  (if truthy (body_data p) then Mail.assign (mimeType p) decoded (bt, bh) else (bt, bh))
  = (pick Mail.TEXT_PLAIN bt [p], pick Mail.TEXT_HTML bh [p]).
Proof.
  intros Hdec. unfold pick, Mail.assign. cbn [first_text].
  destruct (truthy (body_data p)) eqn:Hdata.
  - rewrite (Hdec eq_refl), !andb_true_r.
    destruct (str_eqb (mimeType p) Mail.TEXT_PLAIN) eqn:Hp;
      [rewrite (plain_not_html _ Hp)|
       destruct (str_eqb (mimeType p) Mail.TEXT_HTML)];
      destruct bt, bh, decoded; reflexivity.
  - rewrite !andb_false_r. by destruct bt, bh.
Qed.

Lemma visit_pick (p : part) (bt bh : str) (st1 : str * str) :
  (if truthy (body_data p)
   then rbind (Base64.decode_text (body_data p)) (fun decoded =>
        Ok (Mail.assign (mimeType p) decoded (bt, bh)))
   else Ok (bt, bh)) = Ok st1 ->
  st1 = (pick Mail.TEXT_PLAIN bt [p], pick Mail.TEXT_HTML bh [p]).
Proof.
  destruct (truthy (body_data p)) eqn:Hdata.
  - destruct (Base64.decode_text (body_data p)) as [d|e] eqn:Hd; [|done].
    intros [= <-]. rewrite <- (assign_pick p d) by done. by rewrite Hdata.
  - intros [= <-]. rewrite <- (assign_pick p []) by (by rewrite Hdata).
    by rewrite Hdata.
Qed.

Lemma walk_picks_app (l1 l2 : list part) (st st1 st2 : str * str) :
  walk_picks l1 st st1 -> walk_picks l2 st1 st2 -> walk_picks (l1 ++ l2) st st2.
Proof.
  unfold walk_picks. intros -> ->. simpl. by rewrite !pick_app.
Qed.

Lemma extract_parts_picks (ps : list part) :
  Forall (fun q => forall st st', Mail.extract_part q st = Ok st' ->
                                  walk_picks (preorder_part q) st st') ps ->
  forall st st', Mail.extract_parts ps st = Ok st' -> walk_picks (preorder ps) st st'.
Proof.
  induction 1 as [|q qs Hq _ IH]; intros st st'; simpl.
  - intros [= <-]. by destruct st as [[] []].
  - destruct (Mail.extract_part q st) as [st1|e] eqn:H1; [|done].
    simpl. intros H2. eapply walk_picks_app; [by apply Hq|by apply IH].
Qed.

(** The walk assigns to [body_text] and [body_html] the decoded content
    of the first part, in pre-order, of each type. *)
Lemma extract_part_picks (p : part) (st st' : str * str) :
  Mail.extract_part p st = Ok st' -> walk_picks (preorder_part p) st st'.
Proof.
  revert st st'. induction p as [mime hs data|mime hs data ps IH] using part_nested_ind;
    intros [bt bh] st'.
  - simpl. destruct (if truthy data then _ else _) as [st1|e] eqn:H1; [|done].
    simpl. intros [= <-].
    exact (visit_pick (Part mime hs data None) bt bh st1 H1).
  - rewrite extract_part_node, preorder_part_node.
    destruct (if truthy data then _ else _) as [st1|e] eqn:H1; [|done].
    simpl. intros H2.
    apply (walk_picks_app [Part mime hs data (Some ps)] (preorder ps) _ st1).
    + exact (visit_pick (Part mime hs data (Some ps)) bt bh st1 H1).
    + by apply extract_parts_picks.
Qed.

Lemma extract_parts_returns (ps : list part) (st : str * str) :
  Forall decodable (preorder ps) -> exists st', Mail.extract_parts ps st = Ok st'.
Proof.
  revert st. induction ps as [|q qs IHqs]; intros st Hdec; [by exists st|].
  simpl in Hdec. apply Forall_app in Hdec as [Hq Hqs]. simpl.
  assert (Hone : forall p st, Forall decodable (preorder_part p) ->
                   exists st', Mail.extract_part p st = Ok st').
  { clear. induction p as [mime hs data|mime hs data ps IH] using part_nested_ind;
      intros st Hdec.
    - simpl in *. apply Forall_cons in Hdec as [Hd _]. unfold decodable in Hd.
      simpl in Hd. destruct (truthy data); [|by eexists].
      destruct (Hd eq_refl) as [d ->]. by eexists.
    - rewrite extract_part_node. rewrite preorder_part_node in Hdec.
      apply Forall_cons in Hdec as [Hd Hps]. unfold decodable in Hd. simpl in Hd.
      assert (Hfirst : exists st1,
                (if truthy data
                 then rbind (Base64.decode_text data) (fun decoded =>
                      Ok (Mail.assign mime decoded st))
                 else Ok st) = Ok st1).
      { destruct (truthy data); [|by eexists].
        destruct (Hd eq_refl) as [d ->]. by eexists. }
      destruct Hfirst as [st1 ->]. simpl. clear Hd. revert st1.
      induction IH as [|q qs Hq _ IHqs]; intros st1; [by eexists|].
      simpl in Hps. apply Forall_app in Hps as [Hq' Hqs']. simpl.
      destruct (Hq st1 Hq') as [st2 ->]. simpl. by apply IHqs. }
  destruct (Hone q st Hq) as [st1 ->]. simpl. by apply IHqs.
Qed.

(** C8 (amended). For a multipart payload, body extraction returns the
    decoded content of the first part, in pre-order, that is of type
    text/plain and whose data decode to a text that is not empty; it
    converts HTML (the first such part of type text/html) only when
    there is no such plain part; and the message body is that text cut
    to the cap of the script.  It returns whenever the data of every
    part are valid base64. *)
Theorem body_extraction_first_plain (E : Env) (payload : part) (ps : list part) :
  parts payload = Some ps ->
  let plain := first_text Mail.TEXT_PLAIN (preorder ps) in
  let html := first_text Mail.TEXT_HTML (preorder ps) in
  (Forall decodable (preorder ps) ->
     exists body, Mail.extract_body E payload = Ok body)
  /\ (forall body, Mail.extract_body E payload = Ok body ->
        body = if truthy plain then plain
               else if truthy html then h2t_handle E html else [])
  /\ (forall max_body text data,
        Mail.read_message E max_body (Message payload text) = Ok data ->
        exists body, Mail.extract_body E payload = Ok body
                     /\ Mail.e_body data = take max_body body).
Proof.
  intros Hparts plain html. split; [|split].
  - intros Hdec. unfold Mail.extract_body, Mail.extract_bodies. rewrite Hparts.
    destruct (extract_parts_returns ps ([], []) Hdec) as [[bt bh] ->].
    by eexists.
  - intros body. unfold Mail.extract_body, Mail.extract_bodies. rewrite Hparts.
    destruct (Mail.extract_parts ps ([], [])) as [[bt bh]|e] eqn:Hwalk; [|done].
    apply extract_parts_picks in Hwalk.
    2:{ apply Forall_forall. intros q _ st st'. apply extract_part_picks. }
    unfold walk_picks, pick in Hwalk. simpl in Hwalk. injection Hwalk as -> ->.
    fold plain html. simpl. intros [= <-].
    by destruct (truthy plain) eqn:Hp, (truthy html); destruct plain.
  - intros max_body text data. unfold Mail.read_message. simpl.
    destruct (Mail.extract_body E payload) as [body|e]; [|done].
    simpl. intros [= <-]. by exists body.
Qed.

Lemma body_extraction_first_plain_witness :
  Mail.extract_body quiet_world nested_payload = Ok (lit "hi").
Proof.
  destruct (body_extraction_first_plain quiet_world nested_payload _ eq_refl)
    as (Hreturns & Hbody & _).
  destruct Hreturns as [body Hb].
  - cbn [preorder preorder_part app html_hi plain_hi].
    repeat (constructor; [intros _; eexists; vm_compute; reflexivity|]).
    constructor.
  - rewrite Hb. f_equal. rewrite (Hbody body Hb). vm_compute. reflexivity.
Defined.

(** C8, as stated, fails on two inputs.  The message body of a plain
    part of 5001 characters is its first 5000 characters, not its
    decoded content; and with a plain part whose data decode to the
    empty text the HTML part is converted, although a text/plain part
    with data exists. *)
Lemma body_is_cut_and_blank_plain_is_skipped :
  (first_with_data Mail.TEXT_PLAIN (preorder [long_plain]) = Some long_plain
   /\ Base64.decode_text (body_data long_plain) = Ok (repeat 97 5000 ++ [97])
   /\ body_of (Mail.read_message quiet_world Digest.MAX_BODY
                 (Message long_payload [])) = Ok (repeat 97 5000))
  /\ (first_with_data Mail.TEXT_PLAIN (preorder [blank_plain; html_hi])
        = Some blank_plain
      /\ Base64.decode_text (body_data blank_plain) = Ok []
      /\ Mail.extract_body quiet_world blank_payload
         = Ok (h2t_handle quiet_world (lit "<b>hi</b>"))).
Proof.
  split; (split; [|split]); vm_compute; reflexivity.
Qed.

(** C10. [get_email_body] reads the first message of the thread only:
    when the CLI prints a thread with the messages [msg :: later], the
    result is that of reading [msg], whatever [later] holds; the sender,
    subject and date are the headers of [msg], the snippet is its
    snippet, and the body is extracted from its payload.  Both scripts
    call the same reader, with their own arguments and cap. *)
Theorem get_email_body_first_message (E : Env) (args : list str)
    (max_body : nat) (tr : list event) (returncode : Z)
    (msg : message) (later : list message) :
  gog_thread E tr args = GogExit returncode (Json (msg :: later)) ->
  Mail.get_email_body_with E args max_body tr
    = (rbind (Mail.read_message E max_body msg) (fun data => Ok (Some data)),
       tr ++ [RunGog args])
  /\ (forall data, Mail.read_message E max_body msg = Ok data ->
        let hs := Mail.collect_headers E (headers (payload msg)) in
        Mail.e_from data = default [] (hs !! lit "from")
        /\ Mail.e_subject data = default [] (hs !! lit "subject")
        /\ Mail.e_date data = default [] (hs !! lit "date")
        /\ Mail.e_snippet data = snippet msg
        /\ exists body, Mail.extract_body E (payload msg) = Ok body
                        /\ Mail.e_body data = take max_body body)
  /\ (forall thread_id,
        Digest.get_email_body E thread_id
        = Mail.get_email_body_with E
            [ lit "gmail"; lit "thread"; thread_id;
              lit "--account"; ACCOUNT E; lit "--json"; lit "--results-only" ]
            5000)
  /\ (forall thread_id,
        DigestAll.get_email_body E thread_id
        = Mail.get_email_body_with E
            [ lit "gmail"; lit "thread"; lit "get"; thread_id;
              lit "--account"; ACCOUNT E; lit "--json"; lit "--results-only" ]
            4000).
Proof.
  intros Hreply. split; [|split; [|split; reflexivity]].
  - unfold Mail.get_email_body_with, run_gog, mbind, M_bind, call, lift, mret, M_ret.
    rewrite Hreply.
    by destruct (Mail.read_message E max_body msg).
  - intros data. unfold Mail.read_message.
    destruct (Mail.extract_body E (payload msg)) as [body|e]; [|done].
    simpl. intros [= <-]. simpl. repeat split. by exists body.
Qed.

Lemma get_email_body_first_message_witness :
  Digest.get_email_body thread_world (mk_id 1) []
  = (Ok (Some (Mail.Email (lit "alice@example.com") (lit "Hello")
                 (lit "Mon, 1 Jan 2024 00:00:00 +0000") (lit "hi") (lit "hi"))),
     [RunGog [ lit "gmail"; lit "thread"; mk_id 1; lit "--account";
               lit "me@example.com"; lit "--json"; lit "--results-only" ]]).
Proof.
  destruct (get_email_body_first_message thread_world
              [ lit "gmail"; lit "thread"; mk_id 1; lit "--account";
                ACCOUNT thread_world; lit "--json"; lit "--results-only" ]
              5000 [] 0 first_message [reply_message] eq_refl)
    as (Hrun & _ & Hdigest & _).
  rewrite Hdigest, Hrun. vm_compute. reflexivity.
Defined.

(** ** The calls that a computation makes *)

Lemma emits_ret {A} (P : event -> Prop) (a : A) : emits P (mret a).
Proof. intros tr. exists []. by rewrite app_nil_r. Qed.

Lemma emits_lift {A} (P : event -> Prop) (r : result A) : emits P (lift r).
Proof. intros tr. exists []. by rewrite app_nil_r. Qed.

Lemma emits_call {A} (P : event -> Prop) (ev : event) (oracle : list event -> A) :
  P ev -> emits P (call ev oracle).
Proof. intros Hev tr. exists [ev]. split; [done|]. by constructor. Qed.

Lemma emits_bind {A B} (P : event -> Prop) (m : M A) (k : A -> M B) :
  emits P m -> (forall a, emits P (k a)) -> emits P (m ≫= k).
Proof.
  intros Hm Hk tr. unfold mbind, M_bind.
  destruct (Hm tr) as (new1 & H1 & HP1).
  destruct (m tr) as [[a|e] tr1]; simpl in H1; subst tr1.
  - destruct (Hk a (tr ++ new1)) as (new2 & H2 & HP2).
    exists (new1 ++ new2). rewrite H2, app_assoc. split; [done|].
    by apply Forall_app.
  - by exists new1.
Qed.

Lemma emits_impl {A} (P Q : event -> Prop) (m : M A) :
  (forall ev, P ev -> Q ev) -> emits P m -> emits Q m.
Proof.
  intros HPQ Hm tr. destruct (Hm tr) as (new & H & HP).
  exists new. split; [done|]. by eapply Forall_impl.
Qed.

Ltac emits_step :=
  first [ apply emits_ret | apply emits_lift
        | apply emits_call; simpl; done
        | apply emits_bind; [|intros ?] ].

Lemma call_gemini_emits (E : Env) (prompt : str) :
  emits is_provider_call (Digest.call_gemini E prompt).
Proof.
  unfold Digest.call_gemini. destruct (negb _); repeat emits_step.
Qed.

Lemma call_deepseek_emits (E : Env) (prompt : str) :
  emits is_provider_call (Digest.call_deepseek E prompt).
Proof.
  unfold Digest.call_deepseek. destruct (negb _); repeat emits_step.
Qed.

Lemma call_ai_emits (E : Env) (prompt : str) :
  emits is_provider_call (Digest.call_ai E prompt).
Proof.
  unfold Digest.call_ai. apply emits_bind; [apply call_gemini_emits|].
  intros g. destruct (Digest.some_text g); [apply emits_ret|].
  apply emits_bind; [apply call_deepseek_emits|].
  intros d. destruct (Digest.some_text d); apply emits_ret.
Qed.

Lemma fetch_article_emits (E : Env) (url : str) :
  emits is_fetch (Digest.fetch_article E url).
Proof.
  unfold Digest.fetch_article. apply emits_bind.
  - destruct (contains _ url); [|apply emits_ret].
    unfold Digest.fetch_medium_article. repeat emits_step.
  - intros c. destruct (Digest.some_text c); repeat emits_step.
Qed.

Lemma fetch_articles_emits (E : Env) (urls : list str) :
  emits is_fetch (Digest.fetch_articles E urls).
Proof.
  induction urls as [|url urls IH]; simpl; [apply emits_ret|].
  apply emits_bind; [apply fetch_article_emits|]. intros c.
  apply emits_bind; [apply IH|]. intros a. apply emits_ret.
Qed.

Lemma send_tg_emits (E : Env) (text : str) :
  emits is_post (Digest.send_tg E text).
Proof.
  unfold Digest.send_tg. destruct (negb _); [apply emits_ret|].
  apply emits_bind; [by apply emits_call|].
  intros [|status body]; [apply emits_ret|].
  destruct (status =? 200)%Z; [apply emits_ret|].
  apply emits_bind; [by apply emits_call|]. intros r. apply emits_ret.
Qed.

(** The providers and the notifier of the per-message script catch
    every exception. *)
Lemma call_ai_returns (E : Env) (prompt : str) (tr : list event) :
  exists summary, (Digest.call_ai E prompt tr).1 = Ok summary.
Proof.
  unfold Digest.call_ai, Digest.call_gemini, Digest.call_deepseek,
    mbind, M_bind, call, mret, M_ret.
  destruct (negb (truthy (GEMINI_KEY E))), (negb (truthy (DEEPSEEK_KEY E)));
    simpl;
    repeat match goal with
           | |- context [Digest.some_text ?x] => destruct (Digest.some_text x); simpl
           end; by eexists.
Qed.

Lemma send_tg_returns (E : Env) (text : str) (tr : list event) :
  exists ok, (Digest.send_tg E text tr).1 = Ok ok.
Proof.
  unfold Digest.send_tg, mbind, M_bind, call, mret, M_ret.
  destruct (negb _); [by eexists|].
  destruct (telegram E tr _ true) as [|status body]; [by eexists|].
  destruct (status =? 200)%Z; by eexists.
Qed.

Lemma fetch_articles_returns (E : Env) (urls : list str) (tr : list event) :
  exists articles, (Digest.fetch_articles E urls tr).1 = Ok articles.
Proof.
  revert tr. induction urls as [|url urls IH]; intros tr; [by eexists|].
  cbn [Digest.fetch_articles].
  assert (Hone : exists c tr1, Digest.fetch_article E url tr = (Ok c, tr1)).
  { unfold Digest.fetch_article, Digest.fetch_medium_article,
      mbind, M_bind, call, mret, M_ret.
    destruct (contains _ url); simpl;
      repeat match goal with
             | |- context [Digest.some_text ?x] => destruct (Digest.some_text x); simpl
             end; by eexists _, _. }
  destruct Hone as (c & tr1 & Hc). unfold mbind, M_bind. rewrite Hc.
  destruct (IH tr1) as [a Ha].
  destruct (Digest.fetch_articles E urls tr1) as [[a'|e] tr2]; [|done].
  by eexists.
Qed.

(** ** The per-message orchestrator *)

Lemma get_email_body_run (E : Env) (thread_id : str) (tr : list event) :
  (Digest.get_email_body E thread_id tr).2 = tr ++ [read_event E thread_id].
Proof.
  unfold Digest.get_email_body, Mail.get_email_body_with, run_gog,
    mbind, M_bind, call, lift, mret, M_ret, read_event.
  destruct (gog_thread E tr _) as [|code [|[|msg later]]]; try done.
  by destruct (Mail.read_message E Digest.MAX_BODY msg).
Qed.

Lemma mark_as_read_run (E : Env) (thread_id : str) (tr : list event) :
  (Digest.mark_as_read E thread_id tr).2 = tr ++ [mark_event E thread_id].
Proof.
  unfold Digest.mark_as_read, run_gog, mbind, M_bind, call, lift, mret, M_ret.
  by destruct (gog_modify E tr _).
Qed.

(** [process_email] stage by stage, for a message that is not in the
    store. *)
Lemma process_email_run (E : Env) (meta : email_meta) (seen_ids : gset str)
    (tr : list event) :
  meta_id meta ∉ seen_ids ->
  Digest.process_email E meta seen_ids tr
  = match Digest.get_email_body E (meta_id meta) tr with
    | (Raise e, t1) => (Raise e, t1)
    | (Ok None, t1) => (Ok (false, SeenStore.add (meta_id meta) seen_ids), t1)
    | (Ok (Some data), t1) =>
        match Digest.extract_article_urls E (Mail.e_body data) with
        | Raise e => (Raise e, t1)
        | Ok urls =>
            match Digest.fetch_articles E urls t1 with
            | (Raise e, t2) => (Raise e, t2)
            | (Ok articles, t2) =>
                match Digest.call_ai E (Digest.build_summary_prompt data articles) t2 with
                | (Raise e, t3) => (Raise e, t3)
                | (Ok summary, t3) =>
                    deliver_and_mark E (meta_id meta) seen_ids
                      (notification data summary) t3
                end
            end
        end
    end.
Proof.
  intros Hnew. unfold Digest.process_email.
  rewrite bool_decide_eq_false_2 by done.
  unfold mbind at 1, M_bind at 1.
  by destruct (Digest.get_email_body E (meta_id meta) tr) as [[[data|]|e] t1].
Qed.

(** The end of [process_email]: the posts of [send_tg], and the call
    that marks the thread read exactly when [send_tg] returned true. *)
Lemma deliver_and_mark_run (E : Env) (msg_id : str) (seen_ids : gset str)
    (tg_text : str) (tr : list event) :
  exists (ok : bool) (posts : list event),
    Digest.send_tg E tg_text tr = (Ok ok, tr ++ posts)
    /\ Forall is_post posts
    /\ (deliver_and_mark E msg_id seen_ids tg_text tr).2
       = tr ++ posts ++ (if ok then [mark_event E msg_id] else [])
    /\ forall r, (deliver_and_mark E msg_id seen_ids tg_text tr).1 = Ok r ->
                 r = (true, SeenStore.add msg_id seen_ids).
Proof.
  destruct (send_tg_returns E tg_text tr) as [ok Hok].
  destruct (send_tg_emits E tg_text tr) as (posts & Hposts & Hall).
  destruct (Digest.send_tg E tg_text tr) as [r t4] eqn:Hsend.
  simpl in Hok, Hposts. subst r t4.
  exists ok, posts. split; [done|]. split; [done|].
  unfold deliver_and_mark, mbind, M_bind. rewrite Hsend.
  destruct ok.
  - pose proof (mark_as_read_run E msg_id (tr ++ posts)) as Hmark.
    destruct (Digest.mark_as_read E msg_id (tr ++ posts)) as [[b|e] t5];
      simpl in *; subst t5; rewrite <- app_assoc; split; try done.
    by intros r [= <-].
  - simpl. rewrite app_nil_r. split; [done|]. by intros r [= <-].
Qed.

Lemma reading_read_event (E : Env) (thread_id : str) : reading (read_event E thread_id).
Proof. reflexivity. Qed.

(** C7. When the mail reader returns the empty result for a message,
    [process_email] adds the identifier to the seen-id store and makes
    no call but the read of the thread: no notification is sent and the
    mail account is not changed.  The reader returns the empty result
    when the CLI prints no JSON document or a thread without messages,
    whatever its exit code. *)
Theorem unreadable_message_marked_seen (E : Env) (meta : email_meta)
    (seen_ids : gset str) (tr tr1 : list event) :
  meta_id meta ∉ seen_ids ->
  Digest.get_email_body E (meta_id meta) tr = (Ok None, tr1) ->
  Digest.process_email E meta seen_ids tr
    = (Ok (false, {[meta_id meta]} ∪ seen_ids),
       tr ++ [read_event E (meta_id meta)])
  /\ reading (read_event E (meta_id meta))
  /\ (forall thread_id returncode,
        gog_thread E tr
          [ lit "gmail"; lit "thread"; thread_id;
            lit "--account"; ACCOUNT E; lit "--json"; lit "--results-only" ]
        = GogExit returncode NotJson ->
        Digest.get_email_body E thread_id tr
        = (Ok None, tr ++ [read_event E thread_id]))
  /\ (forall thread_id returncode,
        gog_thread E tr
          [ lit "gmail"; lit "thread"; thread_id;
            lit "--account"; ACCOUNT E; lit "--json"; lit "--results-only" ]
        = GogExit returncode (Json []) ->
        Digest.get_email_body E thread_id tr
        = (Ok None, tr ++ [read_event E thread_id])).
Proof.
  intros Hnew Hread. split; [|split; [reflexivity|split]].
  - rewrite process_email_run by done.
    pose proof (get_email_body_run E (meta_id meta) tr) as Htr.
    rewrite Hread in *. simpl in Htr. by subst tr1.
  - intros thread_id returncode Hreply.
    unfold Digest.get_email_body, Mail.get_email_body_with, run_gog,
      mbind, M_bind, call, lift, mret, M_ret. by rewrite Hreply.
  - intros thread_id returncode Hreply.
    unfold Digest.get_email_body, Mail.get_email_body_with, run_gog,
      mbind, M_bind, call, lift, mret, M_ret. by rewrite Hreply.
Qed.

Lemma unreadable_message_marked_seen_witness :
  Digest.process_email quiet_world (Meta (mk_id 1)) ∅ []
  = (Ok (false, {[mk_id 1]} ∪ ∅), [] ++ [read_event quiet_world (mk_id 1)]).
Proof.
  refine (proj1 (unreadable_message_marked_seen quiet_world (Meta (mk_id 1)) ∅ []
                   [read_event quiet_world (mk_id 1)] _ _)).
  - apply not_elem_of_empty.
  - vm_compute. reflexivity.
Defined.

(** C1 (amended). For a message that is not in the store and that
    [process_email] handles to the end, the identifier is added to the
    seen-id store whether or not [send_tg] reported success; the thread
    is marked read only if [send_tg] reported success for the
    notification of the message.  When [send_tg] fails, the read state
    of the mail account is left untouched. *)
Theorem delivery_gates_read_mark_only (E : Env) (meta : email_meta)
    (seen_ids : gset str) (tr : list event)
    (processed : bool) (seen' : gset str) (tr' : list event) :
  meta_id meta ∉ seen_ids ->
  Digest.process_email E meta seen_ids tr = (Ok (processed, seen'), tr') ->
  seen' = {[meta_id meta]} ∪ seen_ids
  /\ ((processed = false /\ tr' = tr ++ [read_event E (meta_id meta)])
      \/ (processed = true
          /\ exists (tg_text : str) (pre : list event) (ok : bool) (posts : list event),
               Forall reading pre /\ Forall is_post posts
               /\ Digest.send_tg E tg_text (tr ++ pre) = (Ok ok, (tr ++ pre) ++ posts)
               /\ tr' = (tr ++ pre) ++ posts
                        ++ (if ok then [mark_event E (meta_id meta)] else []))).
Proof.
  intros Hnew Hrun. rewrite process_email_run in Hrun by done.
  pose proof (get_email_body_run E (meta_id meta) tr) as H1.
  destruct (Digest.get_email_body E (meta_id meta) tr) as [[[data|]|e] t1];
    simpl in H1; subst t1; [| |done].
  - destruct (Digest.extract_article_urls E (Mail.e_body data)) as [urls|e]; [|done].
    destruct (fetch_articles_emits E urls (tr ++ [read_event E (meta_id meta)]))
      as (fetched & H2 & Hfetched).
    destruct (Digest.fetch_articles E urls _) as [[articles|e] t2]; [|done].
    simpl in H2. subst t2.
    destruct (call_ai_emits E (Digest.build_summary_prompt data articles)
                ((tr ++ [read_event E (meta_id meta)]) ++ fetched))
      as (asked & H3 & Hasked).
    destruct (Digest.call_ai E _ _) as [[summary|e] t3]; [|done].
    simpl in H3. subst t3.
    set (pre := [read_event E (meta_id meta)] ++ fetched ++ asked).
    replace (((tr ++ [read_event E (meta_id meta)]) ++ fetched) ++ asked)
      with (tr ++ pre) in Hrun by (unfold pre; by rewrite !app_assoc).
    destruct (deliver_and_mark_run E (meta_id meta) seen_ids
                (notification data summary) (tr ++ pre))
      as (ok & posts & Hsend & Hposts & Htr & Hres).
    rewrite Hrun in Htr, Hres. simpl in Htr.
    specialize (Hres _ eq_refl). injection Hres as -> ->.
    split; [done|]. right. split; [done|].
    exists (notification data summary), pre, ok, posts.
    split; [|done].
    unfold pre. apply Forall_app. split; [by repeat constructor|].
    apply Forall_app. split.
    + eapply Forall_impl; [exact Hfetched|]. by intros [].
    + eapply Forall_impl; [exact Hasked|]. by intros [].
  - injection Hrun as <- <- <-. split; [done|]. by left.
Qed.

Lemma delivery_gates_read_mark_only_witness :
  ({[mk_id 1]} : gset str) = {[mk_id 1]} ∪ ∅
  /\ ((true = false
       /\ failed_delivery_trace = [] ++ [read_event failing_chat_world (mk_id 1)])
      \/ (true = true
          /\ exists (tg_text : str) (pre : list event) (ok : bool) (posts : list event),
               Forall reading pre /\ Forall is_post posts
               /\ Digest.send_tg failing_chat_world tg_text ([] ++ pre)
                  = (Ok ok, ([] ++ pre) ++ posts)
               /\ failed_delivery_trace
                  = ([] ++ pre) ++ posts
                    ++ (if ok then [mark_event failing_chat_world (mk_id 1)] else []))).
Proof.
  refine (delivery_gates_read_mark_only failing_chat_world (Meta (mk_id 1))
            ∅ [] true {[mk_id 1]} failed_delivery_trace _ _).
  - apply not_elem_of_empty.
  - vm_compute. reflexivity.
Defined.

(** C1, as stated, fails when the chat endpoint refuses the message:
    [send_tg] returns false, the thread is not marked read, and the
    identifier is in the seen-id store all the same; with it in the
    store, [process_email] does nothing for the message. *)
Lemma failed_delivery_still_marks_seen :
  Digest.send_tg failing_chat_world (Digest.raw_snippet_text first_data)
    [read_event failing_chat_world (mk_id 1)]
  = (Ok false,
     failed_delivery_trace)
  /\ Digest.process_email failing_chat_world (Meta (mk_id 1)) ∅ []
     = (Ok (true, {[mk_id 1]}), failed_delivery_trace)
  /\ Digest.process_email failing_chat_world (Meta (mk_id 1)) {[mk_id 1]} []
     = (Ok (false, {[mk_id 1]}), []).
Proof.
  split; [|split]; vm_compute; reflexivity.
Qed.

Lemma call_gemini_nothing (E : Env) (prompt : str) (tr : list event) :
  truthy (GEMINI_KEY E) = false \/ gemini_gives_nothing (gemini E tr prompt) ->
  exists tr1, Digest.call_gemini E prompt tr = (Ok None, tr1)
              \/ Digest.call_gemini E prompt tr = (Ok (Some []), tr1).
Proof.
  unfold Digest.call_gemini, mbind, M_bind, call, mret, M_ret.
  intros [Hkey|Hreply].
  - rewrite Hkey. simpl. eexists. by left.
  - destruct (negb _); [eexists; by left|].
    destruct (gemini E tr prompt) as [|status body]; [eexists; by left|].
    simpl in Hreply.
    destruct (is_error_status status) eqn:Herr; [eexists; by left|].
    destruct Hreply as [?|[->|[->|[[rest ->]|(texts & rest & ->)]]]];
      try done; eexists; (by left) || (by right).
Qed.

(** C6. For a message that was read, whenever Gemini returns no result
    (no key, an error, or an empty payload) [call_ai] calls DeepSeek
    before it returns, and its result is that of DeepSeek; when DeepSeek
    returns nothing either, [process_email] goes on to [send_tg] with
    the raw-snippet text of the message: a heading, the sender, the
    subject and the first 500 characters of the snippet, posted whole
    when it has at most 4000 characters. *)
Theorem provider_fallback_and_raw_snippet (E : Env) (meta : email_meta)
    (seen_ids : gset str) (tr t1 t2 : list event) (data : Mail.email_data)
    (urls : list str) (articles : list (str * str)) :
  meta_id meta ∉ seen_ids ->
  Digest.get_email_body E (meta_id meta) tr = (Ok (Some data), t1) ->
  Digest.extract_article_urls E (Mail.e_body data) = Ok urls ->
  Digest.fetch_articles E urls t1 = (Ok articles, t2) ->
  let prompt := Digest.build_summary_prompt data articles in
  exists (g : option str) (tg : list event),
    Digest.call_gemini E prompt t2 = (Ok g, tg)
    /\ (truthy (GEMINI_KEY E) = false \/ gemini_gives_nothing (gemini E t2 prompt) ->
        Digest.some_text g = false)
    /\ (Digest.some_text g = false ->
        exists (d : option str) (td : list event),
          Digest.call_deepseek E prompt tg = (Ok d, td)
          /\ (truthy (DEEPSEEK_KEY E) = true -> td = tg ++ [PostDeepseek prompt])
          /\ Digest.call_ai E prompt t2
             = (Ok (if Digest.some_text d then d else None), td)
          /\ (Digest.some_text d = false ->
              Digest.process_email E meta seen_ids tr
              = deliver_and_mark E (meta_id meta) seen_ids
                  (Digest.raw_snippet_text data) td
              /\ exists (ok : bool) (posts : list event),
                   Digest.send_tg E (Digest.raw_snippet_text data) td
                   = (Ok ok, td ++ posts)
                   /\ (truthy (BOT_TOKEN E) = true ->
                       exists rest,
                         posts = PostTelegram
                                   (clipped (Digest.raw_snippet_text data)) true
                                 :: rest))
          /\ Digest.raw_snippet_text data
             = lit "📧 新邮件" ++ [NL]
               ++ lit "发件人: " ++ Mail.e_from data ++ [NL]
               ++ lit "主题: " ++ Mail.e_subject data ++ [NL; NL]
               ++ take 500 (Mail.e_snippet data)
          /\ occurs_in (Mail.e_from data) (Digest.raw_snippet_text data)
          /\ occurs_in (Mail.e_subject data) (Digest.raw_snippet_text data)
          /\ occurs_in (take 500 (Mail.e_snippet data)) (Digest.raw_snippet_text data)
          /\ ((length (Digest.raw_snippet_text data) <= 4000)%nat ->
              clipped (Digest.raw_snippet_text data) = Digest.raw_snippet_text data)).
Proof.
  intros Hnew Hread Hurls Hfetch prompt.
  assert (Hg : exists g tg, Digest.call_gemini E prompt t2 = (Ok g, tg)).
  { unfold Digest.call_gemini, mbind, M_bind, call, mret, M_ret.
    destruct (negb _); by eexists _, _. }
  destruct Hg as (g & tg & Hg). exists g, tg. split; [exact Hg|]. split.
  { intros Hcause. destruct (call_gemini_nothing E prompt t2 Hcause) as [tr1 [H|H]];
      rewrite H in Hg; by injection Hg as <- _. }
  intros Hnone.
  assert (Hd : exists d td, Digest.call_deepseek E prompt tg = (Ok d, td)
                 /\ (truthy (DEEPSEEK_KEY E) = true -> td = tg ++ [PostDeepseek prompt])).
  { unfold Digest.call_deepseek, mbind, M_bind, call, mret, M_ret.
    destruct (truthy (DEEPSEEK_KEY E)); simpl; by eexists _, _. }
  destruct Hd as (d & td & Hd & Htd). exists d, td.
  split; [exact Hd|]. split; [exact Htd|].
  assert (Hai : Digest.call_ai E prompt t2
                = (Ok (if Digest.some_text d then d else None), td)).
  { unfold Digest.call_ai, mbind, M_bind. rewrite Hg, Hnone, Hd.
    by destruct (Digest.some_text d). }
  split; [exact Hai|]. split.
  2:{ split; [reflexivity|]. unfold Digest.raw_snippet_text.
      split.
      { exists (lit "📧 新邮件" ++ [NL] ++ lit "发件人: "),
               ([NL] ++ lit "主题: " ++ Mail.e_subject data ++ [NL; NL]
                ++ take 500 (Mail.e_snippet data)).
        by rewrite <- !app_assoc. }
      split.
      { exists (lit "📧 新邮件" ++ [NL] ++ lit "发件人: " ++ Mail.e_from data
                ++ [NL] ++ lit "主题: "),
               ([NL; NL] ++ take 500 (Mail.e_snippet data)).
        by rewrite <- !app_assoc. }
      split.
      { exists (lit "📧 新邮件" ++ [NL] ++ lit "发件人: " ++ Mail.e_from data
                ++ [NL] ++ lit "主题: " ++ Mail.e_subject data ++ [NL; NL]), [].
        by rewrite <- !app_assoc, app_nil_r. }
      intros Hshort. unfold clipped. apply Nat.leb_le in Hshort.
      by rewrite Nat.ltb_antisym, Hshort. }
  intros Hdnone. split.
  - rewrite process_email_run by done. rewrite Hread, Hurls, Hfetch.
    fold prompt. rewrite Hai, Hdnone. reflexivity.
  - destruct (deliver_and_mark_run E (meta_id meta) seen_ids
                (Digest.raw_snippet_text data) td)
      as (ok & posts & Hsend & _ & _ & _).
    exists ok, posts. split; [exact Hsend|]. intros Htok.
    revert Hsend. unfold Digest.send_tg, mbind, M_bind, call, mret, M_ret.
    rewrite Htok. change (negb true) with false. cbv beta iota.
    fold (clipped (Digest.raw_snippet_text data)).
    set (text := clipped (Digest.raw_snippet_text data)).
    destruct (telegram E td text true) as [|status body].
    + intros [= _ Hp]. apply app_inv_head in Hp. by exists [].
    + destruct (status =? 200)%Z.
      * intros [= _ Hp]. apply app_inv_head in Hp. by exists [].
      * intros [= _ Hp]. rewrite <- app_assoc in Hp.
        apply app_inv_head in Hp. by eexists.
Qed.

Lemma provider_fallback_and_raw_snippet_witness :
  Digest.process_email fallback_world (Meta (mk_id 1)) ∅ []
  = (Ok (true, {[mk_id 1]}),
     [ read_event fallback_world (mk_id 1);
       PostGemini (Digest.build_summary_prompt first_data []);
       PostDeepseek (Digest.build_summary_prompt first_data []);
       PostTelegram
         (lit "📧 新邮件" ++ [NL] ++ lit "发件人: alice@example.com" ++ [NL]
          ++ lit "主题: Hello" ++ [NL; NL] ++ lit "hi") true;
       mark_event fallback_world (mk_id 1) ]).
Proof.
  destruct (provider_fallback_and_raw_snippet fallback_world (Meta (mk_id 1)) ∅ []
              [read_event fallback_world (mk_id 1)]
              [read_event fallback_world (mk_id 1)] first_data [] [])
    as (g & tg & Hg & Hcause & Hfallback).
  - apply not_elem_of_empty.
  - vm_compute. reflexivity.
  - vm_compute. reflexivity.
  - reflexivity.
  - assert (Hnone : Digest.some_text g = false).
    { apply Hcause. right. left. reflexivity. }
    destruct (Hfallback Hnone) as (d & td & Hd & _ & _ & Hraw & _).
    vm_compute in Hg. injection Hg as <- <-.
    vm_compute in Hd. injection Hd as <- <-.
    destruct (Hraw eq_refl) as [Hrun _]. rewrite Hrun.
    vm_compute. reflexivity.
Defined.

(** ** The all-at-once variant *)

(** C2, on a digest of more than 4000 characters whose every chunk the
    chat endpoint refuses: [send_tg] returns true all the same, and the
    script marks the thread read. *)
Theorem batch_marks_read_after_rejected_chunks :
  exists c1 c2 c3 : str,
    DigestAll.split_text rejected_digest = Some [c1; c2; c3]
    /\ (forall tr text html,
          telegram rejecting_world tr text html = HttpResp 400 None)
    /\ DigestAll.send_tg rejecting_world rejected_digest []
       = (Ok true,
          [PostTelegram c1 false; PostTelegram c2 false; PostTelegram c3 false])
    /\ DigestAll.main rejecting_world []
       = (Ok tt,
          [ RunGog [ lit "gmail"; lit "search"; lit "is:unread"; lit "--account";
                     lit "me@example.com"; lit "--json"; lit "--results-only" ];
            RunGog [ lit "gmail"; lit "thread"; lit "get"; mk_id 1; lit "--account";
                     lit "me@example.com"; lit "--json"; lit "--results-only" ];
            PostGemini (DigestAll.build_prompt [read_first]);
            PostTelegram c1 false; PostTelegram c2 false; PostTelegram c3 false;
            mark_event rejecting_world (mk_id 1) ]).
Proof.
  destruct (DigestAll.split_text rejected_digest) as [[|c1 [|c2 [|c3 [|c4 rest]]]]|]
    eqn:Hsplit; try (vm_compute in Hsplit; discriminate Hsplit).
  exists c1, c2, c3. split; [reflexivity|]. split; [reflexivity|].
  vm_compute in Hsplit. injection Hsplit as <- <- <-.
  split; vm_compute; reflexivity.
Qed.

(* ===================================================================== *)
(** * Part III. Further properties of the two scripts *)
(* ===================================================================== *)

(** ** The seen-id store, beyond the cap *)
Lemma sorted_is_sorted (l : list str) : StronglySorted str_le (sorted l).
Proof. apply Sorted_StronglySorted; [apply _|]. apply Sorted_merge_sort. apply _. Qed.

Lemma sorted_fixed (l : list str) : Sorted str_le l -> sorted l = l.
Proof.
  intros H. apply (Sorted_unique str_le); [apply Sorted_merge_sort; apply _|exact H|].
  apply sorted_perm.
Qed.

Lemma StronglySorted_drop (n : nat) (l : list str) :
  StronglySorted str_le l -> StronglySorted str_le (drop n l).
Proof.
  intros H. rewrite <- (take_drop n l) in H.
  by apply StronglySorted_app_1_r in H.
Qed.

(** X1. Whatever the set, [save_seen_ids] writes its identifiers one per
    line in ascending order and without repetition; of a set of more
    than 500 it writes the 500 that are greatest in the order of
    [sorted], and every identifier it leaves out is smaller than every
    one it writes. *)
Theorem save_keeps_greatest_500 (ids : gset str) :
  exists recent : list str,
    SeenStore.save_seen_ids ids = join [NL] recent ++ [NL]
    /\ length recent = Nat.min 500 (size ids)
    /\ StronglySorted str_le recent
    /\ NoDup recent
    /\ (forall x, x ∈ recent -> x ∈ ids)
    /\ (forall x y, x ∈ ids -> x ∉ recent -> y ∈ recent -> str_le x y /\ x <> y).
Proof.
  exists (last_n 500 (sorted (elements ids))).
  pose proof (sorted_is_sorted (elements ids)) as Hsorted.
  pose proof (sorted_perm (elements ids)) as Hperm.
  assert (Hnodup : NoDup (sorted (elements ids))).
  { rewrite Hperm. apply NoDup_elements. }
  assert (Hlen : length (sorted (elements ids)) = size ids).
  { by rewrite Hperm. }
  unfold SeenStore.save_seen_ids, last_n. rewrite Hlen.
  set (l := sorted (elements ids)) in *.
  set (n := (size ids - 500)%nat).
  pose proof (take_drop n l) as Hsplit.
  split; [reflexivity|]. split; [rewrite length_drop; lia|].
  split; [by apply StronglySorted_drop|].
  rewrite <- Hsplit in Hsorted, Hnodup.
  apply NoDup_app in Hnodup as (_ & Hdisj & Hnd).
  split; [exact Hnd|]. split.
  - intros x Hx. apply elem_of_elements. rewrite <- Hperm, <- Hsplit.
    apply elem_of_app. by right.
  - intros x y Hx Hnot Hy.
    assert (Hxl : x ∈ l) by (rewrite Hperm; by apply elem_of_elements).
    rewrite <- Hsplit in Hxl.
    apply elem_of_app in Hxl as [Hxt|Hxd]; [|done].
    split.
    + apply (StronglySorted_app_1_elem_of _ _ _ _ _ Hsorted Hxt Hy).
    + intros ->. by apply (Hdisj y).
Qed.

Lemma sorted_strictly (l : list str) :
  NoDup l -> StronglySorted str_le l -> StronglySorted str_lt l.
Proof.
  intros Hnd Hs. induction Hs as [|a l Hs IH Hall]; [constructor|].
  apply NoDup_cons in Hnd as [Hnot Hnd]. constructor; [by apply IH|].
  rewrite Forall_forall in *. intros b Hb. specialize (Hall b Hb).
  unfold str_lt, str_ltb. rewrite Hall. simpl.
  destruct (str_leb b a) eqn:Hba; [|done].
  assert (a = b) by (by apply str_leb_antisym). by subst b.
Qed.

(** C3 (amended). Whatever the order in which the identifiers were
    added to the set, [save_seen_ids] writes the same text: the
    identifiers one per line in strictly ascending order, all of them
    when there are at most 500 and otherwise the 500 that are greatest
    in the order of [sorted], every identifier left out being smaller
    than every one written; of 600 identifiers it writes 500.  For
    identifiers that are not empty and hold no white space, the lines
    of the file are these identifiers, and they are what the next load
    returns. *)
Theorem save_keeps_greatest_in_any_insertion_order (l l' : list str) :
  l ≡ₚ l' ->
  let ids := added_in_order l in
  SeenStore.save_seen_ids (added_in_order l') = SeenStore.save_seen_ids ids
  /\ exists recent : list str,
       SeenStore.save_seen_ids ids = join [NL] recent ++ [NL]
       /\ length recent = Nat.min 500 (size ids)
       /\ StronglySorted str_lt recent
       /\ (forall x, x ∈ recent -> x ∈ l)
       /\ (forall x y, x ∈ l -> x ∉ recent -> y ∈ recent -> str_lt x y)
       /\ (size ids = 600%nat -> length recent = 500%nat)
       /\ (Forall clean_id l ->
           SeenStore.load_seen_ids (Some (SeenStore.save_seen_ids ids))
           = list_to_set recent
           /\ (recent <> [] ->
               SeenStore.file_lines (SeenStore.save_seen_ids ids)
               = map (fun x => x ++ [NL]) recent)).
Proof.
  intros Hperm ids.
  assert (Hids : forall x, x ∈ ids <-> x ∈ l).
  { intros x. unfold ids, added_in_order. rewrite foldl_add.
    rewrite (right_id_L ∅ (∪)). apply elem_of_list_to_set. }
  split.
  { f_equal. unfold ids, added_in_order. rewrite !foldl_add.
    apply set_eq. intros x. rewrite !(right_id_L ∅ (∪)), !elem_of_list_to_set.
    by rewrite Hperm. }
  exists (last_n 500 (sorted (elements ids))).
  pose proof (sorted_is_sorted (elements ids)) as Hsorted.
  pose proof (sorted_perm (elements ids)) as Hel.
  assert (Hnodup : NoDup (sorted (elements ids))).
  { rewrite Hel. apply NoDup_elements. }
  assert (Hlen : length (sorted (elements ids)) = size ids) by (by rewrite Hel).
  unfold SeenStore.save_seen_ids, last_n. rewrite Hlen.
  set (s := sorted (elements ids)) in *.
  set (n := (size ids - 500)%nat).
  pose proof (take_drop n s) as Hsplit.
  assert (Hstrict : StronglySorted str_lt s) by (by apply sorted_strictly).
  assert (Hin : forall x, x ∈ drop n s -> x ∈ l).
  { intros x Hx. apply Hids, elem_of_elements. rewrite <- Hel. fold s.
    rewrite <- Hsplit. apply elem_of_app. by right. }
  assert (Hcount : length (drop n s) = Nat.min 500 (size ids)).
  { rewrite length_drop. lia. }
  split; [reflexivity|]. split; [exact Hcount|].
  split.
  { rewrite <- Hsplit in Hstrict. by apply StronglySorted_app_1_r in Hstrict. }
  split; [exact Hin|]. split.
  { intros x y Hx Hnot Hy.
    assert (Hxs : x ∈ s).
    { rewrite Hel. by apply elem_of_elements, Hids. }
    rewrite <- Hsplit in Hxs, Hstrict.
    apply elem_of_app in Hxs as [Hxt|Hxd]; [|done].
    apply (StronglySorted_app_1_elem_of _ _ _ _ _ Hstrict Hxt Hy). }
  split; [intros H600; rewrite Hcount, H600; reflexivity|].
  intros Hclean.
  assert (Hlines : Forall (fun x => x <> [] /\ Forall (fun c => is_space c = false) x)
                     (drop n s)).
  { apply Forall_forall. intros x Hx. rewrite Forall_forall in Hclean.
    apply (Hclean x). by apply Hin. }
  split; [by apply load_of_lines|].
  intros Hne. apply file_lines_of_join; [done|].
  eapply Forall_impl; [exact Hlines|]. intros x [_ Hx].
  eapply Forall_impl; [exact Hx|]. intros c Hc. split; intros ->; discriminate Hc.
Qed.

Lemma save_keeps_greatest_in_any_insertion_order_witness :
  let ids := added_in_order discovered in
  SeenStore.save_seen_ids (added_in_order (map mk_id (seq 0 600)))
  = SeenStore.save_seen_ids ids
  /\ exists recent : list str,
       SeenStore.save_seen_ids ids = join [NL] recent ++ [NL]
       /\ length recent = Nat.min 500 (size ids)
       /\ StronglySorted str_lt recent
       /\ (forall x, x ∈ recent -> x ∈ discovered)
       /\ (forall x y, x ∈ discovered -> x ∉ recent -> y ∈ recent -> str_lt x y)
       /\ (size ids = 600%nat -> length recent = 500%nat)
       /\ (Forall clean_id discovered ->
           SeenStore.load_seen_ids (Some (SeenStore.save_seen_ids ids))
           = list_to_set recent
           /\ (recent <> [] ->
               SeenStore.file_lines (SeenStore.save_seen_ids ids)
               = map (fun x => x ++ [NL]) recent)).
Proof.
  apply (save_keeps_greatest_in_any_insertion_order discovered (map mk_id (seq 0 600))).
  unfold discovered. rewrite map_rev. symmetry. apply Permutation_rev.
Defined.

Lemma elem_of_last_n {A} (n : nat) (l : list A) (x : A) :
  x ∈ last_n n l -> x ∈ l.
Proof.
  unfold last_n. intros H. rewrite <- (take_drop (length l - n) l).
  apply elem_of_app. by right.
Qed.

(** X2. The state file is a fixed point of a load followed by a save:
    for identifiers that are not empty and hold no white space, saving
    what was loaded from a saved file writes the same text, however many
    identifiers there were; so a run of the per-message script in which
    the search finds nothing makes one call, the search, and leaves the
    state file as it was. *)
Theorem idle_run_keeps_state (E : Env) (ids : gset str) (tr : list event)
    (returncode : Z) (out : stdout (list email_meta)) :
  (forall x, x ∈ ids -> clean_id x) ->
  SeenStore.save_seen_ids
    (SeenStore.load_seen_ids (Some (SeenStore.save_seen_ids ids)))
  = SeenStore.save_seen_ids ids
  /\ (truthy (BOT_TOKEN E) = true ->
      gog_search E tr
        [ lit "gmail"; lit "search"; Digest.SEARCH_QUERY;
          lit "--account"; ACCOUNT E; lit "--json"; lit "--results-only" ]
      = GogExit returncode out ->
      no_mail out ->
      Digest.main E (Some (SeenStore.save_seen_ids ids)) tr
      = (Ok (Some (SeenStore.save_seen_ids ids)), tr ++ [search_event E])).
Proof.
  intros Hclean.
  assert (Hfix : SeenStore.save_seen_ids
                   (SeenStore.load_seen_ids (Some (SeenStore.save_seen_ids ids)))
                 = SeenStore.save_seen_ids ids).
  { unfold SeenStore.save_seen_ids at 2.
    set (recent := last_n 500 (sorted (elements ids))).
    assert (Hsorted : StronglySorted str_le recent).
    { apply StronglySorted_drop, sorted_is_sorted. }
    assert (Hnodup : NoDup recent).
    { unfold recent, last_n.
      pose proof (NoDup_elements ids) as Hnd. rewrite <- (sorted_perm _) in Hnd.
      rewrite <- (take_drop (length (sorted (elements ids)) - 500)
                    (sorted (elements ids))) in Hnd at 1.
      by apply NoDup_app in Hnd as (_ & _ & Hnd). }
    assert (Hlen : (length recent <= 500)%nat).
    { unfold recent, last_n. rewrite length_drop. lia. }
    rewrite load_of_lines.
    2:{ apply Forall_forall. intros x Hx. apply Hclean, elem_of_elements.
        rewrite <- (sorted_perm _). by eapply elem_of_last_n. }
    unfold SeenStore.save_seen_ids.
    rewrite (sorted_of_perm _ recent) by (by apply elements_list_to_set).
    rewrite sorted_fixed by (by apply StronglySorted_Sorted).
    rewrite last_n_short by done. reflexivity. }
  split; [exact Hfix|].
  intros Htok Hreply Hout.
  unfold Digest.main. rewrite Htok. cbn [negb].
  unfold Digest.search_new_emails, run_gog, mbind, M_bind, call, lift, mret, M_ret.
  rewrite Hreply.
  destruct Hout as [-> | ->]; cbn [Digest.process_all]; unfold mret, M_ret;
    cbn [snd]; by rewrite Hfix.
Qed.

Lemma idle_run_keeps_state_witness :
  Digest.main quiet_world
    (Some (SeenStore.save_seen_ids {[ mk_id 7; mk_id 3 ]})) []
  = (Ok (Some (SeenStore.save_seen_ids {[ mk_id 7; mk_id 3 ]})),
     [] ++ [search_event quiet_world]).
Proof.
  refine (proj2 (idle_run_keeps_state quiet_world {[ mk_id 7; mk_id 3 ]} []
                   0 NotJson _) eq_refl eq_refl _).
  - intros x Hx.
    apply elem_of_union in Hx as [Hx|Hx]; apply elem_of_singleton in Hx;
      subst x; (split; [discriminate|]);
      refine (bool_decide_unpack _ _); vm_compute; exact I.
  - by left.
Defined.

Lemma drop_while_head_stop (p : char -> bool) (s : str) (c : char) :
  head (drop_while p s) = Some c -> p c = false.
Proof.
  destruct (drop_while_stop p s) as [->|(d & r & -> & Hd)]; [done|].
  by intros [= <-].
Qed.

Lemma head_app_nonempty {A} (a b : list A) : a <> [] -> head (a ++ b) = head a.
Proof. by destruct a. Qed.

Lemma last_rev_head {A} (l : list A) : last (rev l) = head l.
Proof. destruct l as [|x l]; [done|]. simpl. apply last_snoc. Qed.

Lemma strip_trimmed (s : str) : trimmed (strip s).
Proof.
  unfold strip. set (a := drop_while is_space s). split.
  - intros c Hc.
    destruct (drop_while_suffix is_space (rev a)) as (b & Hb & _).
    apply (f_equal (@rev N)) in Hb. rewrite rev_involutive, rev_app_distr in Hb.
    apply (drop_while_head_stop is_space s). fold a. rewrite Hb.
    rewrite head_app_nonempty; [done|]. intros Hnil. by rewrite Hnil in Hc.
  - intros c Hc. apply (drop_while_head_stop is_space (rev a)).
    by rewrite last_rev_head in Hc.
Qed.

(** X3. Whatever the state file holds, every identifier that
    [load_seen_ids] returns is the text of one of its lines with the
    white space at both ends removed: it is not empty, and neither
    begins nor ends with white space.  A missing file gives no
    identifier. *)
Theorem loaded_ids_are_trimmed (state_file : option str) (x : str) :
  x ∈ SeenStore.load_seen_ids state_file ->
  x <> [] /\ trimmed x
  /\ exists content line,
       state_file = Some content
       /\ line ∈ SeenStore.file_lines content /\ x = strip line.
Proof.
  destruct state_file as [content|]; simpl; [|by intros ?%not_elem_of_empty].
  rewrite elem_of_list_to_set, list_elem_of_filter, list_elem_of_fmap.
  intros [Htruthy (line & -> & Hline)]. split; [by destruct (strip line)|].
  split; [apply strip_trimmed|]. by exists content, line.
Qed.

Lemma loaded_ids_are_trimmed_witness :
  mk_id 1 <> [] /\ trimmed (mk_id 1)
  /\ exists content line,
       Some hand_written_state = Some content
       /\ line ∈ SeenStore.file_lines content /\ mk_id 1 = strip line.
Proof.
  apply (loaded_ids_are_trimmed (Some hand_written_state) (mk_id 1)).
  refine (bool_decide_unpack _ _). vm_compute. exact I.
Defined.

(** ** What the URL extractor returns *)

Lemma take_drop_while (p : char -> bool) (s : str) :
  s = take_while p s ++ drop_while p s.
Proof.
  induction s as [|c s IH]; [done|]. simpl. destruct (p c); [|done].
  simpl. by f_equal.
Qed.

Lemma occurs_in_cons (u s : str) (c : char) : occurs_in u s -> occurs_in u (c :: s).
Proof. intros (a & b & ->). by exists (c :: a), b. Qed.

Lemma findall_occurs (skip : nat) (s : str) :
  Forall (fun m => occurs_in m s) (Urls.findall_from skip s).
Proof.
  revert skip. induction s as [|c s IH]; intros skip; [constructor|].
  assert (Hrest : forall k, Forall (fun m => occurs_in m (c :: s))
                              (Urls.findall_from k s)).
  { intros k. eapply Forall_impl; [apply IH|]. intros m. apply occurs_in_cons. }
  cbn [Urls.findall_from]. destruct skip as [|k]; [|apply Hrest].
  destruct (Urls.starts_url (c :: s)); [|apply Hrest].
  constructor; [|apply Hrest].
  exists [], (drop_while Urls.url_char (c :: s)). apply take_drop_while.
Qed.

Lemma rstrip_occurs (cs u s : str) : occurs_in u s -> occurs_in (rstrip cs u) s.
Proof.
  intros (a & b & ->). unfold rstrip.
  destruct (drop_while_suffix (mem_char cs) (rev u)) as (t & Ht & _).
  apply (f_equal (@rev N)) in Ht. rewrite rev_involutive, rev_app_distr in Ht.
  exists a, (rev t ++ b). rewrite Ht at 1. by rewrite <- !app_assoc.
Qed.

Lemma candidates_occur (body_text : str) :
  Forall (fun u => occurs_in u body_text) (candidates body_text).
Proof.
  unfold candidates. apply Forall_fmap.
  eapply Forall_impl; [apply findall_occurs|]. intros m. apply rstrip_occurs.
Qed.

Lemma rstrip_prefix (cs u : str) : exists t, u = rstrip cs u ++ t.
Proof.
  unfold rstrip.
  destruct (drop_while_suffix (mem_char cs) (rev u)) as (t & Ht & _).
  apply (f_equal (@rev N)) in Ht. rewrite rev_involutive, rev_app_distr in Ht.
  by exists (rev t).
Qed.

Lemma rstrip_last (cs u : str) (c : char) :
  last (rstrip cs u) = Some c -> mem_char cs c = false.
Proof.
  unfold rstrip. rewrite last_rev_head. apply drop_while_head_stop.
Qed.

Lemma findall_chars (skip : nat) (s : str) :
  Forall (Forall (fun c => Urls.url_char c = true)) (Urls.findall_from skip s).
Proof.
  revert skip. induction s as [|c s IH]; intros skip; [constructor|].
  cbn [Urls.findall_from]. destruct skip as [|k]; [|apply IH].
  destruct (Urls.starts_url (c :: s)); [|apply IH].
  constructor; [apply take_while_Forall|apply IH].
Qed.

Lemma candidates_chars (body_text : str) :
  Forall (fun u => Forall (fun c => Urls.url_char c = true) u
                   /\ forall c, last u = Some c -> mem_char Urls.TRAILING c = false)
         (candidates body_text).
Proof.
  unfold candidates. apply Forall_fmap.
  eapply Forall_impl; [apply findall_chars|]. intros m Hm. simpl. split.
  - destruct (rstrip_prefix Urls.TRAILING m) as [t Ht]. rewrite Ht in Hm.
    by apply Forall_app in Hm as [Hm _].
  - intros c. apply rstrip_last.
Qed.

Lemma collect_zip {A B} (f : A -> result B) (l : list A) (vs : list B) :
  collect (map f l) = Ok vs -> Forall (fun uv => f uv.1 = Ok uv.2) (zip l vs).
Proof.
  revert vs. induction l as [|u l IH]; intros vs; simpl.
  - intros [= <-]. constructor.
  - destruct (f u) as [v|e] eqn:Hu; [|done]. simpl.
    destruct (collect (map f l)) as [vs'|e]; [|done]. simpl.
    intros [= <-]. constructor; [done|]. by apply IH.
Qed.

Lemma first_seen_fresh (f : str -> result (option (str * str)))
    (seen : list (str * str)) (l : list (str * option (str * str))) :
  Forall (fun uv => f uv.1 = Ok uv.2) l ->
  Forall (fun u => exists pr, (u, Some pr) ∈ l /\ pr ∉ seen) (first_seen seen l)
  /\ NoDup (map f (first_seen seen l)).
Proof.
  intros Hl. revert seen. induction Hl as [|[u [pr|]] l Hu Hl IH]; intros seen.
  - split; constructor.
  - simpl in Hu. cbn [first_seen].
    destruct (decide (pr ∈ seen)) as [Hin|Hnin].
    + rewrite bool_decide_eq_true_2 by done.
      destruct (IH seen) as [H1 H2]. split; [|done].
      eapply Forall_impl; [exact H1|]. intros v (q & Hq & Hnq).
      exists q. split; [by right|done].
    + rewrite bool_decide_eq_false_2 by done.
      destruct (IH (pr :: seen)) as [H1 H2]. split.
      * constructor; [exists pr; split; [by left|done]|].
        eapply Forall_impl; [exact H1|]. intros v (q & Hq & Hnq).
        exists q. split; [by right|]. intros Hqs. apply Hnq. by right.
      * cbn [map]. constructor; [|done]. rewrite Hu.
        intros Hin. apply list_elem_of_fmap in Hin as (v & Hv & Hvin).
        rewrite Forall_forall in H1. destruct (H1 v Hvin) as (q & Hq & Hnq).
        rewrite Forall_forall in Hl. specialize (Hl _ Hq). simpl in Hl.
        rewrite Hl in Hv. injection Hv as ->. apply Hnq. by left.
  - cbn [first_seen]. destruct (IH seen) as [H1 H2]. split; [|done].
    eapply Forall_impl; [exact H1|]. intros v (q & Hq & Hnq).
    exists q. split; [by right|done].
Qed.

(** X4. Every URL that [extract_article_urls] returns occurs in the
    body, begins with [http://] or [https://], has at least 20
    characters, none of them white space, a quote or a bracket, does not
    end in punctuation, is not a tracking URL, and has a path that does
    not end in a media extension; no two of them have the same network
    location and path, and there are no more of them than the cap (3 per
    message, 2 all at once). *)
Theorem extracted_urls_are_articles (E : Env) (max_urls : nat)
    (body_text : str) (urls : list str) :
  Urls.extract_article_urls_upto E max_urls body_text = Ok urls ->
  (length urls <= max_urls)%nat
  /\ Forall (article_url E body_text) urls
  /\ NoDup (map (accepted_pair E) urls)
  /\ NoDup urls.
Proof.
  rewrite extract_is_by_pair. unfold extract_by_pair.
  destruct (collect _) as [verdicts|e] eqn:Hcollect; [|done].
  cbn [rbind]. intros [= <-].
  apply collect_zip in Hcollect.
  destruct (first_seen_fresh (accepted_pair E) [] _ Hcollect) as [Hfresh Hnodup].
  set (kept := first_seen [] (zip (candidates body_text) verdicts)) in *.
  assert (Hpairs : NoDup (map (accepted_pair E) (take max_urls kept))).
  { eapply sublist_NoDup; [exact Hnodup|]. apply (fmap_sublist (accepted_pair E)), sublist_take. }
  split; [rewrite length_take; lia|]. split; [|split; [exact Hpairs|]].
  - apply Forall_take. eapply Forall_impl; [exact Hfresh|].
    intros u (pr & Hin & _).
    rewrite Forall_forall in Hcollect. pose proof (Hcollect _ Hin) as Hacc.
    simpl in Hacc. apply elem_of_zip_l in Hin.
    pose proof (candidates_prefixed body_text) as Hpre.
    pose proof (candidates_occur body_text) as Hocc.
    pose proof (candidates_chars body_text) as Hchars.
    rewrite Forall_forall in Hpre, Hocc, Hchars.
    revert Hacc. unfold accepted_pair.
    destruct (Nat.ltb_spec (length u) 20) as [|Hlen]; [done|].
    destruct (Urls.is_tracking_url E u) as [[|]|e] eqn:Htrack; try done.
    cbn [rbind]. destruct (Url.urlparse E u) as [p|e] eqn:Hparse; [|done].
    cbn [rbind].
    destruct (existsb _ Urls.MEDIA_EXTENSIONS) eqn:Hmedia; [done|]. intros _.
    split; [done|]. split; [by apply Hpre|]. split; [by apply Hocc|].
    split; [by apply Hchars|]. split; [by apply Hchars|].
    split; [done|]. by exists p.
  - by apply (NoDup_fmap_1 (accepted_pair E)).
Qed.

Lemma extracted_urls_are_articles_witness :
  (length [lit "https://example.com/article-one"; lit "https://example.org/second-article"]
     <= 3)%nat
  /\ Forall (article_url quiet_world body_with_media)
       [lit "https://example.com/article-one"; lit "https://example.org/second-article"]
  /\ NoDup (map (accepted_pair quiet_world)
       [lit "https://example.com/article-one"; lit "https://example.org/second-article"])
  /\ NoDup [lit "https://example.com/article-one"; lit "https://example.org/second-article"].
Proof.
  apply (extracted_urls_are_articles quiet_world 3 body_with_media).
  vm_compute. reflexivity.
Defined.

Lemma startswith_elem (s pre : str) (c : char) :
  startswith s pre = true -> c ∈ pre -> c ∈ s.
Proof.
  intros H Hc. apply startswith_app in H as [rest ->].
  apply elem_of_app. by left.
Qed.

Lemma contains_elem (pat s : str) (c : char) :
  contains pat s = true -> c ∈ pat -> c ∈ s.
Proof.
  intros H Hc. induction s as [|d s IH].
  - simpl in H. rewrite orb_false_r in H. by eapply startswith_elem.
  - simpl in H. apply orb_true_iff in H as [H|H].
    + by eapply startswith_elem.
    + right. by apply IH.
Qed.

(** The network location that [urlsplit] returns holds none of [/?#]. *)
Lemma urlsplit_netloc (E : Env) (url : str) (r : Url.ParseResult) :
  Url.urlsplit E url = Ok r -> Forall (fun c => Url.netloc_char c = true) (Url.netloc r).
Proof.
  unfold Url.urlsplit.
  destruct (Url.split_scheme (Url.remove_unsafe url)) as [sch rest].
  destruct (startswith rest (lit "//")).
  - unfold Url.splitnetloc.
    destruct (Url.check_brackets E _) as [[]|e]; [|done]. cbn [rbind].
    destruct (Url.split_off 35 _) as [u1 fragment].
    destruct (Url.split_off 63 u1) as [u2 query].
    destruct (Url.checknetloc E _) as [[]|e]; [|done]. cbn [rbind].
    intros [= <-]. apply take_while_Forall.
  - cbn [rbind].
    destruct (Url.split_off 35 _) as [u1 fragment].
    destruct (Url.split_off 63 u1) as [u2 query].
    destruct (Url.checknetloc E _) as [[]|e]; [|done]. cbn [rbind].
    intros [= <-]. constructor.
Qed.

Lemma urlparse_netloc (E : Env) (url : str) (r : Url.ParseResult) :
  Url.urlparse E url = Ok r -> Forall (fun c => Url.netloc_char c = true) (Url.netloc r).
Proof.
  unfold Url.urlparse.
  destruct (Url.urlsplit E url) as [r0|e] eqn:Hsplit; [|done].
  apply urlsplit_netloc in Hsplit. cbn [rbind].
  destruct (_ && _).
  - destruct (Url.splitparams _) as [p ps]. by intros [= <-].
  - by intros [= <-].
Qed.

(** X5. The network location of a parsed URL holds no slash, so an entry
    of [SKIP_DOMAINS] with a slash in it matches no URL: the entry
    [google.com/maps] has no effect, and a link to Google Maps is not
    taken for a tracking URL, whereas one to [play.google.com] is. *)
Theorem maps_links_are_not_skipped (E : Env) :
  (forall sd url p,
      (47 : N) ∈ sd -> Url.urlparse E url = Ok p ->
      contains sd (Url.netloc p) = false)
  /\ lit "google.com/maps" ∈ Urls.SKIP_DOMAINS
  /\ (47 : N) ∈ lit "google.com/maps"
  /\ Urls.is_tracking_url E (lit "https://www.Google.com/maps/place/Paris") = Ok false
  /\ Urls.is_tracking_url E (lit "https://play.Google.com/store") = Ok true.
Proof.
  split; [|split; [|split; [|split]]].
  - intros sd url p Hsd Hparse.
    destruct (contains sd (Url.netloc p)) eqn:Hc; [|done].
    pose proof (contains_elem _ _ _ Hc Hsd) as Hin.
    pose proof (urlparse_netloc E url p Hparse) as Hall.
    rewrite Forall_forall in Hall. by specialize (Hall _ Hin).
  - refine (bool_decide_unpack _ _). vm_compute. exact I.
  - refine (bool_decide_unpack _ _). vm_compute. exact I.
  - vm_compute. reflexivity.
  - vm_compute. reflexivity.
Qed.

(** ** Fetching the articles *)

Lemma page_article_length (E : Env) (keep : nat -> bool) (cap : nat)
    (r : get_reply) (c : str) :
  page_article E keep cap r = Some c ->
  exists text, c = take cap text /\ keep (length text) = true.
Proof.
  destruct r as [|status ct text]; [done|]. simpl.
  destruct (is_error_status status); [done|].
  destruct (_ && _); [done|].
  destruct (keep _) eqn:Hkeep; [|done]. intros [= <-]. by eexists.
Qed.

Lemma fetch_article_page (E : Env) (url : str) (tr : list event) :
  Digest.fetch_article E url tr
  = match (if contains (lit "medium.com") url
           then Digest.fetch_medium_article E url tr else (Ok None, tr)) with
    | (Ok content, t1) =>
        if Digest.some_text content then (Ok content, t1)
        else (Ok (page_article E (fun n => negb (n <? 50)%nat) 3000 (http_get E t1 url)),
              t1 ++ [HttpGet url])
    | (Raise e, t1) => (Raise e, t1)
    end.
Proof.
  unfold Digest.fetch_article, mbind, M_bind, call, mret, M_ret.
  destruct (contains _ url).
  - destruct (Digest.fetch_medium_article E url tr) as [[content|e] t1]; [|done].
    destruct (Digest.some_text content); [done|].
    destruct (http_get E t1 url) as [|status ct text]; [done|]. simpl.
    destruct (is_error_status status); [done|]. destruct (_ && _); [done|].
    by destruct (_ <? 50)%nat.
  - simpl. destruct (http_get E tr url) as [|status ct text]; [done|]. simpl.
    destruct (is_error_status status); [done|]. destruct (_ && _); [done|].
    by destruct (_ <? 50)%nat.
Qed.

Lemma fetch_all_article_page (E : Env) (url : str) (tr : list event) :
  DigestAll.fetch_article E url tr
  = match (if contains (lit "medium.com") url
           then DigestAll.fetch_medium_article E url tr else (Ok None, tr)) with
    | (Ok content, t1) =>
        if Digest.some_text content then (Ok content, t1)
        else (Ok (page_article E (fun n => (50 <? n)%nat) 2000 (http_get E t1 url)),
              t1 ++ [HttpGet url])
    | (Raise e, t1) => (Raise e, t1)
    end.
Proof.
  unfold DigestAll.fetch_article, mbind, M_bind, call, mret, M_ret.
  destruct (contains _ url).
  - destruct (DigestAll.fetch_medium_article E url tr) as [[content|e] t1]; [|done].
    by destruct (Digest.some_text content).
  - done.
Qed.

(** The Medium fetcher: one call, and an article of more than 50
    characters, cut to the cap, or nothing. *)
Lemma fetch_medium_article_run (E : Env) (url : str) (tr : list event) :
  exists content,
    Digest.fetch_medium_article E url tr = (Ok content, tr ++ [RunMediumFetch url])
    /\ forall c, content = Some c -> (50 < length c <= 3000)%nat.
Proof.
  unfold Digest.fetch_medium_article, mbind, M_bind, call, mret, M_ret.
  eexists. split; [reflexivity|]. intros c.
  destruct (medium_fetch E tr url) as [|returncode output]; [done|].
  destruct (_ && _) eqn:Hok; [|done].
  apply andb_true_iff in Hok as [_ Hlen]. apply Nat.ltb_lt in Hlen.
  intros [= <-]. rewrite length_take. unfold Digest.MAX_ARTICLE. lia.
Qed.

Lemma fetch_all_medium_article_run (E : Env) (url : str) (tr : list event) :
  exists content,
    DigestAll.fetch_medium_article E url tr = (Ok content, tr ++ [RunMediumFetch url])
    /\ forall c, content = Some c -> (50 < length c <= 2000)%nat.
Proof.
  unfold DigestAll.fetch_medium_article, mbind, M_bind, call, mret, M_ret.
  eexists. split; [reflexivity|]. intros c.
  destruct (medium_fetch E tr url) as [|returncode output]; [done|].
  destruct (_ && _) eqn:Hok; [|done].
  apply andb_true_iff in Hok as [_ Hlen]. apply Nat.ltb_lt in Hlen.
  intros [= <-]. rewrite length_take. lia.
Qed.

(** X6. [fetch_article] never raises.  It runs the Medium fetcher first
    exactly when the URL names [medium.com], and makes the HTTP request
    unless that fetcher gave an article.  An article that it returns has
    at least 50 and at most 3000 characters in the per-message script,
    and more than 50 and at most 2000 in the all-at-once script. *)
Theorem fetch_article_result (E : Env) (url : str) (tr : list event) :
  (exists content made,
      Digest.fetch_article E url tr = (Ok content, tr ++ made)
      /\ fetch_calls url content made
      /\ forall c, content = Some c -> (50 <= length c <= 3000)%nat)
  /\ (exists content made,
      DigestAll.fetch_article E url tr = (Ok content, tr ++ made)
      /\ fetch_calls url content made
      /\ forall c, content = Some c -> (50 < length c <= 2000)%nat).
Proof.
  split.
  - rewrite fetch_article_page. unfold fetch_calls.
    destruct (contains (lit "medium.com") url).
    + destruct (fetch_medium_article_run E url tr) as (content & -> & Hlen).
      destruct (Digest.some_text content) eqn:Hsome.
      * exists content, [RunMediumFetch url]. split; [done|]. split.
        -- left. split; [done|]. by destruct content.
        -- intros c Hc. specialize (Hlen c Hc). lia.
      * eexists _, [_; _]. rewrite <- app_assoc. split; [reflexivity|].
        split; [by right|]. intros c Hc.
        apply page_article_length in Hc as (text & -> & Hkeep).
        apply negb_true_iff, Nat.ltb_ge in Hkeep. rewrite length_take. lia.
    + cbn [Digest.some_text]. eexists _, [_]. split; [reflexivity|].
      split; [done|]. intros c Hc.
      apply page_article_length in Hc as (text & -> & Hkeep).
      apply negb_true_iff, Nat.ltb_ge in Hkeep. rewrite length_take. lia.
  - rewrite fetch_all_article_page. unfold fetch_calls.
    destruct (contains (lit "medium.com") url).
    + destruct (fetch_all_medium_article_run E url tr) as (content & -> & Hlen).
      destruct (Digest.some_text content) eqn:Hsome.
      * exists content, [RunMediumFetch url]. split; [done|]. split; [|done].
        left. split; [done|]. by destruct content.
      * eexists _, [_; _]. rewrite <- app_assoc. split; [reflexivity|].
        split; [by right|]. intros c Hc.
        apply page_article_length in Hc as (text & -> & Hkeep).
        apply Nat.ltb_lt in Hkeep. rewrite length_take. lia.
    + cbn [Digest.some_text]. eexists _, [_]. split; [reflexivity|].
      split; [done|]. intros c Hc.
      apply page_article_length in Hc as (text & -> & Hkeep).
      apply Nat.ltb_lt in Hkeep. rewrite length_take. lia.
Qed.

(** X7. The loop of [process_email] that fetches the articles never
    raises; the articles it collects are those of a sublist of the URLs,
    in the order of the URLs, each of 50 to 3000 characters. *)
Theorem fetched_articles_follow_urls (E : Env) (urls : list str) (tr : list event) :
  exists articles tr',
    Digest.fetch_articles E urls tr = (Ok articles, tr')
    /\ map fst articles `sublist_of` urls
    /\ Forall (fun a => (50 <= length a.2 <= 3000)%nat) articles.
Proof.
  revert tr. induction urls as [|url urls IH]; intros tr.
  - exists [], tr. by repeat split.
  - assert (Hone : exists content t1,
               Digest.fetch_article E url tr = (Ok content, t1)
               /\ forall c, content = Some c -> (50 <= length c <= 3000)%nat).
    { rewrite fetch_article_page.
      assert (Hpage : forall t1 c,
                 page_article E (fun n => negb (n <? 50)%nat) 3000 (http_get E t1 url)
                 = Some c -> (50 <= length c <= 3000)%nat).
      { intros t1 c Hc. apply page_article_length in Hc as (text & -> & Hkeep).
        apply negb_true_iff, Nat.ltb_ge in Hkeep. rewrite length_take. lia. }
      destruct (contains (lit "medium.com") url).
      - destruct (fetch_medium_article_run E url tr) as (content & -> & Hlen).
        destruct (Digest.some_text content); eexists _, _; (split; [reflexivity|]).
        + intros c Hc. specialize (Hlen c Hc). lia.
        + apply Hpage.
      - eexists _, _. split; [reflexivity|]. apply Hpage. }
    destruct Hone as (content & t1 & Hfetch & Hlen).
    destruct (IH t1) as (articles & t2 & Hrest & Hsub & Hall).
    cbn [Digest.fetch_articles]. unfold mbind, M_bind, mret, M_ret.
    rewrite Hfetch, Hrest.
    destruct content as [c|].
    + destruct (truthy c).
      * eexists _, _. split; [reflexivity|]. split.
        -- cbn [map fst]. by apply sublist_skip.
        -- constructor; [by apply Hlen|done].
      * eexists _, _. split; [reflexivity|]. split; [by apply sublist_cons|done].
    + eexists _, _. split; [reflexivity|]. split; [by apply sublist_cons|done].
Qed.

(** ** The providers *)

(** X8. When Gemini is configured and answers with a text that is not
    empty, [call_ai] returns that text after the one request to Gemini:
    DeepSeek is not called.  This holds in both scripts. *)
Theorem gemini_answer_ends_call_ai (E : Env) (prompt : str) (tr : list event)
    (status : Z) (text : str) (texts : list str) (rest : list (list str)) :
  truthy (GEMINI_KEY E) = true ->
  gemini E tr prompt = HttpResp status (Some ((text :: texts) :: rest)) ->
  is_error_status status = false ->
  truthy text = true ->
  Digest.call_ai E prompt tr = (Ok (Some text), tr ++ [PostGemini prompt])
  /\ DigestAll.call_ai E prompt tr = (Ok (Some text), tr ++ [PostGemini prompt]).
Proof.
  intros Hkey Hreply Hstatus Htext.
  assert (Hg : Digest.call_gemini E prompt tr
               = (Ok (Some text), tr ++ [PostGemini prompt])).
  { unfold Digest.call_gemini, mbind, M_bind, call, mret, M_ret.
    rewrite Hkey. cbn [negb]. by rewrite Hreply, Hstatus. }
  assert (Hga : DigestAll.call_gemini E prompt tr
                = (Ok (Some text), tr ++ [PostGemini prompt])).
  { unfold DigestAll.call_gemini, mbind, M_bind, call, mret, M_ret.
    rewrite Hkey. cbn [negb]. by rewrite Hreply, Hstatus. }
  split.
  - unfold Digest.call_ai, mbind, M_bind. rewrite Hg. cbn [Digest.some_text].
    by rewrite Htext.
  - unfold DigestAll.call_ai, mbind, M_bind. rewrite Hga. cbn [Digest.some_text].
    by rewrite Htext.
Qed.

Lemma gemini_answer_ends_call_ai_witness :
  Digest.call_ai answering_world (lit "p") []
  = (Ok (Some (lit "A summary.")), [] ++ [PostGemini (lit "p")])
  /\ DigestAll.call_ai answering_world (lit "p") []
     = (Ok (Some (lit "A summary.")), [] ++ [PostGemini (lit "p")]).
Proof.
  apply (gemini_answer_ends_call_ai answering_world (lit "p") [] 200
           (lit "A summary.") [] []); reflexivity.
Defined.

(** X9. With neither the Gemini key nor the DeepSeek key set, [call_ai]
    returns [None] without any request, in both scripts. *)
Theorem no_provider_key_no_call (E : Env) (prompt : str) (tr : list event) :
  truthy (GEMINI_KEY E) = false ->
  truthy (DEEPSEEK_KEY E) = false ->
  Digest.call_ai E prompt tr = (Ok None, tr)
  /\ DigestAll.call_ai E prompt tr = (Ok None, tr).
Proof.
  intros Hg Hd.
  unfold Digest.call_ai, DigestAll.call_ai, Digest.call_gemini, Digest.call_deepseek,
    DigestAll.call_gemini, DigestAll.call_deepseek, mbind, M_bind, mret, M_ret.
  rewrite Hg. cbn [negb Digest.some_text]. by rewrite Hd.
Qed.

Lemma no_provider_key_no_call_witness :
  Digest.call_ai quiet_world (lit "p") [] = (Ok None, [])
  /\ DigestAll.call_ai quiet_world (lit "p") [] = (Ok None, []).
Proof. apply no_provider_key_no_call; reflexivity. Defined.

(** ** The notifier of the per-message script *)

Lemma clipped_length (text : str) : (length (clipped text) <= 4000)%nat.
Proof.
  unfold clipped. destruct (Nat.ltb_spec 4000 (length text)) as [Hgt|Hle]; [|done].
  rewrite length_app, length_take.
  change (length (lit "...")) with 3%nat. lia.
Qed.

(** X10. The per-message [send_tg] never raises and posts at most twice;
    what it posts is the text, cut to 3997 characters and an ellipsis
    when it is longer than 4000, so never more than 4000 characters, and
    with the first 3997 characters of the text unchanged.  Without a bot
    token it returns false and posts nothing; it returns true only when
    the endpoint answered its last post with status 200. *)
Theorem send_tg_outcome (E : Env) (text : str) (tr : list event) :
  exists (ok : bool) (posts : list event),
    Digest.send_tg E text tr = (Ok ok, tr ++ posts)
    /\ (length posts <= 2)%nat
    /\ Forall (fun ev => exists html, ev = PostTelegram (clipped text) html) posts
    /\ (length (clipped text) <= 4000)%nat
    /\ take 3997 (clipped text) = take 3997 text
    /\ (truthy (BOT_TOKEN E) = false -> ok = false /\ posts = [])
    /\ (ok = true -> accepted_last E (clipped text) (tr ++ posts)).
Proof.
  assert (Hclip : take 3997 (clipped text) = take 3997 text).
  { unfold clipped. destruct (Nat.ltb_spec 4000 (length text)) as [Hgt|Hle]; [|done].
    rewrite take_app_le by (rewrite length_take; lia).
    rewrite take_take. f_equal. }
  unfold Digest.send_tg, mbind, M_bind, call, mret, M_ret.
  destruct (truthy (BOT_TOKEN E)) eqn:Htok; cbn [negb].
  - fold (clipped text). set (short := clipped text) in *.
    destruct (telegram E tr short true) as [|status body] eqn:H1.
    + exists false, [PostTelegram short true].
      split; [done|]. split; [simpl; lia|]. split; [repeat constructor; by eexists|].
      split; [apply clipped_length|]. by repeat split.
    + destruct (Z.eqb_spec status 200) as [->|Hne].
      * exists true, [PostTelegram short true].
        split; [done|]. split; [simpl; lia|]. split; [repeat constructor; by eexists|].
        split; [apply clipped_length|]. split; [done|]. split; [done|].
        intros _. by exists tr, true, body.
      * destruct (telegram E (tr ++ [PostTelegram short true]) short false)
          as [|status2 body2] eqn:H2.
        -- exists false, [PostTelegram short true; PostTelegram short false].
           rewrite <- app_assoc.
           split; [done|]. split; [simpl; lia|].
           split; [repeat constructor; by eexists|].
           split; [apply clipped_length|]. by repeat split.
        -- exists (status2 =? 200)%Z, [PostTelegram short true; PostTelegram short false].
           rewrite <- app_assoc.
           split; [done|]. split; [simpl; lia|].
           split; [repeat constructor; by eexists|].
           split; [apply clipped_length|]. split; [done|]. split; [done|].
           intros Hok. apply Z.eqb_eq in Hok. subst status2.
           exists (tr ++ [PostTelegram short true]), false, body2.
           by rewrite <- app_assoc.
  - exists false, []. rewrite app_nil_r.
    split; [done|]. split; [simpl; lia|]. split; [constructor|].
    split; [apply clipped_length|]. by repeat split.
Qed.

(** ** The all-at-once script *)

Lemma mark_all_trace (E : Env) (all_emails : list DigestAll.read_email)
    (tr : list event) :
  exists k : nat,
    (k <= length all_emails)%nat
    /\ (DigestAll.mark_all E all_emails tr).2 = tr ++ marks E k all_emails
    /\ ((DigestAll.mark_all E all_emails tr).1 = Ok tt -> k = length all_emails).
Proof.
  revert tr. induction all_emails as [|em rest IH]; intros tr.
  - exists 0%nat. unfold marks. simpl. rewrite app_nil_r. by repeat split.
  - cbn [DigestAll.mark_all].
    unfold mbind, M_bind, DigestAll.mark_as_read, run_gog, mbind, M_bind,
      call, lift, mret, M_ret.
    fold (mark_event E (DigestAll.r_id em)).
    destruct (gog_modify E tr _) as [|returncode out].
    + exists 1%nat. unfold marks. simpl. split; [lia|]. by split.
    + destruct (IH (tr ++ [mark_event E (DigestAll.r_id em)])) as (k & Hk & Htr & Hok).
      exists (S k). unfold marks in *. simpl. rewrite Htr, <- app_assoc.
      repeat split; [lia|]. intros H. f_equal. by apply Hok.
Qed.

Lemma marks_0 (E : Env) (all_emails : list DigestAll.read_email) :
  marks E 0 all_emails = [].
Proof. reflexivity. Qed.

(** X11. After the delivery of the digest the all-at-once script marks
    threads read in the order of [all_emails], and all of them when it
    ends without an exception or none.  When the summary is empty it
    posts the failure notice and marks nothing; when the digest fits in
    one message of 4000 characters it posts it once, and marks nothing
    if the endpoint answers with a status other than 200 or the request
    raises. *)
Theorem batch_marks_need_delivery (E : Env) (summary : option str)
    (all_emails : list DigestAll.read_email) (tr : list event) :
  exists (posts : list event) (k : nat),
    (DigestAll.deliver E summary all_emails tr).2
    = tr ++ posts ++ marks E k all_emails
    /\ Forall is_post posts
    /\ (k <= length all_emails)%nat
    /\ ((DigestAll.deliver E summary all_emails tr).1 = Ok tt ->
        k = 0%nat \/ k = length all_emails)
    /\ (Digest.some_text summary = false ->
        k = 0%nat
        /\ posts = [PostTelegram (lit "❌ AI 摘要生成失败，请稍后重试") false])
    /\ (forall s, summary = Some s -> truthy s = true ->
        (length (full_text all_emails s) <= 4000)%nat ->
        posts = [PostTelegram (full_text all_emails s) false]
        /\ (forall status body,
              telegram E tr (full_text all_emails s) false = HttpResp status body ->
              status <> 200%Z -> k = 0%nat)
        /\ (telegram E tr (full_text all_emails s) false = HttpRaise -> k = 0%nat)).
Proof.
  unfold DigestAll.deliver.
  destruct (Digest.some_text summary) eqn:Hsome.
  - destruct summary as [s|]; [|done]. cbn [Digest.some_text] in *.
    change (default [] (Some s)) with s.
    fold (full_text all_emails s). set (text := full_text all_emails s).
    unfold mbind at 1, M_bind at 1.
    unfold DigestAll.send_tg.
    destruct (Nat.ltb_spec 4000 (length text)) as [Hgt|Hle].
    + destruct (split_loop_chunked (length text) text) as (parts & Hsplit & _); [done|].
      unfold DigestAll.split_text. rewrite Hsplit.
      unfold mbind, M_bind, mret, M_ret.
      destruct (post_parts_trace E parts tr) as (n & _ & Htr & _).
      destruct (DigestAll.post_parts E parts tr) as [[[]|e] t1]; simpl in Htr; subst t1.
      * destruct (mark_all_trace E all_emails
                    (tr ++ map (fun p => PostTelegram p false) (take n parts)))
          as (k & Hk & Hm & Hok).
        eexists _, k. rewrite Hm, <- app_assoc.
        split; [reflexivity|]. split.
        { apply Forall_fmap, Forall_forall. by intros. }
        split; [done|]. split; [intros H; right; by apply Hok|].
        split; [done|]. intros s' [= <-] _ Hshort. fold text in Hshort. lia.
      * eexists _, 0%nat. rewrite marks_0, app_nil_r.
        split; [reflexivity|]. split.
        { apply Forall_fmap, Forall_forall. by intros. }
        split; [lia|]. split; [by left|]. split; [done|].
        intros s' [= <-] _ Hshort. fold text in Hshort. lia.
    + unfold mbind, M_bind, DigestAll.post_message, call, mbind, M_bind,
        lift, mret, M_ret.
      destruct (telegram E tr text false) as [|status body] eqn:Hreply.
      * exists [PostTelegram text false], 0%nat. rewrite marks_0.
        split; [done|]. split; [by repeat constructor|]. split; [lia|].
        split; [by left|]. split; [done|].
        intros s' [= <-] _ _. by repeat split.
      * destruct (Z.eqb_spec status 200) as [->|Hne].
        -- destruct (mark_all_trace E all_emails (tr ++ [PostTelegram text false]))
             as (k & Hk & Hm & Hok).
           exists [PostTelegram text false], k. rewrite Hm, <- app_assoc.
           split; [done|]. split; [by repeat constructor|]. split; [done|].
           split; [intros H; right; by apply Hok|]. split; [done|].
           intros s' [= <-] _ _. fold text. rewrite Hreply.
           split; [done|]. split; [|done].
           by intros status' body' [= <- <-] Hne.
        -- exists [PostTelegram text false], 0%nat. rewrite marks_0.
           split; [done|]. split; [by repeat constructor|]. split; [lia|].
           split; [by left|]. split; [done|].
           intros s' [= <-] _ _. by repeat split.
  - set (notice := lit "❌ AI 摘要生成失败，请稍后重试").
    assert (Hnotice : (DigestAll.send_tg E notice tr).2
                      = tr ++ [PostTelegram notice false]).
    { unfold DigestAll.send_tg.
      change (4000 <? length notice)%nat with false. cbv iota.
      unfold mbind, M_bind, DigestAll.post_message, call, mbind, M_bind,
        lift, mret, M_ret.
      by destruct (telegram E tr notice false). }
    unfold mbind, M_bind, mret, M_ret.
    destruct (DigestAll.send_tg E notice tr) as [[ok|e] t1];
      simpl in Hnotice; subst t1;
      exists [PostTelegram notice false], 0%nat; rewrite marks_0;
      (split; [done|]); (split; [by repeat constructor|]); (split; [lia|]);
      (split; [by left|]); (split; [done|]);
      intros s -> Hs; simpl in Hsome; by rewrite Hs in Hsome.
Qed.

Lemma chunked_head (text : str) (parts : list str) :
  chunked text parts ->
  match parts with
  | [] => text = []
  | p :: _ => head p = head text /\ p <> []
  end.
Proof.
  destruct 1 as [|text Hne Hle|text cut parts Hgt Hcut _]; [done|done|].
  apply cut_point_bounds in Hcut.
  destruct text as [|c text]; [simpl in Hgt; lia|].
  destruct cut as [|cut]; [lia|]. done.
Qed.

Lemma lstrip_head (cs s : str) (c : char) :
  head (lstrip cs s) = Some c -> mem_char cs c = false.
Proof. apply drop_while_head_stop. Qed.

(** X12. The loop of [send_tg] that cuts a text ends on every text.
    Every chunk but the last has between 2000 and 4000 characters, the
    last has between 1 and 4000, so a text of [n] characters is sent in
    at most [n / 2000 + 1] messages; and no chunk after the first begins
    with a line end. *)
Theorem split_text_chunk_sizes (text : str) :
  exists parts,
    DigestAll.split_text text = Some parts
    /\ Forall (fun p => (2000 <= length p <= 4000)%nat) (removelast parts)
    /\ (forall p, last parts = Some p -> (0 < length p <= 4000)%nat)
    /\ (2000 * (length parts - 1) <= length text)%nat
    /\ Forall (fun p => head p <> Some NL) (tail parts).
Proof.
  destruct (split_loop_chunked (length text) text) as (parts & Hsplit & Hch); [done|].
  exists parts. split; [exact Hsplit|]. clear Hsplit.
  induction Hch as [|text Hne Hle|text cut parts Hgt Hcut Hch IH].
  - split; [constructor|]. split; [done|]. split; [cbn [length]; lia|].
    constructor.
  - split; [constructor|]. split.
    { intros p [= <-]. destruct text; [done|]. cbn [length] in *. lia. }
    split; [cbn [length]; lia|]. constructor.
  - destruct IH as (Hinit & Hlast & Hcount & Htail).
    pose proof (cut_point_bounds _ _ Hcut) as Hb.
    pose proof (chunked_head _ _ Hch) as Hhead.
    assert (Hrest : (length (lstrip [NL] (drop cut text)) <= length text - cut)%nat).
    { unfold lstrip. pose proof (drop_while_length (mem_char [NL]) (drop cut text)) as H.
      by rewrite length_drop in H. }
    assert (Hcutlen : length (take cut text) = cut) by (rewrite length_take; lia).
    split; [|split; [|split]].
    + destruct parts as [|p parts]; [constructor|].
      change (removelast (take cut text :: p :: parts))
        with (take cut text :: removelast (p :: parts)).
      constructor; [lia|done].
    + destruct parts as [|p parts].
      * intros p [= <-]. lia.
      * intros q Hq. apply Hlast. exact Hq.
    + destruct parts as [|p parts]; [cbn [length]; lia|].
      cbn [length] in Hcount |- *. lia.
    + cbn [tail]. destruct parts as [|p parts]; [constructor|].
      constructor.
      * destruct Hhead as [Hhead _]. rewrite Hhead. intros Hnl.
        by apply lstrip_head in Hnl.
      * exact Htail.
Qed.

(** X13. When the search of the all-at-once script finds nothing (no
    JSON document, or an empty list), the script makes two calls, the
    search and the post of the notice that there is no unread mail; it
    reads no thread, asks no provider and marks nothing.  It ends
    normally unless the post raises. *)
Theorem batch_without_mail_only_notifies (E : Env) (tr : list event)
    (returncode : Z) (out : stdout (list email_meta)) :
  gog_search E tr
    [ lit "gmail"; lit "search"; lit "is:unread";
      lit "--account"; ACCOUNT E; lit "--json"; lit "--results-only" ]
  = GogExit returncode out ->
  no_mail out ->
  let notice := PostTelegram (lit "📭 没有未读邮件") false in
  (DigestAll.main E tr).2 = tr ++ [search_all_event E; notice]
  /\ ((DigestAll.main E tr).1 = Ok tt
      <-> telegram E (tr ++ [search_all_event E]) (lit "📭 没有未读邮件") false
          <> HttpRaise).
Proof.
  intros Hreply Hout notice.
  unfold DigestAll.main, run_gog, DigestAll.send_tg, DigestAll.post_message,
    mbind, M_bind, call, lift, mret, M_ret.
  rewrite Hreply. fold (search_all_event E).
  change (4000 <? length (lit "📭 没有未读邮件"))%nat with false.
  destruct Hout as [-> | ->]; cbv iota;
    destruct (telegram E _ _ false) as [|status body]; cbn [fst snd];
    rewrite <- app_assoc; (split; [done|]); split; done.
Qed.

Lemma batch_without_mail_only_notifies_witness :
  let notice := PostTelegram (lit "📭 没有未读邮件") false in
  (DigestAll.main quiet_world []).2 = [] ++ [search_all_event quiet_world; notice]
  /\ ((DigestAll.main quiet_world []).1 = Ok tt
      <-> telegram quiet_world ([] ++ [search_all_event quiet_world])
            (lit "📭 没有未读邮件") false
          <> HttpRaise).
Proof.
  apply (batch_without_mail_only_notifies quiet_world [] 0 NotJson);
    [reflexivity|by left].
Defined.

Lemma get_email_body_capped (E : Env) (args : list str) (max_body : nat)
    (tr t1 : list event) (data : Mail.email_data) :
  Mail.get_email_body_with E args max_body tr = (Ok (Some data), t1) ->
  (length (Mail.e_body data) <= max_body)%nat.
Proof.
  unfold Mail.get_email_body_with, run_gog, mbind, M_bind, call, lift, mret, M_ret.
  destruct (gog_thread E tr args) as [|returncode [|[|msg later]]]; try done.
  unfold Mail.read_message.
  destruct (Mail.extract_body E (payload msg)) as [body|e]; [|done].
  cbn [rbind]. intros [= <- _]. cbn [Mail.e_body]. rewrite length_take. lia.
Qed.

Lemma fetch_all_articles_count (E : Env) (urls : list str) (tr tr' : list event)
    (articles : list (str * str)) :
  DigestAll.fetch_articles E urls tr = (Ok articles, tr') ->
  map fst articles `sublist_of` urls.
Proof.
  revert tr tr' articles. induction urls as [|url urls IH]; intros tr tr' articles.
  - by intros [= <- _].
  - cbn [DigestAll.fetch_articles]. unfold mbind, M_bind, mret, M_ret.
    destruct (DigestAll.fetch_article E url tr) as [[content|e] t1]; [|done].
    destruct (DigestAll.fetch_articles E urls t1) as [[rest|e] t2] eqn:Hrest; [|done].
    apply IH in Hrest. intros [= <- _].
    destruct content as [c|]; [destruct (truthy c)|].
    + cbn [map fst]. by apply sublist_skip.
    + by apply sublist_cons.
    + by apply sublist_cons.
Qed.

Lemma get_all_email_body_run (E : Env) (thread_id : str) (tr : list event) :
  tr `prefix_of` (DigestAll.get_email_body E thread_id tr).2.
Proof.
  unfold DigestAll.get_email_body, Mail.get_email_body_with, run_gog,
    mbind, M_bind, call, lift, mret, M_ret.
  destruct (gog_thread E tr _) as [|code [|[|msg later]]];
    try (by eexists).
  destruct (Mail.read_message E 4000 msg); by eexists.
Qed.

Lemma fetch_all_article_emits (E : Env) (url : str) :
  emits is_fetch (DigestAll.fetch_article E url).
Proof.
  unfold DigestAll.fetch_article. apply emits_bind.
  - destruct (contains _ url); [|apply emits_ret].
    unfold DigestAll.fetch_medium_article. repeat emits_step.
  - intros c. destruct (Digest.some_text c); repeat emits_step.
Qed.

Lemma fetch_all_articles_emits (E : Env) (urls : list str) :
  emits is_fetch (DigestAll.fetch_articles E urls).
Proof.
  induction urls as [|url urls IH]; simpl; [apply emits_ret|].
  apply emits_bind; [apply fetch_all_article_emits|]. intros c.
  apply emits_bind; [apply IH|]. intros a. apply emits_ret.
Qed.

Lemma read_during_later (E : Env) (tr tr2 : list event) (meta : email_meta)
    (r : option Mail.email_data) :
  tr `prefix_of` tr2 -> read_during E tr2 meta r -> read_during E tr meta r.
Proof.
  intros Hpre (t0 & t1 & Ht0 & Hread). exists t0, t1. split; [|done].
  by etrans.
Qed.

(** X14. The loop of the all-at-once script that reads the messages
    keeps exactly the threads that the reader could read, in the order
    of the search: with the result of the reader for each listed thread,
    [all_emails] holds the identifier and the data of those for which it
    returned data, and no entry for the others.  Every entry holds the
    articles fetched from the URLs of its body, at most 2, and a body of
    at most 4000 characters. *)
Theorem read_all_keeps_readable (E : Env) (emails : list email_meta)
    (tr tr' : list event) (all_emails : list DigestAll.read_email) :
  DigestAll.read_all E emails tr = (Ok all_emails, tr') ->
  (exists reads : list (option Mail.email_data),
      Forall2 (read_during E tr) emails reads
      /\ map (fun em => (DigestAll.r_id em, DigestAll.r_data em)) all_emails
         = kept_reads emails reads)
  /\ map DigestAll.r_id all_emails `sublist_of` map meta_id emails
  /\ Forall (fun em =>
       (exists t0 t1,
           DigestAll.get_email_body E (DigestAll.r_id em) t0
           = (Ok (Some (DigestAll.r_data em)), t1))
       /\ (exists urls t0 t1,
             DigestAll.extract_article_urls E (Mail.e_body (DigestAll.r_data em))
             = Ok urls
             /\ DigestAll.fetch_articles E urls t0
                = (Ok (DigestAll.r_articles em), t1))
       /\ (length (Mail.e_body (DigestAll.r_data em)) <= 4000)%nat
       /\ (length (DigestAll.r_articles em) <= 2)%nat) all_emails.
Proof.
  revert tr tr' all_emails.
  induction emails as [|meta rest IH]; intros tr tr' all_emails.
  - intros [= <- _]. split; [by exists []|]. split; [done|constructor].
  - cbn [DigestAll.read_all]. unfold mbind at 1, M_bind at 1.
    pose proof (get_all_email_body_run E (meta_id meta) tr) as Hgrow.
    destruct (DigestAll.get_email_body E (meta_id meta) tr) as [[[data|]|e] t1]
      eqn:Hread; [| |done]; cbn [snd] in Hgrow.
    + unfold mbind, M_bind, lift, mret, M_ret.
      destruct (DigestAll.extract_article_urls E (Mail.e_body data)) as [urls|e]
        eqn:Hurls; [|done].
      destruct (fetch_all_articles_emits E urls t1) as (fetched & Hgrow2 & _).
      destruct (DigestAll.fetch_articles E urls t1) as [[articles|e] t2]
        eqn:Hfetch; [|done]. cbn [snd] in Hgrow2.
      destruct (DigestAll.read_all E rest t2) as [[others|e] t3] eqn:Hrest; [|done].
      intros [= <- _]. apply IH in Hrest as ([reads [Hreads Hkept]] & Hsub & Hall).
      split; [|split].
      * exists (Some data :: reads). split.
        -- constructor; [by exists tr, t1|].
           eapply Forall2_impl; [exact Hreads|]. intros m r.
           apply read_during_later. etrans; [exact Hgrow|].
           subst t2. by apply prefix_app_r.
        -- cbn [map kept_reads DigestAll.r_id DigestAll.r_data]. by rewrite Hkept.
      * cbn [map DigestAll.r_id]. by apply sublist_skip.
      * constructor; [|exact Hall].
        cbn [DigestAll.r_id DigestAll.r_data DigestAll.r_articles].
        split; [by exists tr, t1|].
        split; [by exists urls, t1, t2|].
        split; [by eapply get_email_body_capped|].
        apply fetch_all_articles_count, sublist_length in Hfetch.
        rewrite length_map in Hfetch.
        unfold DigestAll.extract_article_urls, Urls.extract_article_urls_upto in Hurls.
        destruct (Urls.url_loop E _ ∅ []) as [good|e]; [|done].
        cbn [rbind] in Hurls. injection Hurls as <-.
        rewrite length_take in Hfetch. lia.
    + intros Hrest. apply IH in Hrest as ([reads [Hreads Hkept]] & Hsub & Hall).
      split; [|split; [|exact Hall]].
      * exists (None :: reads). split; [|done].
        constructor; [by exists tr, t1|].
        eapply Forall2_impl; [exact Hreads|]. intros m r.
        by apply read_during_later.
      * cbn [map]. by apply sublist_cons.
Qed.

Lemma read_all_keeps_readable_witness :
  (exists reads : list (option Mail.email_data),
      Forall2 (read_during second_only_world [])
        [Meta (mk_id 1); Meta (mk_id 2); Meta (mk_id 3)] reads
      /\ map (fun em => (DigestAll.r_id em, DigestAll.r_data em))
           [DigestAll.Read (mk_id 2) first_data []]
         = kept_reads [Meta (mk_id 1); Meta (mk_id 2); Meta (mk_id 3)] reads)
  /\ map DigestAll.r_id [DigestAll.Read (mk_id 2) first_data []]
       `sublist_of` map meta_id [Meta (mk_id 1); Meta (mk_id 2); Meta (mk_id 3)]
  /\ Forall (fun em =>
       (exists t0 t1,
           DigestAll.get_email_body second_only_world (DigestAll.r_id em) t0
           = (Ok (Some (DigestAll.r_data em)), t1))
       /\ (exists urls t0 t1,
             DigestAll.extract_article_urls second_only_world
               (Mail.e_body (DigestAll.r_data em))
             = Ok urls
             /\ DigestAll.fetch_articles second_only_world urls t0
                = (Ok (DigestAll.r_articles em), t1))
       /\ (length (Mail.e_body (DigestAll.r_data em)) <= 4000)%nat
       /\ (length (DigestAll.r_articles em) <= 2)%nat)
      [DigestAll.Read (mk_id 2) first_data []].
Proof.
  eapply (read_all_keeps_readable second_only_world
            [Meta (mk_id 1); Meta (mk_id 2); Meta (mk_id 3)] []).
  vm_compute. reflexivity.
Defined.

(** ** The per-message orchestrator and the seen-id store *)

(** Whatever happens to a message, [process_email] leaves its identifier
    in the store, and adds no other. *)
Lemma process_email_store (E : Env) (meta : email_meta) (seen_ids : gset str)
    (tr : list event) (processed : bool) (seen' : gset str) (tr' : list event) :
  Digest.process_email E meta seen_ids tr = (Ok (processed, seen'), tr') ->
  seen' = {[meta_id meta]} ∪ seen_ids.
Proof.
  destruct (decide (meta_id meta ∈ seen_ids)) as [Hin|Hnew].
  - unfold Digest.process_email. rewrite bool_decide_eq_true_2 by done.
    intros [= _ <- _]. symmetry. apply subseteq_union_1_L.
    by apply singleton_subseteq_l.
  - rewrite process_email_run by done.
    destruct (Digest.get_email_body E (meta_id meta) tr) as [[[data|]|e] t1];
      [| |done].
    + destruct (Digest.extract_article_urls E (Mail.e_body data)) as [urls|e]; [|done].
      destruct (Digest.fetch_articles E urls t1) as [[articles|e] t2]; [|done].
      destruct (Digest.call_ai E _ t2) as [[summary|e] t3]; [|done].
      destruct (deliver_and_mark_run E (meta_id meta) seen_ids
                  (notification data summary) t3) as (ok & posts & _ & _ & _ & Hres).
      intros Hrun. rewrite Hrun in Hres. by specialize (Hres _ eq_refl) as [= _ ->].
    + by intros [= _ <- _].
Qed.

(** X15. A call of [process_email] that returns leaves the identifier of
    the message in the store and removes none; for a message that was
    in the store it does nothing; and a second call for the same message
    makes no call at all and returns false. *)
Theorem process_email_at_most_once (E : Env) (meta : email_meta)
    (seen_ids : gset str) (tr : list event)
    (processed : bool) (seen' : gset str) (tr' : list event) :
  Digest.process_email E meta seen_ids tr = (Ok (processed, seen'), tr') ->
  meta_id meta ∈ seen'
  /\ seen_ids ⊆ seen'
  /\ (meta_id meta ∈ seen_ids -> processed = false /\ seen' = seen_ids /\ tr' = tr)
  /\ forall tr2, Digest.process_email E meta seen' tr2 = (Ok (false, seen'), tr2).
Proof.
  intros Hrun. pose proof (process_email_store _ _ _ _ _ _ _ Hrun) as ->.
  split; [apply elem_of_union; left; by apply elem_of_singleton|].
  split; [apply union_subseteq_r|]. split.
  - intros Hin. revert Hrun. unfold Digest.process_email.
    rewrite bool_decide_eq_true_2 by done. by intros [= <- <- <-].
  - intros tr2. unfold Digest.process_email.
    rewrite bool_decide_eq_true_2; [done|].
    apply elem_of_union. left. by apply elem_of_singleton.
Qed.

Lemma process_email_at_most_once_witness :
  mk_id 1 ∈ ({[mk_id 1]} : gset str)
  /\ (∅ : gset str) ⊆ {[mk_id 1]}
  /\ (mk_id 1 ∈ (∅ : gset str) ->
      true = false /\ ({[mk_id 1]} : gset str) = ∅ /\ failed_delivery_trace = [])
  /\ forall tr2,
       Digest.process_email failing_chat_world (Meta (mk_id 1)) {[mk_id 1]} tr2
       = (Ok (false, {[mk_id 1]}), tr2).
Proof.
  apply (process_email_at_most_once failing_chat_world (Meta (mk_id 1)) ∅ []
           true {[mk_id 1]} failed_delivery_trace).
  vm_compute. reflexivity.
Defined.

Lemma process_all_store (E : Env) (emails : list email_meta) (seen_ids : gset str)
    (new_count : nat) (tr : list event) (n : nat) (seen' : gset str) (tr' : list event) :
  Digest.process_all E emails seen_ids new_count tr = (Ok (n, seen'), tr') ->
  seen' = ids_of emails ∪ seen_ids
  /\ (new_count <= n <= new_count + length emails)%nat.
Proof.
  revert seen_ids new_count tr.
  induction emails as [|meta rest IH]; intros seen_ids new_count tr.
  - intros [= <- <- _]. split; [|simpl; lia].
    unfold ids_of. simpl. by rewrite (left_id_L ∅ (∪)).
  - cbn [Digest.process_all]. unfold mbind, M_bind.
    destruct (Digest.process_email E meta seen_ids tr) as [[[processed seen1]|e] t1]
      eqn:Hone; [|done].
    apply process_email_store in Hone as ->.
    intros Hrest. apply IH in Hrest as [-> Hn]. split.
    + unfold ids_of. cbn [map list_to_set foldr].
      by rewrite (assoc_L (∪)), (comm_L (∪) (list_to_set _) {[meta_id meta]}).
    + destruct processed; simpl; lia.
Qed.

(** X16. A run of the per-message script that ends without an exception
    had a bot token, and writes as its state file the identifiers it
    loaded together with those of every thread that the search listed,
    whether or not the thread could be read or its notification was
    delivered (cut to 500 by [save_seen_ids]). *)
Theorem completed_run_stores_every_listed_id (E : Env) (state_file : option str)
    (tr : list event) (written : option str) (tr' : list event) :
  Digest.main E state_file tr = (Ok written, tr') ->
  truthy (BOT_TOKEN E) = true
  /\ exists returncode out,
       gog_search E tr
         [ lit "gmail"; lit "search"; Digest.SEARCH_QUERY;
           lit "--account"; ACCOUNT E; lit "--json"; lit "--results-only" ]
       = GogExit returncode out
       /\ written = Some (SeenStore.save_seen_ids
                            (ids_of (listed out) ∪ SeenStore.load_seen_ids state_file)).
Proof.
  unfold Digest.main. destruct (truthy (BOT_TOKEN E)); [|done]. cbn [negb].
  unfold Digest.search_new_emails, run_gog, mbind, M_bind, call, lift, mret, M_ret.
  destruct (gog_search E tr _) as [|returncode out] eqn:Hreply; [done|].
  fold (listed out).
  destruct (Digest.process_all E (listed out) _ 0 _) as [[[n seen']|e] t1] eqn:Hall;
    [|done].
  apply process_all_store in Hall as [-> _].
  intros [= <- _]. split; [done|]. by exists returncode, out.
Qed.

Lemma completed_run_stores_every_listed_id_witness :
  truthy (BOT_TOKEN listing_world) = true
  /\ exists returncode out,
       gog_search listing_world []
         [ lit "gmail"; lit "search"; Digest.SEARCH_QUERY;
           lit "--account"; ACCOUNT listing_world; lit "--json";
           lit "--results-only" ]
       = GogExit returncode out
       /\ Some (mk_id 1 ++ [NL])
          = Some (SeenStore.save_seen_ids
                    (ids_of (listed out) ∪ SeenStore.load_seen_ids None)).
Proof.
  apply (completed_run_stores_every_listed_id listing_world None []
           (Some (mk_id 1 ++ [NL]))
           (search_event listing_world :: failed_delivery_trace)).
  vm_compute. reflexivity.
Defined.

(** ** The mail reader *)

Lemma visit_decodable (p : part) (st st1 : str * str) :
  (if truthy (body_data p)
   then rbind (Base64.decode_text (body_data p)) (fun decoded =>
        Ok (Mail.assign (mimeType p) decoded st))
   else Ok st) = Ok st1 ->
  decodable p.
Proof.
  intros H Hdata. rewrite Hdata in H.
  destruct (Base64.decode_text (body_data p)) as [d|e]; [by exists d|done].
Qed.

Lemma extract_parts_decodable (ps : list part) :
  Forall (fun q => forall st st', Mail.extract_part q st = Ok st' ->
                                  Forall decodable (preorder_part q)) ps ->
  forall st st', Mail.extract_parts ps st = Ok st' -> Forall decodable (preorder ps).
Proof.
  induction 1 as [|q qs Hq _ IH]; intros st st'; simpl; [constructor|].
  destruct (Mail.extract_part q st) as [st1|e] eqn:H1; [|done].
  simpl. intros H2. apply Forall_app. split; [by eapply Hq|by eapply IH].
Qed.

(** A walk that returns has decoded the data of every part. *)
Lemma extract_part_decodable (p : part) (st st' : str * str) :
  Mail.extract_part p st = Ok st' -> Forall decodable (preorder_part p).
Proof.
  revert st st'. induction p as [mime hs data|mime hs data ps IH] using part_nested_ind;
    intros st st'.
  - simpl. destruct (if truthy data then _ else _) as [st1|e] eqn:H1; [|done].
    intros _. constructor; [|constructor].
    exact (visit_decodable (Part mime hs data None) st st1 H1).
  - rewrite extract_part_node, preorder_part_node.
    destruct (if truthy data then _ else _) as [st1|e] eqn:H1; [|done].
    simpl. intros H2. constructor.
    + exact (visit_decodable (Part mime hs data (Some ps)) st st1 H1).
    + by eapply extract_parts_decodable.
Qed.

(** The decoder raises nothing but the two errors of [base64]. *)
Lemma decode_text_raises (data : str) (e : exn) :
  Base64.decode_text data = Raise e -> e = BinasciiError \/ e = ValueError.
Proof.
  unfold Base64.decode_text, Base64.urlsafe_b64decode, Base64.a2b_base64.
  destruct (forallb _ data); [|intros [= <-]; by right].
  destruct (Base64.finished _); [done|].
  destruct (Base64.quad_pos _); [done|]. intros [= <-]. by left.
Qed.

Lemma visit_raises (p : part) (st : str * str) (e : exn) :
  (if truthy (body_data p)
   then rbind (Base64.decode_text (body_data p)) (fun decoded =>
        Ok (Mail.assign (mimeType p) decoded st))
   else Ok st) = Raise e ->
  e = BinasciiError \/ e = ValueError.
Proof.
  destruct (truthy (body_data p)); [|done].
  destruct (Base64.decode_text (body_data p)) as [d|e'] eqn:Hd; [done|].
  intros [= <-]. by eapply decode_text_raises.
Qed.

Lemma extract_parts_raises (ps : list part) (e : exn) :
  Forall (fun q => forall st, Mail.extract_part q st = Raise e ->
                              e = BinasciiError \/ e = ValueError) ps ->
  forall st, Mail.extract_parts ps st = Raise e -> e = BinasciiError \/ e = ValueError.
Proof.
  induction 1 as [|q qs Hq _ IH]; intros st; simpl; [done|].
  destruct (Mail.extract_part q st) as [st1|e'] eqn:H1.
  - simpl. apply IH.
  - simpl. intros [= <-]. by eapply Hq.
Qed.

Lemma extract_part_raises (p : part) (st : str * str) (e : exn) :
  Mail.extract_part p st = Raise e -> e = BinasciiError \/ e = ValueError.
Proof.
  revert st. induction p as [mime hs data|mime hs data ps IH] using part_nested_ind;
    intros st.
  - simpl. destruct (if truthy data then _ else _) as [st1|e'] eqn:H1; [done|].
    simpl. intros [= <-]. exact (visit_raises (Part mime hs data None) st e' H1).
  - rewrite extract_part_node.
    destruct (if truthy data then _ else _) as [st1|e'] eqn:H1.
    + simpl. by apply extract_parts_raises.
    + simpl. intros [= <-].
      exact (visit_raises (Part mime hs data (Some ps)) st e' H1).
Qed.

(** X17. The reader decodes the data of every part of a multipart
    message, also of the parts it does not use, and outside any [try]:
    when the data of one part, anywhere in the tree, are not valid
    base64, the extraction raises the error of [base64], and
    [process_email] ends with that exception after the read of the
    thread, with no notification sent and the message not recorded. *)
Theorem undecodable_part_aborts (E : Env) (meta : email_meta) (seen_ids : gset str)
    (tr : list event) (returncode : Z) (msg : message) (later : list message)
    (ps : list part) (bad : part) :
  meta_id meta ∉ seen_ids ->
  gog_thread E tr
    [ lit "gmail"; lit "thread"; meta_id meta;
      lit "--account"; ACCOUNT E; lit "--json"; lit "--results-only" ]
  = GogExit returncode (Json (msg :: later)) ->
  parts (payload msg) = Some ps ->
  bad ∈ preorder ps ->
  undecodable bad ->
  exists e,
    Mail.extract_body E (payload msg) = Raise e
    /\ Digest.process_email E meta seen_ids tr
       = (Raise e, tr ++ [read_event E (meta_id meta)])
    /\ (e = BinasciiError \/ e = ValueError).
Proof.
  intros Hnew Hreply Hparts Hbad [Hdata [e0 He0]].
  assert (Hwalk : exists e, Mail.extract_parts ps ([], []) = Raise e).
  { destruct (Mail.extract_parts ps ([], [])) as [st'|e] eqn:Hwalk; [|by exists e].
    apply extract_parts_decodable in Hwalk.
    - rewrite Forall_forall in Hwalk. destruct (Hwalk bad Hbad Hdata) as [d Hd].
      by rewrite Hd in He0.
    - apply Forall_forall. intros q _ st st1. apply extract_part_decodable. }
  destruct Hwalk as [e Hwalk]. exists e.
  assert (Hbody : Mail.extract_body E (payload msg) = Raise e).
  { unfold Mail.extract_body, Mail.extract_bodies. by rewrite Hparts, Hwalk. }
  split; [exact Hbody|]. split.
  - rewrite process_email_run by done.
    unfold Digest.get_email_body, Mail.get_email_body_with, run_gog,
      mbind, M_bind, call, lift, mret, M_ret.
    rewrite Hreply. unfold Mail.read_message. by rewrite Hbody.
  - apply (extract_parts_raises ps e) with (st := ([], [])); [|exact Hwalk].
    apply Forall_forall. intros q _ st. apply extract_part_raises.
Qed.

Lemma undecodable_part_aborts_witness :
  exists e,
    Mail.extract_body broken_world broken_payload = Raise e
    /\ Digest.process_email broken_world (Meta (mk_id 1)) ∅ []
       = (Raise e, [] ++ [read_event broken_world (mk_id 1)])
    /\ (e = BinasciiError \/ e = ValueError).
Proof.
  apply (undecodable_part_aborts broken_world (Meta (mk_id 1)) ∅ [] 0
           (Message broken_payload (lit "hi")) []
           [plain_hi; broken_attachment] broken_attachment).
  - apply not_elem_of_empty.
  - reflexivity.
  - reflexivity.
  - cbn [preorder preorder_part plain_hi broken_attachment app].
    apply list_elem_of_In. right. by left.
  - split; [reflexivity|]. exists BinasciiError. vm_compute. reflexivity.
Defined.

Lemma collect_headers_snoc (E : Env) (hs : list (str * str)) (h : str * str) :
  Mail.collect_headers E (hs ++ [h])
  = let d := Mail.collect_headers E hs in
    if bool_decide (lower E h.1 ∈ Mail.HEADER_NAMES)
    then <[lower E h.1 := h.2]> d else d.
Proof. unfold Mail.collect_headers. by rewrite foldl_app. Qed.

Lemma collect_headers_lookup (E : Env) (hs : list (str * str)) (name : str) :
  name ∈ Mail.HEADER_NAMES ->
  Mail.collect_headers E hs !! name
  = last (map snd (filter (fun h => lower E h.1 = name) hs)).
Proof.
  intros Hname. induction hs as [|h hs IH] using rev_ind; [done|].
  rewrite collect_headers_snoc, filter_app, map_app. cbv zeta.
  destruct (decide (lower E h.1 = name)) as [Heq|Hne].
  - rewrite filter_cons_True by done. rewrite filter_nil.
    change (map snd [h]) with [h.2]. rewrite last_snoc.
    rewrite bool_decide_eq_true_2 by (by rewrite Heq).
    rewrite Heq. apply lookup_insert_eq.
  - rewrite filter_cons_False by done. rewrite filter_nil, app_nil_r.
    destruct (bool_decide _); [|exact IH].
    rewrite lookup_insert_ne by done. exact IH.
Qed.

(** X18. The sender, subject and date that the reader returns are the
    values of the last header of the first message whose name is, in
    any letter case, [from], [subject] or [date]; the empty text when
    the message has no such header. *)
Theorem headers_last_wins (E : Env) (max_body : nat) (msg : message)
    (data : Mail.email_data) :
  Mail.read_message E max_body msg = Ok data ->
  let hs := headers (payload msg) in
  Mail.e_from data = last_header E (lit "from") hs
  /\ Mail.e_subject data = last_header E (lit "subject") hs
  /\ Mail.e_date data = last_header E (lit "date") hs.
Proof.
  unfold Mail.read_message.
  destruct (Mail.extract_body E (payload msg)) as [body|e]; [|done].
  cbn [rbind]. intros [= <-]. cbn [Mail.e_from Mail.e_subject Mail.e_date].
  unfold last_header.
  rewrite !collect_headers_lookup; [done| | |];
    refine (bool_decide_unpack _ _); vm_compute; exact I.
Qed.

Lemma headers_last_wins_witness :
  let data := Mail.Email (lit "a@example.com") (lit "second") [] (lit "hi") (lit "hi") in
  let hs := headers (payload twice_subject) in
  Mail.e_from data = last_header quiet_world (lit "from") hs
  /\ Mail.e_subject data = last_header quiet_world (lit "subject") hs
  /\ Mail.e_date data = last_header quiet_world (lit "date") hs.
Proof.
  apply (headers_last_wins quiet_world 5000 twice_subject).
  vm_compute. reflexivity.
Defined.

(** ** The size of the prompt and the number of calls *)

Lemma join_cons_length (sep x : str) (l : list str) :
  l <> [] -> length (join sep (x :: l)) = (length x + length sep + length (join sep l))%nat.
Proof. destruct l; [done|]. intros _. cbn [join]. rewrite !length_app. lia. Qed.

Lemma prompt_head_split (data : Mail.email_data) :
  length (Digest.prompt_head data)
  = (length (Digest.prompt_head (Mail.Email [] [] [] [] []))
     + length (Mail.e_from data) + length (Mail.e_subject data)
     + length (Mail.e_date data) + Nat.min 3000 (length (Mail.e_body data)))%nat.
Proof.
  unfold Digest.prompt_head.
  repeat (rewrite join_cons_length by discriminate).
  cbn [join Mail.e_from Mail.e_subject Mail.e_date Mail.e_body].
  rewrite !length_app, !length_take. cbn [length app]. lia.
Qed.

(** The prompt without articles: 117 characters of instructions and
    labels, the three headers, and at most 3000 characters of body. *)
Lemma prompt_head_length (data : Mail.email_data) :
  length (Digest.prompt_head data)
  = (117 + length (Mail.e_from data) + length (Mail.e_subject data)
     + length (Mail.e_date data) + Nat.min 3000 (length (Mail.e_body data)))%nat.
Proof.
  assert (Hfixed : length (Digest.prompt_head (Mail.Email [] [] [] [] [])) = 117%nat)
    by (vm_compute; reflexivity).
  by rewrite prompt_head_split, Hfixed.
Qed.

Lemma str_of_nat_digit (n : nat) : (n < 10)%nat -> length (str_of_nat n) = 1%nat.
Proof.
  intros H. do 10 (destruct n as [|n]; [reflexivity|]). lia.
Qed.

Lemma prompt_articles_length (i : nat) (articles : list (str * str)) :
  (i + length articles <= 10)%nat ->
  (length (Digest.prompt_articles i articles) <= 1589 * length articles)%nat.
Proof.
  revert i. induction articles as [|a rest IH]; intros i Hi.
  - cbn [Digest.prompt_articles length]. lia.
  - cbn [length] in Hi. cbn [Digest.prompt_articles].
    rewrite !length_app, !length_take, str_of_nat_digit by lia.
    change (length [NL; NL]) with 2%nat. change (length [NL]) with 1%nat.
    change (length (lit "[文章")) with 3%nat. change (length (lit "] ")) with 2%nat.
    specialize (IH (S i)). cbn [length]. lia.
Qed.

Lemma fetch_articles_sublist (E : Env) (urls : list str) (tr tr' : list event)
    (articles : list (str * str)) :
  Digest.fetch_articles E urls tr = (Ok articles, tr') ->
  map fst articles `sublist_of` urls.
Proof.
  revert tr tr' articles. induction urls as [|url urls IH]; intros tr tr' articles.
  - by intros [= <- _].
  - cbn [Digest.fetch_articles]. unfold mbind, M_bind, mret, M_ret.
    destruct (Digest.fetch_article E url tr) as [[content|e] t1]; [|done].
    destruct (Digest.fetch_articles E urls t1) as [[rest|e] t2] eqn:Hrest; [|done].
    apply IH in Hrest. intros [= <- _].
    destruct content as [c|]; [destruct (truthy c)|].
    + cbn [map fst]. by apply sublist_skip.
    + by apply sublist_cons.
    + by apply sublist_cons.
Qed.

(** X19. The prompt that [process_email] builds holds at most 3
    articles, and at most 7895 characters besides the sender, the
    subject and the date of the message: 3000 of the body, and 4895 of
    instructions, labels and articles. *)
Theorem summary_prompt_size (E : Env) (data : Mail.email_data)
    (urls : list str) (tr tr' : list event) (articles : list (str * str)) :
  Digest.extract_article_urls E (Mail.e_body data) = Ok urls ->
  Digest.fetch_articles E urls tr = (Ok articles, tr') ->
  (length articles <= 3)%nat
  /\ (length (Digest.build_summary_prompt data articles)
      <= length (Mail.e_from data) + length (Mail.e_subject data)
         + length (Mail.e_date data) + 3000 + 4895)%nat.
Proof.
  intros Hurls Hfetch.
  assert (Hcount : (length articles <= 3)%nat).
  { apply fetch_articles_sublist, sublist_length in Hfetch.
    rewrite length_map in Hfetch.
    unfold Digest.extract_article_urls, Urls.extract_article_urls_upto in Hurls.
    destruct (Urls.url_loop E _ ∅ []) as [good|e]; [|done].
    cbn [rbind] in Hurls. injection Hurls as <-.
    rewrite length_take in Hfetch. unfold Digest.MAX_URLS in Hfetch. lia. }
  split; [exact Hcount|].
  pose proof (prompt_head_length data) as Hhead.
  unfold Digest.build_summary_prompt. destruct articles as [|a rest]; [lia|].
  pose proof (prompt_articles_length 1 (a :: rest)) as Hart.
  rewrite !length_app.
  change (length [NL; NL]) with 2%nat.
  change (length (lit "📎 链接文章内容:")) with 9%nat.
  lia.
Qed.

(** The bound is attained by a message with a long body and three long
    articles. *)
Lemma summary_prompt_size_witness :
  Digest.extract_article_urls pages_world (Mail.e_body linked_data) = Ok three_links
  /\ Digest.fetch_articles pages_world three_links []
     = (Ok linked_articles, map HttpGet three_links)
  /\ ((length linked_articles <= 3)%nat
      /\ (length (Digest.build_summary_prompt linked_data linked_articles)
          <= length (Mail.e_from linked_data) + length (Mail.e_subject linked_data)
             + length (Mail.e_date linked_data) + 3000 + 4895)%nat)
  /\ length (Digest.build_summary_prompt linked_data linked_articles)
     = (length (Mail.e_from linked_data) + length (Mail.e_subject linked_data)
        + length (Mail.e_date linked_data) + 3000 + 4895)%nat.
Proof.
  assert (Hurls : Digest.extract_article_urls pages_world (Mail.e_body linked_data)
                  = Ok three_links) by (vm_compute; reflexivity).
  assert (Hfetch : Digest.fetch_articles pages_world three_links []
                   = (Ok linked_articles, map HttpGet three_links))
    by (vm_compute; reflexivity).
  split; [exact Hurls|]. split; [exact Hfetch|]. split.
  - exact (summary_prompt_size pages_world linked_data three_links []
             (map HttpGet three_links) linked_articles Hurls Hfetch).
  - vm_compute. reflexivity.
Defined.

Lemma fetch_article_calls (E : Env) (url : str) (tr : list event) :
  exists made, (Digest.fetch_article E url tr).2 = tr ++ made
               /\ Forall is_fetch made /\ (length made <= 2)%nat.
Proof.
  rewrite fetch_article_page.
  destruct (contains (lit "medium.com") url).
  - destruct (fetch_medium_article_run E url tr) as (content & -> & _).
    destruct (Digest.some_text content).
    + exists [RunMediumFetch url]. split; [done|]. split; [by repeat constructor|].
      simpl. lia.
    + exists [RunMediumFetch url; HttpGet url]. rewrite <- app_assoc.
      split; [done|]. split; [by repeat constructor|]. simpl. lia.
  - exists [HttpGet url]. split; [done|]. split; [by repeat constructor|]. simpl. lia.
Qed.

Lemma fetch_articles_calls (E : Env) (urls : list str) (tr : list event) :
  exists made, (Digest.fetch_articles E urls tr).2 = tr ++ made
               /\ Forall is_fetch made /\ (length made <= 2 * length urls)%nat.
Proof.
  revert tr. induction urls as [|url urls IH]; intros tr.
  - exists []. rewrite app_nil_r. split; [done|]. split; [constructor|simpl; lia].
  - cbn [Digest.fetch_articles]. unfold mbind, M_bind, mret, M_ret.
    destruct (fetch_article_calls E url tr) as (m1 & H1 & Hf1 & Hl1).
    destruct (Digest.fetch_article E url tr) as [[content|e] t1]; simpl in H1; subst t1.
    + destruct (IH (tr ++ m1)) as (m2 & H2 & Hf2 & Hl2).
      destruct (Digest.fetch_articles E urls (tr ++ m1)) as [[rest|e] t2];
        simpl in H2; subst t2; exists (m1 ++ m2); rewrite app_assoc;
        (split; [done|]); (split; [by apply Forall_app|]);
        rewrite length_app; cbn [length]; lia.
    + exists m1. split; [done|]. split; [done|]. cbn [length]. lia.
Qed.

Lemma call_ai_calls (E : Env) (prompt : str) (tr : list event) :
  exists made, (Digest.call_ai E prompt tr).2 = tr ++ made
               /\ Forall is_provider_call made /\ (length made <= 2)%nat.
Proof.
  unfold Digest.call_ai, Digest.call_gemini, Digest.call_deepseek,
    mbind, M_bind, call, mret, M_ret.
  destruct (negb (truthy (GEMINI_KEY E))), (negb (truthy (DEEPSEEK_KEY E)));
    cbn [Digest.some_text];
    repeat match goal with
           | |- context [Digest.some_text ?x] => destruct (Digest.some_text x)
           end;
    first [ exists []; rewrite app_nil_r; split; [done|]; split; [constructor|simpl; lia]
          | eexists [_]; split; [done|]; split; [by repeat constructor|simpl; lia]
          | eexists [_; _]; rewrite <- app_assoc; split; [done|];
            split; [by repeat constructor|simpl; lia] ].
Qed.

Lemma send_tg_calls (E : Env) (text : str) (tr : list event) (r : result bool)
    (posts : list event) :
  Digest.send_tg E text tr = (r, tr ++ posts) -> (length posts <= 2)%nat.
Proof.
  unfold Digest.send_tg, mbind, M_bind, call, mret, M_ret.
  destruct (negb _).
  { intros [= _ H]. rewrite <- (app_nil_r tr) in H at 1.
    apply app_inv_head in H. subst posts. simpl. lia. }
  destruct (telegram E tr _ true) as [|status body].
  { intros [= _ H]. apply app_inv_head in H. subst posts. simpl. lia. }
  destruct (status =? 200)%Z.
  { intros [= _ H]. apply app_inv_head in H. subst posts. simpl. lia. }
  intros [= _ H]. rewrite <- app_assoc in H.
  apply app_inv_head in H. subst posts. simpl. lia.
Qed.

Lemma extract_article_urls_count (E : Env) (body_text : str) (urls : list str) :
  Digest.extract_article_urls E body_text = Ok urls -> (length urls <= 3)%nat.
Proof.
  unfold Digest.extract_article_urls, Urls.extract_article_urls_upto.
  destruct (Urls.url_loop E _ ∅ []) as [good|e]; [|done].
  cbn [rbind]. intros [= <-]. rewrite length_take. unfold Digest.MAX_URLS. lia.
Qed.

Ltac stages_solve :=
  unfold stages_of; cbn [s_read s_fetched s_asked s_posts s_marked];
  repeat apply conj;
  first [ by left | by right | done | by constructor | cbn [length]; lia ].

(** X20. Whatever the outside world answers, one call of [process_email]
    makes at most 12 calls, in this order: the read of the thread, at
    most 6 fetches, at most 2 requests to the providers, at most 2
    posts, and at most one call that marks the thread read. *)
Theorem process_email_calls (E : Env) (meta : email_meta) (seen_ids : gset str)
    (tr : list event) :
  exists s : stages,
    (Digest.process_email E meta seen_ids tr).2 = tr ++ stage_calls s
    /\ stages_of E (meta_id meta) s
    /\ (length (stage_calls s) <= 12)%nat.
Proof.
  assert (Hlen : forall s, stages_of E (meta_id meta) s ->
                           (length (stage_calls s) <= 12)%nat).
  { intros [r f a p m] (Hr & _ & Hf & _ & Ha & _ & Hp & Hm).
    unfold stage_calls. cbn [s_read s_fetched s_asked s_posts s_marked] in *.
    rewrite !length_app.
    destruct Hr as [-> | ->], Hm as [-> | ->]; cbn [length]; lia. }
  assert (Hshape : exists s : stages,
             (Digest.process_email E meta seen_ids tr).2 = tr ++ stage_calls s
             /\ stages_of E (meta_id meta) s).
  { destruct (decide (meta_id meta ∈ seen_ids)) as [Hin|Hnew].
    { unfold Digest.process_email. rewrite bool_decide_eq_true_2 by done.
      exists (Stages [] [] [] [] []). split; [|stages_solve].
      unfold stage_calls. simpl. by rewrite app_nil_r. }
    set (rd := read_event E (meta_id meta)).
    assert (Hread_only : tr ++ [rd] = tr ++ stage_calls (Stages [rd] [] [] [] [])
                         /\ stages_of E (meta_id meta) (Stages [rd] [] [] [] [])).
    { split; [|stages_solve]. unfold stage_calls. simpl. done. }
    rewrite process_email_run by done.
    pose proof (get_email_body_run E (meta_id meta) tr) as H1. fold rd in H1.
    destruct (Digest.get_email_body E (meta_id meta) tr) as [[[data|]|e] t1];
      simpl in H1; subst t1; [|by eexists|by eexists].
    destruct (Digest.extract_article_urls E (Mail.e_body data)) as [urls|e] eqn:Hurls;
      [|by eexists].
    apply extract_article_urls_count in Hurls.
    destruct (fetch_articles_calls E urls (tr ++ [rd])) as (fetched & H2 & Hf & Hfl).
    destruct (Digest.fetch_articles E urls (tr ++ [rd])) as [[articles|e] t2];
      simpl in H2; subst t2.
    2:{ exists (Stages [rd] fetched [] [] []). split; [|stages_solve].
        unfold stage_calls. simpl. by rewrite app_nil_r, <- app_assoc. }
    destruct (call_ai_calls E (Digest.build_summary_prompt data articles)
                ((tr ++ [rd]) ++ fetched)) as (asked & H3 & Ha & Hal).
    destruct (Digest.call_ai E _ _) as [[summary|e] t3]; simpl in H3; subst t3.
    2:{ exists (Stages [rd] fetched asked [] []). split; [|stages_solve].
        unfold stage_calls. simpl. by rewrite app_nil_r, <- !app_assoc. }
    destruct (deliver_and_mark_run E (meta_id meta) seen_ids
                (notification data summary) (((tr ++ [rd]) ++ fetched) ++ asked))
      as (ok & posts & Hsend & Hposts & Htr & _).
    apply send_tg_calls in Hsend. rewrite Htr.
    exists (Stages [rd] fetched asked posts
              (if ok then [mark_event E (meta_id meta)] else [])).
    split; [|destruct ok; stages_solve].
    unfold stage_calls. simpl. by rewrite <- !app_assoc. }
  destruct Hshape as (s & Htr & Hs). exists s. split; [done|]. split; [done|].
  by apply Hlen.
Qed.

(** ** The key of the deduplication *)

Lemma split_scheme_http (rest : str) :
  Url.split_scheme (Url.remove_unsafe (lit "http://" ++ rest))
  = (lit "http", 47 :: 47 :: kept_chars rest).
Proof.
  unfold Url.remove_unsafe, kept_chars. rewrite http_lit.
  cbn [app drop_while N.leb N.compare Pos.compare Pos.compare_cont].
  by rewrite !filter_cons_True by done.
Qed.

Lemma split_scheme_https (rest : str) :
  Url.split_scheme (Url.remove_unsafe (lit "https://" ++ rest))
  = (lit "https", 47 :: 47 :: kept_chars rest).
Proof.
  unfold Url.remove_unsafe, kept_chars. rewrite https_lit.
  cbn [app drop_while N.leb N.compare Pos.compare Pos.compare_cont].
  by rewrite !filter_cons_True by done.
Qed.

Lemma urlparse_https_of_http (E : Env) (rest : str) (p : Url.ParseResult) :
  Url.urlparse E (lit "http://" ++ rest) = Ok p ->
  Url.scheme p = lit "http"
  /\ Url.urlparse E (lit "https://" ++ rest)
     = Ok (Url.Parsed (lit "https") (Url.netloc p) (Url.path p)
             (Url.params p) (Url.query p) (Url.fragment p)).
Proof.
  unfold Url.urlparse, Url.urlsplit.
  rewrite split_scheme_http, split_scheme_https.
  change (startswith (47 :: 47 :: kept_chars rest) (lit "//")) with true. cbv iota.
  destruct (Url.splitnetloc _) as [host r].
  destruct (Url.check_brackets E host) as [[]|e]; [|done]. cbn [rbind].
  destruct (Url.split_off 35 r) as [u1 fragment].
  destruct (Url.split_off 63 u1) as [u2 query].
  destruct (Url.checknetloc E host) as [[]|e]; [|done]. cbn [rbind Url.scheme Url.netloc Url.path Url.query Url.fragment].
  assert (Hhttp : bool_decide (lit "http" ∈ Url.uses_params) = true)
    by (vm_compute; reflexivity).
  assert (Hhttps : bool_decide (lit "https" ∈ Url.uses_params) = true)
    by (vm_compute; reflexivity).
  rewrite Hhttp, Hhttps. cbn [andb].
  destruct (mem_char u2 59).
  - destruct (Url.splitparams u2) as [pa ps]. by intros [= <-].
  - by intros [= <-].
Qed.

(** X21. The key by which [extract_article_urls] recognises a URL that
    it has seen does not depend on the scheme: when the loop accepts
    both [http://] and [https://] followed by the same text, the two
    keys are equal, so only the first of the two is returned. *)
Theorem scheme_does_not_change_key (E : Env) (rest k1 k2 : str) :
  Urls.url_key E (lit "http://" ++ rest) = Ok (Some k1) ->
  Urls.url_key E (lit "https://" ++ rest) = Ok (Some k2) ->
  k1 = k2.
Proof.
  unfold Urls.url_key.
  destruct (length (lit "http://" ++ rest) <? 20)%nat; [done|].
  destruct (length (lit "https://" ++ rest) <? 20)%nat; [done|].
  destruct (Urls.is_tracking_url E (lit "http://" ++ rest)) as [[|]|e]; try done.
  destruct (Urls.is_tracking_url E (lit "https://" ++ rest)) as [[|]|e]; try done.
  cbn [rbind].
  destruct (Url.urlparse E (lit "http://" ++ rest)) as [p|e] eqn:Hp; [|done].
  apply urlparse_https_of_http in Hp as [_ ->]. cbn [rbind Url.netloc Url.path].
  destruct (existsb _ Urls.MEDIA_EXTENSIONS); [done|].
  by intros [= <-] [= <-].
Qed.

Lemma scheme_does_not_change_key_witness :
  Urls.url_key quiet_world (lit "http://" ++ lit "example.com/some-article")
  = Ok (Some (lit "example.com/some-article"))
  /\ Urls.url_key quiet_world (lit "https://" ++ lit "example.com/some-article")
     = Ok (Some (lit "example.com/some-article"))
  /\ lit "example.com/some-article" = lit "example.com/some-article".
Proof.
  split; [vm_compute; reflexivity|]. split; [vm_compute; reflexivity|].
  apply (scheme_does_not_change_key quiet_world (lit "example.com/some-article"));
    vm_compute; reflexivity.
Defined.
